(** * GCC oil forecast: the feature pipeline and the scenario inference preparer

    A shallow embedding of [src/data/transforms.py], [src/features/build_features.py],
    [src/models/forecast.py] and the [/predict] endpoint of [api/main.py], and
    the properties of them that the specification states.
    The column helpers of [src/data/cleaning.py], the registry of
    [src/models/registry.py], the other endpoints of [api/main.py] and
    [src/evaluation] follow, with the properties that their code shows.

    Conventions of the embedding.
    - A pandas [DataFrame] is an ordered list of column labels and a list of rows;
      a row is a finite map from labels to cells (a pandas [Series]).  A label
      that a row does not bind reads as the missing value, as pandas does when it
      builds a frame from rows.  Operations read rows through the labels of the
      frame only.
    - Floating point numbers are idealised as rationals ([Q]); the missing value
      is [NaN].  The square root used by the rolling standard deviation is a
      parameter ([FloatSqrt]) of the functions that need it.
    - The dtype of a column is read off its cells: a column is numeric when it
      holds numbers and missing values only.
    - A timestamp is a calendar month and an offset inside the month; the
      month-start of month [m] is offset [0] of [m].
    - A Python exception is an [exn]; a function that may raise returns a
      [result].  Functions on frames give the contents of the frame after the
      call; where it matters that a frame is an object the caller shares, the
      module [Heap] has the references.
    - The pandas operations follow the pandas documentation.  [sort_values]
      keeps rows with equal keys in their order, which pandas' default sort
      does not promise; no property below depends on the order of such rows
      except where it says so.
    - The file readers of [src/data/loaders.py] and the cleaning functions of
      the three tables in [src/data/cleaning.py] are the environment of the
      builder: it starts from the tables they return ([Sources]).
    - The MLflow registry and a scikit-learn estimator are records of the
      answers they give ([mlflow.Client], [Estimator]). *)

From stdpp Require Import gmap strings list pretty sorting.
From Stdlib Require Import Ascii QArith.

Local Open Scope Z_scope.

(** ** Exceptions and results *)

Inductive exn : Type :=
  | KeyError (key : string)
  | ValueError (msg : string)
  | IndexError
  | TypeError
  | DataError
  | AttributeError (name : string)
  | RuntimeError (msg : string)
  | HTTPException (status_code : Z).

Inductive result (A : Type) : Type :=
  | Ok (a : A)
  | Raise (e : exn).
Arguments Ok {A} a.
Arguments Raise {A} e.

Global Instance result_ret : MRet result := λ A a, Ok a.
Global Instance result_bind : MBind result := λ A B f m,
  match m with Ok a => f a | Raise e => Raise e end.

(** ** Cells, timestamps and frames *)

(** A timestamp: the ordinal of its calendar month, and the offset inside it. *)
Record Timestamp : Type := mkTs { ts_month : Z; ts_offset : N }.

Global Instance Timestamp_eq_dec : EqDecision Timestamp.
Proof. solve_decision. Defined.

Global Instance Q_eq_dec : EqDecision Q.
Proof. solve_decision. Defined.

Inductive cell : Type :=
  | NaN
  | Num (x : Q)
  | Ts (t : Timestamp)
  | Str (s : string).

Global Instance cell_eq_dec : EqDecision cell.
Proof. solve_decision. Defined.

Definition notna (c : cell) : bool :=
  match c with NaN => false | _ => true end.

(** A row is a pandas [Series]: labels to values. *)
Abbreviation Row := (gmap string cell).

Definition at_ (r : Row) (c : string) : cell := default NaN (r !! c).

Record DataFrame : Type := mkDF { columns : list string; rows : list Row }.

Definition nrows (df : DataFrame) : nat := length (rows df).

(** [df.loc[i, c]] by position. *)
Definition iat (df : DataFrame) (i : nat) (c : string) : cell :=
  match rows df !! i with Some r => at_ r c | None => NaN end.

(** [df[c]]: the column as a list of cells, [KeyError] on an unknown label. *)
Definition getitem (df : DataFrame) (c : string) : result (list cell) :=
  if decide (c ∈ columns df) then Ok ((λ r, at_ r c) <$> rows df)
  else Raise (KeyError c).

(** [df[c] = s], for a series [s] over the frame's own index: an existing
    column is overwritten in place, a new one is appended on the right. *)
Definition setitem (df : DataFrame) (c : string) (s : list cell) : DataFrame :=
  {| columns := if decide (c ∈ columns df) then columns df else columns df ++ [c];
     rows := zip_with (λ r v, <[c := v]> r) (rows df) s |}.

(** [Series.shift(periods)]: values move down by [periods] places (up when
    negative); the places left empty are missing. *)
Definition shift (periods : Z) (s : list cell) : list cell :=
  if decide (0 ≤ periods)
  then take (length s) (replicate (Z.to_nat periods) NaN ++ s)
  else drop (Z.to_nat (- periods)) s
         ++ replicate (Nat.min (length s) (Z.to_nat (- periods))) NaN.

(** ** [src/data/transforms.py] *)

(** [f"{value_col}_lag_{lag}"]. *)
Definition lag_name (value_col : string) (lag : Z) : string :=
  value_col +:+ "_lag_" +:+ pretty lag.

Fixpoint add_lag_features (df : DataFrame) (value_col : string) (lags : list Z)
    : result DataFrame :=
  match lags with
  | [] => Ok df
  | lag :: lags' =>
      s ← getitem df value_col;
      add_lag_features (setitem df (lag_name value_col lag) (shift lag s))
                       value_col lags'
  end.

(** [Series.rolling(window)] with the default [min_periods = window]. *)
Record Rolling : Type := mkRolling { roll_obj : list cell; roll_window : nat }.

Definition rolling (s : list cell) (window : Z) : result Rolling :=
  if decide (window < 0)
  then Raise (ValueError "window must be an integer 0 or greater")
  else Ok (mkRolling s (Z.to_nat window)).

Definition numeric (c : cell) : option Q :=
  match c with Num x => Some x | _ => None end.

Definition is_numeric_cell (c : cell) : bool :=
  match c with NaN | Num _ => true | _ => false end.

(** The trailing window that ends at position [i], inclusive. *)
Definition window_at (w : nat) (s : list cell) (i : nat) : list cell :=
  drop (S i - w) (take (S i) s).

(** A windowed aggregation: at every position the observations of the
    window are its non-missing values; the result is missing unless there
    are [min_periods = window] of them, and at least [need]. *)
Definition roll_values (f : list Q → cell) (need w : nat) (s : list cell)
    : list cell :=
  (λ i, let obs := omap numeric (window_at w s i) in
        if decide (w ≤ length obs ∧ need ≤ length obs)%nat then f obs else NaN)
    <$> seq 0 (length s).

(** Only numeric columns can be aggregated. *)
Definition roll_apply (f : list Q → cell) (need : nat) (r : Rolling)
    : result (list cell) :=
  if forallb is_numeric_cell (roll_obj r)
  then Ok (roll_values f need (roll_window r) (roll_obj r))
  else Raise DataError.

Definition Qsum (xs : list Q) : Q := foldr Qplus 0%Q xs.

Definition Qmean (xs : list Q) : Q := (Qsum xs / inject_Z (Z.of_nat (length xs)))%Q.

(** Sample variance, [ddof = 1]. *)
Definition Qvar (xs : list Q) : Q :=
  (Qsum ((λ x, (x - Qmean xs) * (x - Qmean xs)) <$> xs)
     / inject_Z (Z.of_nat (length xs) - 1))%Q.

Definition Qmin_list (xs : list Q) : cell :=
  match xs with
  | [] => NaN
  | x :: xs' => Num (foldl (λ a b, if Qle_bool a b then a else b) x xs')
  end.

Definition Qmax_list (xs : list Q) : cell :=
  match xs with
  | [] => NaN
  | x :: xs' => Num (foldl (λ a b, if Qle_bool a b then b else a) x xs')
  end.

(** The square root of the floating point unit. *)
Class FloatSqrt : Type := fsqrt : Q → Q.

Section transforms.
Context `{FloatSqrt}.

Definition roll_mean (r : Rolling) : result (list cell) :=
  roll_apply (λ obs, Num (Qmean obs)) 1 r.
Definition roll_std (r : Rolling) : result (list cell) :=
  roll_apply (λ obs, Num (fsqrt (Qvar obs))) 2 r.
Definition roll_min (r : Rolling) : result (list cell) :=
  roll_apply Qmin_list 1 r.
Definition roll_max (r : Rolling) : result (list cell) :=
  roll_apply Qmax_list 1 r.

(** [f"{value_col}_roll_{stat}_{window}"]. *)
Definition roll_name (value_col stat : string) (window : Z) : string :=
  value_col +:+ "_roll_" +:+ stat +:+ "_" +:+ pretty window.

(** The body of the inner loop: one window, one statistic. *)
Definition rolling_step (df : DataFrame) (value_col : string) (window : Z)
    (stat : string) : result DataFrame :=
  let col_name := roll_name value_col stat window in
  s ← getitem df value_col;
  roll ← rolling s window;
  if decide (stat = "mean") then v ← roll_mean roll; Ok (setitem df col_name v)
  else if decide (stat = "std") then v ← roll_std roll; Ok (setitem df col_name v)
  else if decide (stat = "min") then v ← roll_min roll; Ok (setitem df col_name v)
  else if decide (stat = "max") then v ← roll_max roll; Ok (setitem df col_name v)
  else Raise (ValueError ("Unsupported stat: " +:+ stat)).

Fixpoint rolling_stats (df : DataFrame) (value_col : string) (window : Z)
    (stats : list string) : result DataFrame :=
  match stats with
  | [] => Ok df
  | stat :: stats' =>
      df' ← rolling_step df value_col window stat;
      rolling_stats df' value_col window stats'
  end.

Fixpoint rolling_windows (df : DataFrame) (value_col : string)
    (windows : list Z) (stats : list string) : result DataFrame :=
  match windows with
  | [] => Ok df
  | window :: windows' =>
      df' ← rolling_stats df value_col window stats;
      rolling_windows df' value_col windows' stats
  end.

Definition add_rolling_features (df : DataFrame) (value_col : string)
    (windows : list Z) (stats : option (list string)) : result DataFrame :=
  let stats := match stats with None => ["mean"; "std"] | Some l => l end in
  rolling_windows df value_col windows stats.
End transforms.

(** ** More of pandas: ordering, selection, concatenation *)

Definition ts_leb (a b : Timestamp) : bool :=
  (ts_month a <? ts_month b)
  || ((ts_month a =? ts_month b) && (ts_offset a <=? ts_offset b)%N).

Definition ts_ltb (a b : Timestamp) : bool :=
  (ts_month a <? ts_month b)
  || ((ts_month a =? ts_month b) && (ts_offset a <? ts_offset b)%N).

(** The order [sort_values] uses on one column; missing values go last
    ([na_position = "last"]). *)
Definition cell_leb (c1 c2 : cell) : bool :=
  match c1, c2 with
  | _, NaN => true
  | NaN, _ => false
  | Ts a, Ts b => ts_leb a b
  | Num a, Num b => Qle_bool a b
  | Str a, Str b => String.leb a b
  | _, _ => true
  end.

Definition same_kind (c1 c2 : cell) : bool :=
  match c1, c2 with
  | NaN, _ | _, NaN => true
  | Ts _, Ts _ | Num _, Num _ | Str _, Str _ => true
  | _, _ => false
  end.

(** Values of different types cannot be compared. *)
Definition comparable (s : list cell) : bool :=
  forallb (λ c1, forallb (same_kind c1) s) s.

Definition row_le (by_ : string) (r1 r2 : Row) : Prop :=
  cell_leb (at_ r1 by_) (at_ r2 by_).

Global Instance row_le_dec by_ : RelDecision (row_le by_).
Proof. intros r1 r2. unfold row_le. apply _. Defined.

(** [df.sort_values(by)], ascending.  Rows with equal keys keep their
    relative order here; pandas' default algorithm does not promise it. *)
Definition sort_values (df : DataFrame) (by_ : string) : result DataFrame :=
  s ← getitem df by_;
  if comparable s then Ok (mkDF (columns df) (merge_sort (row_le by_) (rows df)))
  else Raise TypeError.

(** [df.iloc[-1]]: the last row, as a series over the frame's labels. *)
Definition iloc_last (df : DataFrame) : result Row :=
  match last (rows df) with
  | Some r => Ok (list_to_map ((λ c, (c, at_ r c)) <$> columns df))
  | None => Raise IndexError
  end.

(** [pd.DataFrame(rows)] for series that share the labels [index]. *)
Definition DataFrame_of_rows (index : list string) (rs : list Row) : DataFrame :=
  mkDF (match rs with [] => [] | _ => index end) rs.

(** [pd.concat([df1, df2], ignore_index=True)]. *)
Definition concat (df1 df2 : DataFrame) : DataFrame :=
  mkDF (columns df1 ++ filter (λ c, c ∉ columns df1) (columns df2))
       (rows df1 ++ rows df2).

Definition row_notna (cols : list string) (r : Row) : bool :=
  forallb (λ c, notna (at_ r c)) cols.

(** [df.dropna()]: rows with a missing value in any column go. *)
Definition dropna (df : DataFrame) : DataFrame :=
  mkDF (columns df) (filter (λ r, row_notna (columns df) r) (rows df)).

(** [df[df[c].isin(dates)]]. *)
Definition filter_isin (df : DataFrame) (c : string) (dates : list Timestamp)
    : result DataFrame :=
  _ ← getitem df c;
  Ok (mkDF (columns df) (filter (λ r, at_ r c ∈ Ts <$> dates) (rows df))).

(** [df[cols]] for a list of labels. *)
Definition select (df : DataFrame) (cols : list string) : result DataFrame :=
  match filter (λ c, c ∉ columns df) cols with
  | [] => Ok (mkDF cols (rows df))
  | c :: _ => Raise (KeyError c)
  end.

(** [df.drop(columns=cols)]. *)
Definition drop_columns (df : DataFrame) (cols : list string) : result DataFrame :=
  match filter (λ c, c ∉ columns df) cols with
  | [] => Ok (mkDF (filter (λ c, c ∉ cols) (columns df)) (rows df))
  | c :: _ => Raise (KeyError c)
  end.

(** [pd.to_datetime] on the strings the service documents, [YYYY-MM-DD]. *)
Definition digit (a : ascii) : option Z := Z.of_nat <$> Ascii.is_nat a.

Definition to_datetime (s : string) : result Timestamp :=
  match s with
  | String y1 (String y2 (String y3 (String y4 (String "-"%char
      (String m1 (String m2 (String "-"%char (String d1 (String d2 ""))))))))) =>
      match digit y1, digit y2, digit y3, digit y4,
            digit m1, digit m2, digit d1, digit d2 with
      | Some a, Some b, Some c, Some d, Some e, Some f, Some g, Some h =>
          let year := 1000 * a + 100 * b + 10 * c + d in
          let month := 10 * e + f in
          let day := 10 * g + h in
          if decide (1 ≤ month ≤ 12 ∧ 1 ≤ day ≤ 31)
          then Ok (mkTs (12 * year + (month - 1)) (Z.to_N (day - 1)))
          else Raise (ValueError s)
      | _, _, _, _, _, _, _, _ => Raise (ValueError s)
      end
  | _ => Raise (ValueError s)
  end.

(** ** [src/models/forecast.py] *)

Definition target_col : string := "saudi_production".

(** A loaded model: the regressor answers one value per input row (the
    row's cells in the order of the matrix columns), and may come with the
    input columns of its signature. *)
Record Forecaster : Type := mkForecaster {
  horizon : Z;
  model : list cell → Q;
  feature_columns : option (list string)
}.

Definition model_predict (fc : Forecaster) (X : DataFrame) : list Q :=
  (λ r, model fc ((λ c, at_ r c) <$> columns X)) <$> rows X.

(** The body of the loop over [scenario.items()], for one entry. *)
Definition override (idx : nat) (row : Row) (item : string * list cell) : Row :=
  let '(var, values) := item in
  if decide ((idx < length values)%nat ∧ var ∈ dom row)
  then <[var := default NaN (values !! idx)]> row
  else row.

(** The body of the loop over [enumerate(dates)]. *)
Definition synth_row (last_row : Row) (scenario : gmap string (list cell))
    (idx : nat) (date : Timestamp) : Row :=
  let row := <["date" := Ts date]> last_row in
  foldl (override idx) row (map_to_list scenario).

Section forecast.
Context `{FloatSqrt}.

(** The loop shared by the builder and the preparer: lags 1, 2, 3, 6, 12
    and rolling mean and standard deviation over 3, 6, 12. *)
Fixpoint derive (df : DataFrame) (cols : list string) : result DataFrame :=
  match cols with
  | [] => Ok df
  | col :: cols' =>
      df1 ← add_lag_features df col [1; 2; 3; 6; 12];
      df2 ← add_rolling_features df1 col [3; 6; 12] None;
      derive df2 cols'
  end.

(** [_prepare_inputs] up to the concatenation and the sort. *)
Definition combined_sorted (base_df : DataFrame) (dates : list Timestamp)
    (scenario : gmap string (list cell)) : result (DataFrame * DataFrame) :=
  base_df ← sort_values base_df "date";
  last_row ← iloc_last base_df;
  let rows := imap (synth_row last_row scenario) dates in
  let df_pred := DataFrame_of_rows (columns base_df) rows in
  let combined := concat base_df df_pred in
  combined ← sort_values combined "date";
  Ok (base_df, combined).

(** [_prepare_inputs] up to the recomputed lags and rolling statistics. *)
Definition recomputed (base_df : DataFrame) (dates : list Timestamp)
    (scenario : gmap string (list cell)) : result DataFrame :=
  '(base_df, combined) ← combined_sorted base_df dates scenario;
  let feature_cols :=
    filter (λ c, c ∉ ["date"; target_col]) (columns base_df) in
  derive combined ([target_col] ++ feature_cols).

Definition _prepare_inputs (self : Forecaster) (base_df : DataFrame)
    (dates : list Timestamp) (scenario : gmap string (list cell))
    : result DataFrame :=
  combined ← recomputed base_df dates scenario;
  let combined := dropna combined in
  pred_df ← filter_isin combined "date" dates;
  match feature_columns self with
  | Some cols => select pred_df cols
  | None =>
      let drop_cols :=
        ["date"; target_col]
          ++ filter (λ c, String.prefix target_col c) (columns combined) in
      drop_columns pred_df drop_cols
  end.

Definition predict (self : Forecaster) (base_df : DataFrame)
    (dates : list string) (scenario : option (gmap string (list cell)))
    : result (list Q) :=
  let scenario := match scenario with None => ∅ | Some s => s end in
  dates_parsed ← mapM to_datetime dates;
  X_pred ← _prepare_inputs self base_df dates_parsed scenario;
  Ok (model_predict self X_pred).
End forecast.



(** ** More of pandas: dtypes, grouping, merging, filling *)

Definition cell_le (c1 c2 : cell) : Prop := cell_leb c1 c2.

Global Instance cell_le_dec : RelDecision cell_le.
Proof. intros c1 c2. unfold cell_le. apply _. Defined.

(** [df.select_dtypes(include=[np.number]).columns]: the dtype of a column
    is read off its cells. *)
Definition numeric_columns (df : DataFrame) : list string :=
  filter (λ c, forallb (λ r, is_numeric_cell (at_ r c)) (rows df)) (columns df).

(** [df.groupby(by)[cols].sum().rename(columns=lambda c: prefix + c).reset_index()]:
    one row per key, keys ascending, rows with a missing key left out,
    missing values skipped by the sum. *)
Definition groupby_sum (df : DataFrame) (by_ : string) (cols : list string)
    (prefix : string) : result DataFrame :=
  keys ← getitem df by_;
  let keys := remove_dups (filter (λ k, notna k) keys) in
  if comparable keys then
    Ok (mkDF (by_ :: ((λ c, prefix +:+ c) <$> cols))
         ((λ k, let grp := filter (λ r, at_ r by_ = k) (rows df) in
                <[by_ := k]>
                  (list_to_map
                     ((λ c, (prefix +:+ c,
                             Num (Qsum (omap numeric ((λ r, at_ r c) <$> grp)))))
                        <$> cols)))
            <$> merge_sort cell_le keys))
  else Raise TypeError.

(** [df.rename(columns={old: new})]. *)
Definition rename_column (df : DataFrame) (old new : string) : DataFrame :=
  let ren := λ c, if decide (c = old) then new else c in
  mkDF (ren <$> columns df)
       ((λ r, list_to_map ((λ c, (ren c, at_ r c)) <$> columns df)) <$> rows df).

(** [df.drop_duplicates(subset=by)]: the first row of every key stays. *)
Definition drop_duplicates (df : DataFrame) (by_ : string) : DataFrame :=
  mkDF (columns df)
       (foldl (λ acc r, if existsb (λ r', bool_decide (at_ r' by_ = at_ r by_)) acc
                        then acc else acc ++ [r]) [] (rows df)).

(** [left.merge(right, on=on, how="left")]: every left row, in order, once
    per right row with the same key, or once with the right columns
    missing; columns the two sides share take the suffixes [_x] and [_y]. *)
Definition shared_label (left right : DataFrame) (on c : string) : bool :=
  bool_decide (c ≠ on ∧ c ∈ columns left ∧ c ∈ columns right).

Definition left_label (left right : DataFrame) (on c : string) : string :=
  if shared_label left right on c then c +:+ "_x" else c.

Definition right_label (left right : DataFrame) (on c : string) : string :=
  if shared_label left right on c then c +:+ "_y" else c.

Definition right_columns (right : DataFrame) (on : string) : list string :=
  filter (λ c, c ≠ on) (columns right).

Definition join_rows (left right : DataFrame) (on : string) (l r : Row) : Row :=
  foldr (λ c m, <[left_label left right on c := at_ l c]> m)
        (list_to_map ((λ c, (right_label left right on c, at_ r c))
                        <$> right_columns right on))
        (columns left).

Definition merge_left (left right : DataFrame) (on : string) : result DataFrame :=
  _ ← getitem left on;
  _ ← getitem right on;
  Ok (mkDF ((left_label left right on <$> columns left)
              ++ (right_label left right on <$> right_columns right on))
        (rows left ≫= λ l,
           match filter (λ r, at_ r on = at_ l on) (rows right) with
           | [] => [join_rows left right on l ∅]
           | matches => join_rows left right on l <$> matches
           end)).

(** [df.ffill()]: a missing cell takes the last value above it. *)
Definition fill_row (cols : list string) (prev r : Row) : Row :=
  foldr (λ c acc, if notna (at_ r c) then acc else <[c := at_ prev c]> acc) r cols.

Fixpoint ffill_rows (cols : list string) (prev : Row) (rs : list Row) : list Row :=
  match rs with
  | [] => []
  | r :: rs' => let r' := fill_row cols prev r in r' :: ffill_rows cols r' rs'
  end.

Definition ffill (df : DataFrame) : DataFrame :=
  mkDF (columns df) (ffill_rows (columns df) ∅ (rows df)).

(** [pd.to_datetime] on a column. *)
Definition to_datetime_cell (c : cell) : result cell :=
  match c with
  | Ts t => Ok (Ts t)
  | NaN => Ok NaN
  | Str s => t ← to_datetime s; Ok (Ts t)
  | Num _ => Raise TypeError
  end.

Definition ts_of (c : cell) : option Timestamp :=
  match c with Ts t => Some t | _ => None end.

Definition month_start (m : Z) : Timestamp := mkTs m 0.

(** The month-start grid that covers the timestamps [idx]. *)
Definition month_grid (idx : list Timestamp) : list Z :=
  match ts_month <$> idx with
  | [] => []
  | m :: ms =>
      let lo := foldr Z.min m ms in
      let hi := foldr Z.max m ms in
      seqZ lo (hi - lo + 1)
  end.

(** The reducers [getattr(resampler, how)] knows in this model. *)
Definition resample_reducer (how : string) : result (list Q → cell) :=
  if decide (how = "mean") then
    Ok (λ xs, match xs with [] => NaN | _ => Num (Qmean xs) end)
  else if decide (how = "sum") then Ok (λ xs, Num (Qsum xs))
  else if decide (how = "min") then Ok Qmin_list
  else if decide (how = "max") then Ok Qmax_list
  else Raise (AttributeError how).

(** ** [src/data/transforms.py], continued *)

Definition resample_to_month_start (df : DataFrame) (date_col : string)
    (value_cols : list string) (how : string) : result DataFrame :=
  dates ← getitem df date_col;
  dates ← mapM to_datetime_cell dates;
  let df := setitem df date_col dates in
  match filter (λ c, bool_decide (c ∉ columns df ∨ c = date_col)) value_cols with
  | c :: _ => Raise (KeyError c)
  | [] =>
      match mapM ts_of dates with
      | None => Raise TypeError
      | Some idx =>
          let grid := month_grid idx in
          if decide (how = "ffill") then
            if decide (NoDup idx) then
              let sorted := merge_sort (row_le date_col) (rows df) in
              Ok (mkDF (date_col :: value_cols)
                   ((λ m,
                      let known :=
                        filter (λ r, cell_leb (at_ r date_col) (Ts (month_start m)))
                               sorted in
                      <[date_col := Ts (month_start m)]>
                        (list_to_map
                           ((λ c, (c, match last known with
                                      | Some r => at_ r c
                                      | None => NaN
                                      end)) <$> value_cols)))
                    <$> grid))
            else Raise (ValueError "cannot reindex on an axis with duplicate labels")
          else
            f ← resample_reducer how;
            if forallb (λ c, forallb (λ r, is_numeric_cell (at_ r c)) (rows df)) value_cols
            then
              Ok (mkDF (date_col :: value_cols)
                   ((λ m,
                      let bucket :=
                        filter (λ r, ts_month <$> ts_of (at_ r date_col) = Some m)
                               (rows df) in
                      <[date_col := Ts (month_start m)]>
                        (list_to_map
                           ((λ c, (c, f (omap numeric ((λ r, at_ r c) <$> bucket))))
                              <$> value_cols)))
                    <$> grid))
            else Raise DataError
      end
  end.

(** ** [src/features/build_features.py] *)

Definition ascii_lower (a : ascii) : ascii :=
  let n := nat_of_ascii a in
  if ((65 <=? n) && (n <=? 90))%nat then ascii_of_nat (n + 32) else a.

Fixpoint lower (s : string) : string :=
  match s with
  | EmptyString => EmptyString
  | String a s' => String (ascii_lower a) (lower s')
  end.

(** [needle in hay]. *)
Fixpoint contains (needle hay : string) : bool :=
  String.prefix needle hay
  || match hay with EmptyString => false | String _ hay' => contains needle hay' end.

Definition aggregate_world_energy (df : DataFrame) : result DataFrame :=
  groupby_sum df "date" (numeric_columns df) "world_".

Definition aggregate_renewables (df : DataFrame) : result DataFrame :=
  groupby_sum df "date" (numeric_columns df) "renewables_".

(** [astype(str).str.lower().str.contains('total', na=False)] on a cell: the
    text of a number or of a timestamp never holds the word. *)
Definition contains_total (c : cell) : bool :=
  match c with Str s => contains "total" (lower s) | _ => false end.

Definition prepare_saudi_production (df : DataFrame) : result DataFrame :=
  let indicator_col :=
    head (filter (λ col, col ∈ columns df)
            ["production_indicator"; "Production Indicator"; "production indicator"]) in
  let df :=
    match indicator_col with
    | Some ic =>
        if existsb (λ r, notna (at_ r ic)) (rows df)
        then mkDF (columns df) (filter (λ r, contains_total (at_ r ic)) (rows df))
        else df
    | None => df
    end in
  prod_col ←
    (if decide ("value" ∈ columns df) then Ok "value"
     else match filter (λ c, c ∉ ["year"; "production_indicator"]) (numeric_columns df) with
          | c :: _ => Ok c
          | [] => Raise (ValueError "No numeric production column found in Saudi dataset")
          end);
  df ← select df ["date"; prod_col];
  let df := rename_column df prod_col "saudi_production" in
  Ok (drop_duplicates df "date").

Definition prepare_brent (df : DataFrame) : result DataFrame :=
  date_col ←
    match filter (λ c, contains "date" (lower c) || contains "time" (lower c))
                 (columns df) with
    | c :: _ => Ok c
    | [] => match columns df with c :: _ => Ok c | [] => Raise IndexError end
    end;
  dates ← getitem df date_col;
  dates ← mapM to_datetime_cell dates;
  let df := setitem df "date" dates in
  price_col ←
    match numeric_columns df with
    | c :: _ => Ok c
    | [] => Raise (ValueError "No numeric price column found in Brent dataset")
    end;
  df ← select df ["date"; price_col];
  let df := rename_column df price_col "brent_price" in
  resample_to_month_start df "date" ["brent_price"] "mean".

(** What the loaders and the cleaning step hand to the builder: the cleaned
    world-energy, renewables and Saudi tables, and the raw Brent sheet; each
    may have raised instead. *)
Record Sources : Type := mkSources {
  world_clean : result DataFrame;
  renewables_clean : result DataFrame;
  saudi_clean : result DataFrame;
  brent_raw : result DataFrame
}.

Inductive log_record : Type :=
  | LogInfo (msg : string)
  | LogWarning (msg : string) (exc : exn).

Section builder.
Context `{FloatSqrt}.

(** Lags and rolling statistics for the target and every other column. *)
Definition derive_features (df : DataFrame) : result DataFrame :=
  let exogenous := filter (λ c, c ∉ ["date"; target_col]) (columns df) in
  derive df ([target_col] ++ exogenous).

(** The three tables that must load. *)
Definition load_required (src : Sources)
    : result (DataFrame * DataFrame * DataFrame) :=
  world_df ← world_clean src;
  world_df ← aggregate_world_energy world_df;
  renew_df ← renewables_clean src;
  renew_df ← aggregate_renewables renew_df;
  saudi_df ← saudi_clean src;
  saudi_df ← prepare_saudi_production saudi_df;
  saudi_df ← resample_to_month_start saudi_df "date" ["saudi_production"] "ffill";
  Ok (world_df, renew_df, saudi_df).

(** The placeholder of the [except] branch. *)
Definition brent_placeholder (saudi_df : DataFrame) : result DataFrame :=
  brent_df ← select saudi_df ["date"];
  Ok (setitem brent_df "brent_price"
              (replicate (nrows brent_df) (Num 0))).

(** From the merge to the dropped rows. *)
Definition assemble (world_df renew_df saudi_df brent_df : DataFrame)
    : result DataFrame :=
  df ← merge_left saudi_df brent_df "date";
  df ← merge_left df renew_df "date";
  df ← merge_left df world_df "date";
  df ← sort_values df "date";
  let df := ffill df in
  df ← derive_features df;
  Ok (dropna df).

Definition build_features (src : Sources) : list log_record * result DataFrame :=
  let log := [LogInfo "Building feature matrix..."] in
  match load_required src with
  | Raise e => (log, Raise e)
  | Ok (world_df, renew_df, saudi_df) =>
      let '(log, brent_df) :=
        match brent_df ← brent_raw src; prepare_brent brent_df with
        | Ok brent_df => (log, Ok brent_df)
        | Raise exc =>
            (log ++ [LogWarning "Could not load Brent data: %s. Using placeholder zeros." exc],
             brent_placeholder saudi_df)
        end in
      match brent_df ← brent_df; assemble world_df renew_df saudi_df brent_df with
      | Raise e => (log, Raise e)
      | Ok df => (log ++ [LogInfo "Saved features to %s"], Ok df)
      end
  end.
End builder.

(** ** Vocabulary of the specification *)

(** A sequence of column assignments. *)
Definition write_all (df : DataFrame) (ws : list (string * list cell)) : DataFrame :=
  foldl (λ d w, setitem d w.1 w.2) df ws.

(** The cells of [col] at the rows [i - w + 1 .. i]. *)
Definition trailing (df : DataFrame) (col : string) (i w : nat) : list cell :=
  (λ j, iat df j col) <$> seq (S i - w) w.

(** The values of a window, if none is missing. *)
Fixpoint numeric_values (l : list cell) : option (list Q) :=
  match l with
  | [] => Some []
  | c :: l' =>
      match numeric c, numeric_values l' with
      | Some x, Some xs => Some (x :: xs)
      | _, _ => None
      end
  end.

(** The four statistics, on the values of a full window. *)
Definition statistic `{FloatSqrt} (stat : string) (xs : list Q) : cell :=
  if decide (stat = "mean") then Num (Qsum xs / inject_Z (Z.of_nat (length xs)))
  else if decide (stat = "std")
       then (if decide (length xs < 2)%nat then NaN else Num (fsqrt (Qvar xs)))
  else if decide (stat = "min") then Qmin_list xs
  else Qmax_list xs.

(** The rolling statistic as the specification words it: missing while
    fewer than [w] points are there, else the statistic of the trailing
    window (missing if the window holds a missing value). *)
Definition rolling_spec `{FloatSqrt} (stat : string) (df : DataFrame)
    (col : string) (w i : nat) : cell :=
  if decide (S i < w)%nat then NaN
  else match numeric_values (trailing df col i w) with
       | Some xs => statistic stat xs
       | None => NaN
       end.

Definition supported_stats : list string := ["mean"; "std"; "min"; "max"].

(** The date column, and what it is to be strictly ascending: every cell a
    timestamp, each earlier than all that follow (so none repeats). *)
Definition is_ts (c : cell) : bool :=
  match c with Ts _ => true | _ => false end.

Definition cell_lt (c1 c2 : cell) : Prop :=
  match c1, c2 with
  | Ts a, Ts b => ts_ltb a b
  | _, _ => False
  end.

Definition date_column (df : DataFrame) : list cell :=
  (λ r, at_ r "date") <$> rows df.

Definition strictly_ascending (l : list cell) : Prop :=
  Forall (λ c, is_ts c) l ∧ StronglySorted cell_lt l.

(** Every cell outside the date column is a number or missing. *)
Definition numeric_rows (df : DataFrame) : Prop :=
  ∀ r c, r ∈ rows df → c ∈ columns df → c ≠ "date" → is_numeric_cell (at_ r c).

(** The test table of [tests/test_transforms.py]. *)
Definition values_frame (vs : list Z) : DataFrame :=
  mkDF ["value"] ((λ v, {[ "value" := Num (inject_Z v) ]}) <$> vs).

Definition test_frame : DataFrame := values_frame [10; 20; 30; 40; 50].

Definition id_sqrt : FloatSqrt := λ x, x.


(** The columns the pipeline derives from one column: its name suffix and
    its values. *)
Inductive feature : Type :=
  | Lag (k : Z)
  | Roll (stat : string) (w : Z).

Global Instance feature_eq_dec : EqDecision feature.
Proof. solve_decision. Defined.

Definition feature_suffix (φ : feature) : string :=
  match φ with
  | Lag k => "_lag_" +:+ pretty k
  | Roll stat w => "_roll_" +:+ stat +:+ "_" +:+ pretty w
  end.

Definition feature_name (col : string) (φ : feature) : string :=
  col +:+ feature_suffix φ.

Definition stat_values `{FloatSqrt} (stat : string) (w : nat) (s : list cell)
    : list cell :=
  if decide (stat = "mean") then roll_values (λ obs, Num (Qmean obs)) 1 w s
  else if decide (stat = "std") then roll_values (λ obs, Num (fsqrt (Qvar obs))) 2 w s
  else if decide (stat = "min") then roll_values Qmin_list 1 w s
  else roll_values Qmax_list 1 w s.

Definition feature_value `{FloatSqrt} (φ : feature) (s : list cell) : list cell :=
  match φ with
  | Lag k => shift k s
  | Roll stat w => stat_values stat (Z.to_nat w) s
  end.

Definition supported (φ : feature) : Prop :=
  match φ with
  | Lag _ => True
  | Roll stat w => stat ∈ supported_stats ∧ 0 ≤ w
  end.

Definition writes `{FloatSqrt} (col : string) (s : list cell) (φs : list feature)
    : list (string * list cell) :=
  (λ φ, (feature_name col φ, feature_value φ s)) <$> φs.

Definition roll_features (windows : list Z) (stats : list string) : list feature :=
  windows ≫= λ w, (λ stat, Roll stat w) <$> stats.

(** The eleven derived columns of the builder, in the order it writes them. *)
Definition features : list feature :=
  (Lag <$> [1; 2; 3; 6; 12]) ++ roll_features [3; 6; 12] ["mean"; "std"].



(** ** The caller's view of [add_lag_features]: frames are objects *)

(** A Python variable holds a reference to a frame; [df[name] = ...] changes
    the object every holder of the reference sees. *)
Module Heap.
Definition ref : Type := nat.
Abbreviation heap := (gmap nat DataFrame).

Fixpoint add_lag_features (df : ref) (value_col : string) (lags : list Z)
    (h : heap) : result ref * heap :=
  match lags with
  | [] => (Ok df, h)
  | lag :: lags' =>
      match h !! df with
      | None => (Raise (RuntimeError "no such object"), h)
      | Some d =>
          match getitem d value_col with
          | Raise e => (Raise e, h)
          | Ok s =>
              add_lag_features df value_col lags'
                (<[df := setitem d (lag_name value_col lag) (shift lag s)]> h)
          end
      end
  end.
End Heap.

(** ** [api/schemas.py] and [api/main.py]: the [/predict] endpoint *)

Record PredictRequest : Type := mkPredictRequest {
  dates : list string;
  scenario : option (gmap string (list cell))
}.

Record Response : Type := mkResponse {
  status : Z;
  predictions : option (list Q)
}.

(** What the endpoint does to the model: loading it from the registry, and
    calling its [predict]. *)
Inductive event : Type :=
  | LoadModel (h : Z)
  | ModelPredict.

(** The collaborators of the endpoint: the registry lookup of
    [Forecaster(horizon)] and the persisted feature matrix. *)
Record Service : Type := mkService {
  registry : Z → result Forecaster;
  features_csv : result DataFrame
}.

(** [PredictRequest]: [dates] has [min_length=1]. *)
Definition validate_PredictRequest (req : PredictRequest) : bool :=
  bool_decide (1 ≤ length (dates req))%nat.

Section api.
Context `{FloatSqrt}.

(** The body of the [try] block of [predict]. *)
Definition predict_body (svc : Service) (req : PredictRequest)
    : list event * result (list Q) :=
  match dates req with
  | [] => ([], Raise (HTTPException 400))
  | d0 :: _ =>
      match to_datetime d0 with
      | Raise e => ([], Raise e)
      | Ok _ =>
          let horizon := 1 in
          match registry svc horizon with
          | Raise e => ([LoadModel horizon], Raise e)
          | Ok forecaster =>
              match (dates_parsed ← mapM to_datetime (dates req);
                     base_df ← features_csv svc;
                     _prepare_inputs forecaster base_df dates_parsed
                       (match scenario req with None => ∅ | Some s => s end)) with
              | Raise e => ([LoadModel horizon], Raise e)
              | Ok X_pred =>
                  ([LoadModel horizon; ModelPredict],
                   Ok (model_predict forecaster X_pred))
              end
          end
      end
  end.

(** The handler: any exception of the body, the 400 of its own guard
    included, leaves as a 500. *)
Definition predict_handler (svc : Service) (req : PredictRequest)
    : list event * result (list Q) :=
  let '(trace, r) := predict_body svc req in
  match r with
  | Ok preds => (trace, Ok preds)
  | Raise exc => (trace, Raise (HTTPException 500))
  end.

(** The route: the request model is validated before the handler runs; a
    request that fails validation is answered 422. *)
Definition post_predict (svc : Service) (req : PredictRequest)
    : list event * Response :=
  if validate_PredictRequest req then
    let '(trace, r) := predict_handler svc req in
    match r with
    | Ok preds => (trace, mkResponse 200 (Some preds))
    | Raise (HTTPException code) => (trace, mkResponse code None)
    | Raise _ => (trace, mkResponse 500 None)
    end
  else ([], mkResponse 422 None).
End api.

(** ** Base columns and derived columns *)

Fixpoint ends_with (sfx s : string) : bool :=
  String.eqb s sfx
  || match s with EmptyString => false | String _ s' => ends_with sfx s' end.

(** A column is derived when its name ends like one of the eleven. *)
Definition is_derived (c : string) : bool :=
  existsb (λ φ, ends_with (feature_suffix φ) c) features.

(** A column of a frame is derived when it carries the name of a lag or
    rolling column of a column of that frame; the others are its base
    columns: the date, the target, the exogenous variables. *)
Definition derived_from (cols : list string) (c : string) : bool :=
  existsb (λ c0, existsb (λ φ, String.eqb c (feature_name c0 φ)) features) cols.

Definition base_projection (df : DataFrame) : DataFrame :=
  mkDF (filter (λ c, negb (derived_from (columns df) c)) (columns df)) (rows df).

(** ** Example data *)

Definition jan (year : Z) : cell := Ts (month_start (12 * year)).

Definition saudi_example : DataFrame :=
  mkDF ["year"; "production_indicator"; "value"; "date"]
    [ {[ "year" := Num 2000; "production_indicator" := Str "Total";
         "value" := Num 100; "date" := jan 2000 ]};
      {[ "year" := Num 2000; "production_indicator" := Str "Percentage Change";
         "value" := Num 5; "date" := jan 2000 ]};
      {[ "year" := Num 2001; "production_indicator" := Str "Total";
         "value" := Num 110; "date" := jan 2001 ]} ].

Definition world_example : DataFrame :=
  mkDF ["country"; "year"; "value"; "date"]
    [ {[ "country" := Str "Qatar"; "year" := Num 2000; "value" := Num 7; "date" := jan 2000 ]};
      {[ "country" := Str "Oman"; "year" := Num 2000; "value" := Num 3; "date" := jan 2000 ]};
      {[ "country" := Str "Qatar"; "year" := Num 2001; "value" := Num 8; "date" := jan 2001 ]} ].

Definition renewables_example : DataFrame :=
  mkDF ["country"; "capacity"; "date"]
    [ {[ "country" := Str "Kuwait"; "capacity" := Num 1; "date" := jan 2000 ]};
      {[ "country" := Str "Bahrain"; "capacity" := Num 2; "date" := jan 2000 ]} ].

(** The Brent workbook cannot be read. *)
Definition sources_example : Sources :=
  mkSources (Ok world_example) (Ok renewables_example) (Ok saudi_example)
            (Raise (RuntimeError "Error reading Excel file")).

(** A short history: twelve months of production and price. *)
Definition history_row (i : Z) : Row :=
  {[ "date" := Ts (month_start (24300 + i));
     "saudi_production" := Num (inject_Z (100 + i));
     "brent_price" := Num (inject_Z (50 + i)) ]}.

Definition history_example : DataFrame :=
  mkDF ["date"; "saudi_production"; "brent_price"] (history_row <$> seqZ 0 12).

(** A model that answers with its first input column. *)
Definition first_input_model : Forecaster :=
  mkForecaster 1 (λ r, match r with Num x :: _ => x | _ => 0%Q end) None.

(** A model that answers with its second input column, which is the price
    of the month before when the signature is unknown. *)
Definition previous_price_model : Forecaster :=
  mkForecaster 1 (λ r, match r with _ :: Num x :: _ => x | _ => 0%Q end) None.

(** Every row has the cell of [v] at its place under the label [c]. *)
Definition holds (c : string) (v : list cell) (df : DataFrame) : Prop :=
  Forall2 (λ r x, r !! c = Some x) (rows df) v.

(** The annual table of the tests: one row per year, at the first of
    January. *)
Definition annual_example : DataFrame :=
  mkDF ["date"; "saudi_production"]
    [ {[ "date" := jan 2000; "saudi_production" := Num 100 ]};
      {[ "date" := jan 2001; "saudi_production" := Num 110 ]} ].





(** ** [src/models/train.py]: the columns the models are trained on *)

Module train.
(** [feature_cols] of [train_all_horizons], from the header of the feature
    matrix. *)
Definition feature_cols (columns : list string) : list string :=
  filter (λ c, (c ∉ ["date"; target_col]) ∧ ¬ String.prefix target_col c) columns.
End train.

(** Some non-empty end of [t] is a beginning of [s]. *)
Fixpoint overlaps (t s : string) : bool :=
  match t with
  | EmptyString => false
  | String _ t' => String.prefix t s || overlaps t' s
  end.

(** Half a year of history. *)
Definition short_history : DataFrame :=
  mkDF ["date"; "saudi_production"; "brent_price"] (history_row <$> seqZ 0 6).

(** ** The MLflow registry: [src/models/registry.py] and [Forecaster._load_model] *)

Module mlflow.
Record ModelVersion : Type := mkModelVersion {
  run_id : string;
  version : string;
  current_stage : string;
  source : string
}.

Record RegisteredModel : Type := mkRegisteredModel {
  name : string;
  latest_versions : list ModelVersion
}.

(** The tracking server as the client sees it: the listing of the
    registered models, the latest versions of a model in given stages, the
    loader of a model URI and the input columns of the signature stored
    with the model (if it has one). *)
Record Client : Type := mkClient {
  list_registered_models : result (list RegisteredModel);
  get_latest_versions : string → list string → result (list ModelVersion);
  pyfunc_load_model : string → result (list cell → Q);
  signature_inputs : string → result (option (list string))
}.
End mlflow.

(** [any(mv.current_stage == stage for mv in rm.latest_versions)]: the
    inner loops stop at the first version in the stage. *)
Definition in_stage (stage : string) (rm : mlflow.RegisteredModel) : bool :=
  existsb (λ mv, String.eqb (mlflow.current_stage mv) stage) (mlflow.latest_versions rm).

Module registry.
(** The loop of [list_models]; an empty prefix is no prefix. *)
Fixpoint list_models_loop (prefix : option string) (stage : string)
    (models : list mlflow.RegisteredModel) : list string :=
  match models with
  | [] => []
  | rm :: models' =>
      let name := mlflow.name rm in
      let skip :=
        match prefix with
        | None | Some EmptyString => false
        | Some p => negb (String.prefix p name)
        end in
      if skip then list_models_loop prefix stage models'
      else if in_stage stage rm then name :: list_models_loop prefix stage models'
      else list_models_loop prefix stage models'
  end.

Definition list_models (client : mlflow.Client) (prefix : option string)
    (stage : string) : result (list string) :=
  models ← mlflow.list_registered_models client;
  Ok (list_models_loop prefix stage models).

Record Metadata : Type := mkMetadata {
  meta_name : string;
  meta_run_id : string;
  meta_version : string;
  meta_stage : string;
  meta_source : string
}.

Definition get_model_metadata (client : mlflow.Client) (name stage : string)
    : result Metadata :=
  versions ← mlflow.get_latest_versions client name [stage];
  match versions with
  | mv :: _ =>
      Ok (mkMetadata name (mlflow.run_id mv) (mlflow.version mv)
                     (mlflow.current_stage mv) (mlflow.source mv))
  | [] => Raise (ValueError ("No model named " +:+ name +:+ " in stage " +:+ stage))
  end.
End registry.

(** The names [train_and_log_model] registers, and the prefix
    [_load_model] looks for. *)
Definition registered_model_name (horizon : Z) (model_type : string) : string :=
  "gcc_oil_forecast_h" +:+ pretty horizon +:+ "_" +:+ model_type.

Definition model_prefix (horizon : Z) : string :=
  "gcc_oil_forecast_h" +:+ pretty horizon +:+ "_".

Definition model_uri (name stage : string) : string :=
  "models:/" +:+ name +:+ "/" +:+ stage.

(** [mlflow.pyfunc.load_model] and the signature, for the model found. *)
Definition load_registered (client : mlflow.Client) (stage : string) (horizon : Z)
    (name : string) : result Forecaster :=
  model ← mlflow.pyfunc_load_model client (model_uri name stage);
  let feature_columns :=
    match mlflow.signature_inputs client (model_uri name stage) with
    | Ok (Some cols) => Some cols
    | Ok None => None
    | Raise _ => None
    end in
  Ok (mkForecaster horizon model feature_columns).

(** The loop of [_load_model] over the registered models. *)
Fixpoint _load_model_loop (client : mlflow.Client) (stage : string) (horizon : Z)
    (models : list mlflow.RegisteredModel) : result Forecaster :=
  match models with
  | [] =>
      Raise (RuntimeError ("No model found for horizon " +:+ pretty horizon
                             +:+ " in stage " +:+ stage))
  | rm :: models' =>
      if negb (String.prefix (model_prefix horizon) (mlflow.name rm))
      then _load_model_loop client stage horizon models'
      else if in_stage stage rm
           then load_registered client stage horizon (mlflow.name rm)
           else _load_model_loop client stage horizon models'
  end.

(** [Forecaster(horizon)]. *)
Definition _load_model (client : mlflow.Client) (stage : string) (horizon : Z)
    : result Forecaster :=
  models ← mlflow.list_registered_models client;
  _load_model_loop client stage horizon models.

(** The service of the API on a tracking server and a feature file. *)
Definition mlflow_service (client : mlflow.Client) (stage : string)
    (csv : result DataFrame) : Service :=
  mkService (_load_model client stage) csv.

Fixpoint no_underscore (s : string) : bool :=
  match s with
  | EmptyString => true
  | String a s' => negb (Ascii.eqb a "_") && no_underscore s'
  end.

(** ** [api/main.py]: the other endpoints *)

Module WhatIfRequest.
Record t : Type := mk { date : string; variable : string; values : list Q }.
(** [values] has [min_length=1]. *)
Definition validate (req : t) : bool := bool_decide (1 ≤ length (values req))%nat.
End WhatIfRequest.

Module WhatIfResponse.
Record t : Type := mk {
  baseline_prediction : Q;
  variable : string;
  values : list Q;
  predictions : list Q
}.
End WhatIfResponse.

Module ModelInfo.
Record t : Type := mk { horizon : Z; run_id : string; version : string }.
End ModelInfo.

(** An HTTP answer: the status and, on success, the body. *)
Module Http.
Record response (A : Type) : Type := mk { status : Z; body : option A }.
Arguments mk {A} status body.
Arguments status {A} r.
Arguments body {A} r.
End Http.

(** A call with keyword arguments: each keyword must name a parameter of
    the callee, and each parameter without a default must be given; else
    Python raises [TypeError] before the body runs. *)
Definition bind_keywords (params : list (string * option string))
    (kwargs : list (string * string)) : result (list string) :=
  if forallb (λ kw, existsb (λ p, String.eqb p.1 kw.1) params) kwargs
  then mapM (λ p, match list_find (λ kw, kw.1 = p.1) kwargs with
                  | Some (_, kw) => Ok kw.2
                  | None => match p.2 with
                            | Some default => Ok default
                            | None => Raise TypeError
                            end
                  end) params
  else Raise TypeError.

Section endpoints.
Context `{FloatSqrt}.

(** [forecaster.predict(dates, scenario)] as the endpoints run it: the
    feature file is read after the dates are parsed. *)
Definition forecaster_predict (svc : Service) (forecaster : Forecaster)
    (dates : list string) (scenario : option (gmap string (list cell)))
    : list event * result (list Q) :=
  match (dates_parsed ← mapM to_datetime dates;
         base_df ← features_csv svc;
         _prepare_inputs forecaster base_df dates_parsed
           (match scenario with None => ∅ | Some s => s end)) with
  | Raise e => ([], Raise e)
  | Ok X_pred => ([ModelPredict], Ok (model_predict forecaster X_pred))
  end.

(** The body of the [try] block of [what_if]. *)
Definition what_if_body (svc : Service) (req : WhatIfRequest.t)
    : list event * result WhatIfResponse.t :=
  let date := WhatIfRequest.date req in
  let variable := WhatIfRequest.variable req in
  let values := WhatIfRequest.values req in
  let horizon := 1 in
  match registry svc horizon with
  | Raise e => ([LoadModel horizon], Raise e)
  | Ok forecaster =>
      let '(t1, r1) := forecaster_predict svc forecaster [date] None in
      match r1 with
      | Raise e => (LoadModel horizon :: t1, Raise e)
      | Ok [] => (LoadModel horizon :: t1, Raise IndexError)
      | Ok (baseline_pred :: _) =>
          let scenario : gmap string (list cell) := {[ variable := Num <$> values ]} in
          let '(t2, r2) :=
            forecaster_predict svc forecaster (replicate (length values) date)
                               (Some scenario) in
          match r2 with
          | Raise e => (LoadModel horizon :: t1 ++ t2, Raise e)
          | Ok preds =>
              (LoadModel horizon :: t1 ++ t2,
               Ok (WhatIfResponse.mk baseline_pred variable values preds))
          end
      end
  end.

(** The route [/whatif]: validation first (422), then the handler, which
    turns every exception into a 500. *)
Definition post_whatif (svc : Service) (req : WhatIfRequest.t)
    : list event * Http.response WhatIfResponse.t :=
  if WhatIfRequest.validate req then
    let '(trace, r) := what_if_body svc req in
    match r with
    | Ok resp => (trace, Http.mk 200 (Some resp))
    | Raise _ => (trace, Http.mk 500 None)
    end
  else ([], Http.mk 422 None).
End endpoints.

(** [get_model_metadata] as [model_info] calls it, with keywords. *)
Definition get_model_metadata_kw (client : mlflow.Client) (stage : string)
    (kwargs : list (string * string)) : result registry.Metadata :=
  args ← bind_keywords [("name", None); ("stage", Some stage)] kwargs;
  match args with
  | [name; stage] => registry.get_model_metadata client name stage
  | _ => Raise TypeError
  end.

(** The route [/model/{h}/info]: every exception becomes a 404. *)
Definition model_info (client : mlflow.Client) (stage : string) (h : Z)
    : Http.response ModelInfo.t :=
  match get_model_metadata_kw client stage
          [("prefix", "gcc_oil_forecast_h" +:+ pretty h)] with
  | Ok meta =>
      Http.mk 200 (Some (ModelInfo.mk h (registry.meta_run_id meta)
                                      (registry.meta_version meta)))
  | Raise _ => Http.mk 404 None
  end.

(** [/health]. *)
Definition health : Http.response (list (string * string)) :=
  Http.mk 200 (Some [("status", "ok")]).

(** ** [src/data/cleaning.py] *)

(** Labels are ASCII strings.  [str.strip()] removes the characters
    [str.isspace] accepts: tab to carriage return, the four separators
    and the space. *)
Definition is_space (a : ascii) : bool :=
  let n := nat_of_ascii a in
  ((9 <=? n) && (n <=? 13) || (28 <=? n) && (n <=? 32))%nat.

Fixpoint lstrip (s : string) : string :=
  match s with
  | EmptyString => EmptyString
  | String a s' => if is_space a then lstrip s' else s
  end.

Fixpoint rstrip (s : string) : string :=
  match s with
  | EmptyString => EmptyString
  | String a s' =>
      match rstrip s' with
      | EmptyString => if is_space a then EmptyString else String a EmptyString
      | t => String a t
      end
  end.

Definition strip (s : string) : string := rstrip (lstrip s).

(** [s.replace(old, new)] for one-character strings. *)
Fixpoint replace_char (old new : ascii) (s : string) : string :=
  match s with
  | EmptyString => EmptyString
  | String a s' =>
      String (if Ascii.eqb a old then new else a) (replace_char old new s')
  end.

(** [c.strip().lower().replace(" ", "_").replace("/", "_")]. *)
Definition standardise_label (c : string) : string :=
  replace_char "/" "_" (replace_char " " "_" (lower (strip c))).

(** [_standardise_columns]: the same cells under the new labels.  (Where
    two labels become one, a row keeps the cell of the leftmost.) *)
Definition _standardise_columns (df : DataFrame) : DataFrame :=
  mkDF (standardise_label <$> columns df)
       ((λ r, list_to_map ((λ c, (standardise_label c, at_ r c)) <$> columns df))
          <$> rows df).



(** Every character of the string passes the test. *)
Fixpoint string_forall (P : ascii → bool) (s : string) : bool :=
  match s with
  | EmptyString => true
  | String a s' => P a && string_forall P s'
  end.

Fixpoint string_map (g : ascii → ascii) (s : string) : string :=
  match s with
  | EmptyString => EmptyString
  | String a s' => String (g a) (string_map g s')
  end.

(** What the three character steps do to one character. *)
Definition standardise_char (a : ascii) : ascii :=
  let a := ascii_lower a in
  let a := if Ascii.eqb a " " then "_"%char else a in
  if Ascii.eqb a "/" then "_"%char else a.

Definition is_upper (a : ascii) : bool :=
  let n := nat_of_ascii a in ((65 <=? n) && (n <=? 90))%nat.

(** A raw header as the Saudi file has it. *)
Definition raw_saudi_example : DataFrame :=
  mkDF ["Year"; "Production Indicator"; " Value "]
    [ {[ "Year" := Str "2000-01-01"; "Production Indicator" := Str "Total";
         " Value " := Num 100 ]} ].

(** ** [src/evaluation/metrics.py] and [src/evaluation/backtest.py] *)

From Stdlib Require Qabs.

(** A numpy array of one dimension, or a Python list of floats: a float is
    a number or [nan].  Overflow to infinity is outside the idealisation of
    floats as rationals. *)
Module np.
Abbreviation float := (option Q).
Abbreviation ndarray := (list (option Q)).

(** A function of one float, element by element; a [nan] stays. *)
Definition map (f : Q → Q) (a : ndarray) : ndarray :=
  (λ x : float, f <$> x) <$> a.

(** An arithmetic operator on two floats: [nan] when an operand is. *)
Definition lift2 (f : Q → Q → Q) (x y : float) : float :=
  x ← x; y ← y; Some (f x y).

(** An operator on two arrays: the shapes [(n,)] and [(m,)] broadcast when
    they are equal or one of them is [(1,)]. *)
Definition broadcast (f : Q → Q → Q) (a b : ndarray) : result ndarray :=
  if decide (length a = length b) then Ok (zip_with (lift2 f) a b)
  else match a, b with
       | [x], _ => Ok (lift2 f x <$> b)
       | _, [y] => Ok ((λ x, lift2 f x y) <$> a)
       | _, _ => Raise (ValueError "operands could not be broadcast together")
       end.

Definition abs (a : ndarray) : ndarray := map Qabs.Qabs a.

(** [np.maximum(a, c)] for a scalar [c]; a [nan] stays. *)
Definition maximum (a : ndarray) (c : Q) : ndarray :=
  map (λ x, if Qle_bool x c then c else x) a.

(** [a / c] and [a ** 2]. *)
Definition div_scalar (a : ndarray) (c : Q) : ndarray :=
  map (λ x, x / c)%Q a.

Definition square (a : ndarray) : ndarray := map (λ x, x * x)%Q a.

(** [np.mean]: [nan] for an empty array (with a warning) and for an array
    that holds a [nan]. *)
Definition mean (a : ndarray) : float :=
  match a with
  | [] => None
  | _ => Qmean <$> mapM id a
  end.

(** [np.finfo(float).eps]. *)
Definition eps : Q := 1 # 4503599627370496.
End np.

Section metrics.
Context `{FloatSqrt}.

Definition rmse (y_true y_pred : np.ndarray) : result np.float :=
  d ← np.broadcast Qminus y_true y_pred;
  Ok (fsqrt <$> np.mean (np.square d)).

Definition mae (y_true y_pred : np.ndarray) : result np.float :=
  d ← np.broadcast Qminus y_true y_pred;
  Ok (np.mean (np.abs d)).

(** The denominators are at least [eps]: no division by zero occurs. *)
Definition mape (y_true y_pred : np.ndarray) : result np.float :=
  let eps := np.eps in
  d ← np.broadcast Qminus y_true y_pred;
  q ← np.broadcast Qdiv d (np.maximum (np.abs y_true) eps);
  Ok ((λ m, m * 100)%Q <$> np.mean (np.abs q)).

Definition smape (y_true y_pred : np.ndarray) : result np.float :=
  let eps := np.eps in
  s ← np.broadcast Qplus (np.abs y_true) (np.abs y_pred);
  let denominator := np.div_scalar s 2 in
  d ← np.broadcast Qminus y_true y_pred;
  q ← np.broadcast Qdiv (np.abs d) (np.maximum denominator eps);
  Ok ((λ m, m * 100)%Q <$> np.mean q).
End metrics.

(** [range(start, stop, step)]. *)
Definition py_range (start stop step : Z) : result (list Z) :=
  if decide (step = 0) then Raise (ValueError "range() arg 3 must not be zero")
  else if decide (0 < step)
  then Ok ((λ i, start + i * step) <$> seqZ 0 ((stop - start + step - 1) `div` step))
  else Ok ((λ i, start + i * step) <$> seqZ 0 ((start - stop - step - 1) `div` (- step))).

(** A bound of a slice over [n] rows: a negative bound counts from the end,
    and a bound outside the rows is clipped. *)
Definition slice_bound (n i : Z) : Z :=
  if decide (i < 0) then Z.max (i + n) 0 else Z.min i n.

(** [df.iloc[a:b]]. *)
Definition iloc_slice (df : DataFrame) (a b : Z) : DataFrame :=
  let n := Z.of_nat (nrows df) in
  let a := slice_bound n a in
  let b := slice_bound n b in
  mkDF (columns df) (take (Z.to_nat (b - a)) (drop (Z.to_nat a) (rows df))).

(** [y_test.values] as the operand of the metrics: a column of numbers is an
    array of floats; arithmetic on the array of any other column raises. *)
Definition to_float (c : cell) : result np.float :=
  match c with
  | NaN => Ok None
  | Num x => Ok (Some x)
  | _ => Raise TypeError
  end.

(** What [model_factory()] returns: [fit] gives the fitted model, which is
    its [predict]; each may raise. *)
Record Estimator : Type := mkEstimator {
  fit : DataFrame → list cell → result (DataFrame → result np.ndarray)
}.

Section backtest.
Context `{FloatSqrt}.

(** The two slices of the fold that starts at [start]. *)
Definition fold_windows (df : DataFrame) (horizon train_size start : Z)
    : DataFrame * DataFrame :=
  let train_end := start + train_size in
  let test_end := train_end + horizon in
  (iloc_slice df start train_end, iloc_slice df train_end test_end).

(** The body of the loop: the three scores of one fold. *)
Definition backtest_fold (df : DataFrame) (target_col : string)
    (feature_cols : list string) (horizon train_size : Z)
    (model_factory : Estimator) (start : Z)
    : result (np.float * np.float * np.float) :=
  let '(train_df, test_df) := fold_windows df horizon train_size start in
  X_train ← select train_df feature_cols;
  y_train ← getitem train_df target_col;
  X_test ← select test_df feature_cols;
  y_test ← getitem test_df target_col;
  model ← fit model_factory X_train y_train;
  preds ← model X_test;
  y_true ← mapM to_float y_test;
  r ← rmse y_true preds;
  m ← mae y_true preds;
  s ← smape y_true preds;
  Ok (r, m, s).

Definition rolling_origin_backtest (df : DataFrame) (target_col : string)
    (feature_cols : list string) (horizon train_size step : Z)
    (model_factory : Estimator) : result (gmap string np.float) :=
  starts ← py_range 0 (Z.of_nat (nrows df) - train_size - horizon + 1) step;
  scores ← mapM (backtest_fold df target_col feature_cols horizon train_size
                   model_factory) starts;
  let rmses := (λ x, x.1.1) <$> scores in
  let maes := (λ x, x.1.2) <$> scores in
  let smapes := (λ x, x.2) <$> scores in
  Ok {[ "rmse" := np.mean rmses; "mae" := np.mean maes;
        "smape" := np.mean smapes ]}.
End backtest.

(** A target that grows by ten a month, and a model that repeats the last
    target it was fitted on. *)
Definition backtest_example : DataFrame :=
  mkDF ["x"; "y"]
    ((λ i, {[ "x" := Num (inject_Z i); "y" := Num (inject_Z (100 + 10 * i)) ]})
       <$> seqZ 0 8).

Definition last_value_model : Estimator :=
  mkEstimator (λ _ y_train,
    Ok (λ X_test, Ok (replicate (nrows X_test)
                        (default None (numeric <$> last y_train))))).

(** * Properties *)

(** ** Results *)

Lemma bind_Ok {A B} (f : A → result B) (m : result A) (b : B) :
  m ≫= f = Ok b ↔ ∃ a, m = Ok a ∧ f a = Ok b.
Proof.
  destruct m as [a|e]; simpl.
  - split; [eauto | by intros (? & [= <-] & ?)].
  - split; [done | by intros (? & ? & ?)].
Qed.

Lemma result_check {A} (r : result A) (p : A → bool) :
  match r with Ok a => p a | Raise _ => false end = true →
  ∃ a, r = Ok a ∧ p a = true.
Proof. destruct r; [eauto|done]. Qed.

(** ** Frames: reading and writing columns *)

Lemma getitem_Ok df c s :
  getitem df c = Ok s ↔ c ∈ columns df ∧ s = (λ r, at_ r c) <$> rows df.
Proof.
  unfold getitem. case_decide; split; try naive_solver.
Qed.

Lemma getitem_in df c :
  c ∈ columns df → getitem df c = Ok ((λ r, at_ r c) <$> rows df).
Proof. intros. by apply getitem_Ok. Qed.

Lemma getitem_length df c s : getitem df c = Ok s → length s = nrows df.
Proof. intros [_ ->]%getitem_Ok. by rewrite length_fmap. Qed.

Lemma getitem_iat df c s i :
  getitem df c = Ok s → default NaN (s !! i) = iat df i c.
Proof.
  intros [_ ->]%getitem_Ok. unfold iat. rewrite list_lookup_fmap.
  by destruct (rows df !! i).
Qed.

Lemma nrows_setitem df c (s : list cell) : length s = nrows df → nrows (setitem df c s) = nrows df.
Proof. unfold nrows, setitem; simpl. intros Hl. rewrite length_zip_with. lia. Qed.

Lemma columns_setitem_in df c (s : list cell) c' :
  c' ∈ columns (setitem df c s) ↔ c' ∈ columns df ∨ c' = c.
Proof.
  unfold setitem; simpl. case_decide.
  - naive_solver.
  - rewrite elem_of_app, list_elem_of_singleton. naive_solver.
Qed.

Lemma columns_setitem_prefix df c (s : list cell) : columns df `prefix_of` columns (setitem df c s).
Proof.
  unfold setitem; simpl. case_decide; [done|]. by apply prefix_app_r.
Qed.

Lemma rows_setitem_fmap {B} df c (s : list cell) (f : Row → B) :
  length s = nrows df →
  (∀ r v, f (<[c := v]> r) = f r) →
  f <$> rows (setitem df c s) = f <$> rows df.
Proof.
  unfold nrows, setitem; simpl. intros Hl Hf.
  revert s Hl. induction (rows df) as [|r rs IH]; intros [|v s] ?; simplify_eq/=; [done|].
  f_equal; auto.
Qed.

Lemma getitem_setitem_ne df c (s : list cell) c' :
  c ≠ c' → length s = nrows df → getitem (setitem df c s) c' = getitem df c'.
Proof.
  intros Hne Hl. unfold getitem.
  destruct (decide (c' ∈ columns df)) as [Hin|Hin].
  - rewrite decide_True by (apply columns_setitem_in; auto).
    f_equal. apply rows_setitem_fmap; [done|].
    intros r v. unfold at_. by rewrite lookup_insert_ne.
  - rewrite decide_False; [done|]. rewrite columns_setitem_in. naive_solver.
Qed.

Lemma getitem_setitem_eq df c (s : list cell) :
  length s = nrows df → getitem (setitem df c s) c = Ok s.
Proof.
  intros Hl. unfold getitem.
  rewrite decide_True by (apply columns_setitem_in; auto). f_equal.
  unfold nrows, setitem in *; simpl.
  revert s Hl. induction (rows df) as [|r rs IH]; intros [|v s] ?; simplify_eq/=; [done|].
  f_equal; [|auto]. unfold at_. by rewrite lookup_insert_eq.
Qed.

(** ** [shift] *)

Lemma length_shift k s : length (shift k s) = length s.
Proof.
  unfold shift. case_decide.
  - rewrite length_take, length_app, length_replicate. lia.
  - rewrite length_app, length_drop, length_replicate. lia.
Qed.

Lemma shift_lookup k s i :
  (i < length s)%nat →
  shift k s !! i =
    Some (if decide (0 ≤ Z.of_nat i - k < Z.of_nat (length s))
          then default NaN (s !! Z.to_nat (Z.of_nat i - k)) else NaN).
Proof.
  intros Hi. unfold shift. destruct (decide (0 ≤ k)) as [Hk|Hk].
  - rewrite lookup_take_lt by done.
    destruct (decide (i < Z.to_nat k)%nat) as [Hik|Hik].
    + rewrite lookup_app_l by (rewrite length_replicate; lia).
      rewrite lookup_replicate_2 by done.
      rewrite decide_False by lia. done.
    + rewrite lookup_app_r by (rewrite length_replicate; lia).
      rewrite length_replicate, decide_True by lia.
      replace (Z.to_nat (Z.of_nat i - k)) with (i - Z.to_nat k)%nat by lia.
      destruct (lookup_lt_is_Some_2 s (i - Z.to_nat k)%nat) as [x Hx]; [lia|].
      by rewrite Hx.
  - set (m := Z.to_nat (- k)).
    destruct (decide (i + m < length s)%nat) as [Him|Him].
    + rewrite lookup_app_l by (rewrite length_drop; lia).
      rewrite lookup_drop, decide_True by lia.
      replace (Z.to_nat (Z.of_nat i - k)) with (m + i)%nat by lia.
      destruct (lookup_lt_is_Some_2 s (m + i)%nat) as [x Hx]; [lia|].
      by rewrite Hx.
    + rewrite lookup_app_r by (rewrite length_drop; lia).
      rewrite lookup_replicate_2 by (rewrite length_drop; lia).
      rewrite decide_False by lia. done.
Qed.

(** ** Sequences of column assignments *)

Lemma write_all_cons df w ws : write_all df (w :: ws) = write_all (setitem df w.1 w.2) ws.
Proof. done. Qed.

Lemma write_all_app df ws1 ws2 :
  write_all df (ws1 ++ ws2) = write_all (write_all df ws1) ws2.
Proof. unfold write_all. apply foldl_app. Qed.

Lemma nrows_write_all df ws :
  Forall (λ w, length w.2 = nrows df) ws → nrows (write_all df ws) = nrows df.
Proof.
  revert df. induction ws as [|w ws IH]; intros df Hl; [done|].
  apply Forall_cons in Hl as [Hw Hl]. rewrite write_all_cons, IH.
  - by apply nrows_setitem.
  - eapply Forall_impl; [exact Hl|]. intros x Hx; simpl in *.
    by rewrite nrows_setitem.
Qed.

Lemma columns_write_all_prefix df ws : columns df `prefix_of` columns (write_all df ws).
Proof.
  revert df. induction ws as [|w ws IH]; intros df; [done|].
  rewrite write_all_cons. etrans; [apply columns_setitem_prefix | apply IH].
Qed.

Lemma columns_write_all_in df ws c :
  c ∈ columns (write_all df ws) ↔ c ∈ columns df ∨ c ∈ ws.*1.
Proof.
  revert df. induction ws as [|w ws IH]; intros df.
  - simpl. rewrite elem_of_nil. naive_solver.
  - rewrite write_all_cons, IH, columns_setitem_in, fmap_cons, elem_of_cons.
    naive_solver.
Qed.

Lemma getitem_write_all_notin df ws c :
  Forall (λ w, length w.2 = nrows df) ws →
  c ∉ ws.*1 → getitem (write_all df ws) c = getitem df c.
Proof.
  revert df. induction ws as [|w ws IH]; intros df Hl Hc; [done|].
  apply Forall_cons in Hl as [Hw Hl].
  rewrite fmap_cons, not_elem_of_cons in Hc. destruct Hc as [Hc1 Hc2].
  rewrite write_all_cons, IH; [by apply getitem_setitem_ne| |done].
  eapply Forall_impl; [exact Hl|]. intros x Hx; simpl in *.
  by rewrite nrows_setitem.
Qed.

Lemma getitem_write_all_in df ws c v :
  Forall (λ w, length w.2 = nrows df) ws →
  (c, v) ∈ ws → (∀ v', (c, v') ∈ ws → v' = v) →
  getitem (write_all df ws) c = Ok v.
Proof.
  revert df. induction ws as [|w ws IH]; intros df Hl Hin Hfun.
  { by apply elem_of_nil in Hin. }
  apply Forall_cons in Hl as [Hw Hl].
  assert (Hl' : Forall (λ w0, length w0.2 = nrows (setitem df w.1 w.2)) ws).
  { eapply Forall_impl; [exact Hl|]. intros x Hx; simpl in *.
    by rewrite nrows_setitem. }
  rewrite write_all_cons.
  destruct (decide (c ∈ ws.*1)) as [Hc|Hc].
  - apply list_elem_of_fmap in Hc as ([c' v'] & -> & Hv'); simpl in *.
    assert (v' = v) as -> by (apply Hfun; by right).
    apply IH; [done..|]. intros v'' ?. apply Hfun. by right.
  - rewrite getitem_write_all_notin by done.
    apply elem_of_cons in Hin as [<-|Hin]; simpl.
    + by apply getitem_setitem_eq.
    + destruct Hc. apply list_elem_of_fmap. by exists (c, v).
Qed.

(** ** Column names *)

Lemma app_length_string (s1 s2 : string) :
  String.length (s1 +:+ s2) = (String.length s1 + String.length s2)%nat.
Proof. induction s1; simpl; [done|]. unfold String.app in *. simpl. by f_equal. Qed.

Lemma app_ne_self (c s : string) : s ≠ "" → c +:+ s ≠ c.
Proof.
  intros Hs Heq. apply (f_equal String.length) in Heq.
  rewrite app_length_string in Heq. destruct s; [done|]. simpl in Heq. lia.
Qed.

Lemma feature_name_ne col φ : feature_name col φ ≠ col.
Proof. unfold feature_name. apply app_ne_self. by destruct φ. Qed.

Lemma stat_suffix_inj (st st' : string) (p p' : string) :
  st ∈ supported_stats → st' ∈ supported_stats →
  st +:+ "_" +:+ p = st' +:+ "_" +:+ p' → st = st' ∧ p = p'.
Proof.
  unfold supported_stats. rewrite !elem_of_cons, !elem_of_nil.
  intros [->|[->|[->|[->|[]]]]] [->|[->|[->|[->|[]]]]] Heq;
    cbv [String.append] in Heq; by simplify_eq.
Qed.

Lemma feature_name_inj col φ φ' :
  supported φ → supported φ' → feature_name col φ = feature_name col φ' → φ = φ'.
Proof.
  unfold feature_name. intros Hφ Hφ' Heq. apply (inj _) in Heq.
  destruct φ as [k|st w], φ' as [k'|st' w']; simpl in *.
  - apply (inj _), (inj pretty) in Heq. by subst.
  - cbv [String.append] in Heq. by simplify_eq.
  - cbv [String.append] in Heq. by simplify_eq.
  - apply (inj _) in Heq. destruct Hφ, Hφ'.
    apply stat_suffix_inj in Heq as [-> Hp]; [|done..].
    apply (inj pretty) in Hp. by subst.
Qed.

(** ** Derived columns of one column *)

Global Arguments feature_value : simpl never.
Global Arguments feature_name : simpl never.
Global Arguments roll_features : simpl never.

Section features.
Context `{FloatSqrt}.

Lemma length_roll_values f need w s : length (roll_values f need w s) = length s.
Proof. unfold roll_values. by rewrite length_fmap, length_seq. Qed.

Lemma length_feature_value φ s : length (feature_value φ s) = length s.
Proof.
  destruct φ; unfold feature_value; [apply length_shift|].
  unfold stat_values. repeat case_decide; apply length_roll_values.
Qed.

Lemma writes_lengths df col s φs :
  length s = nrows df →
  Forall (λ w, length w.2 = nrows df) (writes col s φs).
Proof.
  intros Hs. apply Forall_fmap, Forall_forall. intros φ _; simpl.
  by rewrite length_feature_value.
Qed.

(** What a frame looks like after the derived columns of [col] are written. *)
Lemma write_features df col s φs :
  getitem df col = Ok s → Forall supported φs →
  let df' := write_all df (writes col s φs) in
  nrows df' = nrows df ∧
  columns df `prefix_of` columns df' ∧
  (∀ c, c ∈ columns df' ↔ c ∈ columns df ∨ ∃ φ, φ ∈ φs ∧ c = feature_name col φ) ∧
  (∀ φ, φ ∈ φs → getitem df' (feature_name col φ) = Ok (feature_value φ s)) ∧
  (∀ c, (∀ φ, φ ∈ φs → c ≠ feature_name col φ) → getitem df' c = getitem df c).
Proof.
  intros Hs Hsup df'.
  pose proof (writes_lengths df col s φs (getitem_length _ _ _ Hs)) as Hl.
  split_and!.
  - by apply nrows_write_all.
  - apply columns_write_all_prefix.
  - intros c. unfold df'. rewrite columns_write_all_in. unfold writes.
    rewrite <- list_fmap_compose. rewrite list_elem_of_fmap. naive_solver.
  - intros φ Hφ. apply getitem_write_all_in; [done| |].
    + apply list_elem_of_fmap. by exists φ.
    + intros v' (φ' & [= Hn ->] & Hφ')%list_elem_of_fmap.
      rewrite Forall_forall in Hsup.
      apply feature_name_inj in Hn; [by subst|auto..].
  - intros c Hc. apply getitem_write_all_notin; [done|].
    unfold writes. rewrite <- list_fmap_compose.
    intros (φ & -> & Hφ)%list_elem_of_fmap. by eapply Hc.
Qed.

Lemma add_lag_features_writes df col lags s :
  getitem df col = Ok s →
  add_lag_features df col lags = Ok (write_all df (writes col s (Lag <$> lags))).
Proof.
  revert df. induction lags as [|k lags IH]; intros df Hs; [done|].
  simpl. rewrite Hs; simpl. rewrite IH; [done|].
  rewrite getitem_setitem_ne; [done| |].
  - apply (feature_name_ne col (Lag k)).
  - rewrite length_shift. by eapply getitem_length.
Qed.

Lemma rolling_step_write df col w stat s :
  getitem df col = Ok s → forallb is_numeric_cell s →
  supported (Roll stat w) →
  rolling_step df col w stat
    = Ok (setitem df (feature_name col (Roll stat w))
                  (feature_value (Roll stat w) s)).
Proof.
  intros Hs Hnum [Hst Hw]. unfold rolling_step. rewrite Hs; simpl.
  unfold rolling. rewrite decide_False by lia; simpl.
  unfold roll_mean, roll_std, roll_min, roll_max, roll_apply, stat_values; simpl.
  apply Is_true_true in Hnum. rewrite Hnum.
  unfold supported_stats in Hst.
  rewrite !elem_of_cons, elem_of_nil in Hst.
  destruct Hst as [->|[->|[->|[->|[]]]]]; done.
Qed.

Lemma rolling_stats_writes df col w stats s :
  getitem df col = Ok s → forallb is_numeric_cell s →
  Forall (λ stat, supported (Roll stat w)) stats →
  rolling_stats df col w stats
    = Ok (write_all df (writes col s ((λ stat, Roll stat w) <$> stats))).
Proof.
  revert df. induction stats as [|stat stats IH]; intros df Hs Hnum Hsup; [done|].
  apply Forall_cons in Hsup as [Hsup1 Hsup].
  simpl. rewrite (rolling_step_write _ _ _ _ s) by done. simpl.
  rewrite IH; [done| |done..].
  rewrite getitem_setitem_ne; [done| |].
  - apply (feature_name_ne col (Roll stat w)).
  - rewrite length_feature_value. by eapply getitem_length.
Qed.

Lemma getitem_write_features_self df col s φs :
  getitem df col = Ok s →
  getitem (write_all df (writes col s φs)) col = Ok s.
Proof.
  intros Hs. rewrite getitem_write_all_notin; [done| |].
  - apply writes_lengths. by eapply getitem_length.
  - unfold writes. rewrite <- list_fmap_compose.
    intros (φ & Heq & _)%list_elem_of_fmap. simpl in Heq.
    by eapply feature_name_ne.
Qed.

Lemma roll_features_cons w windows stats :
  roll_features (w :: windows) stats
    = ((λ stat, Roll stat w) <$> stats) ++ roll_features windows stats.
Proof. done. Qed.

Lemma rolling_windows_writes df col windows stats s :
  getitem df col = Ok s → forallb is_numeric_cell s →
  Forall supported (roll_features windows stats) →
  rolling_windows df col windows stats
    = Ok (write_all df (writes col s (roll_features windows stats))).
Proof.
  revert df. induction windows as [|w windows IH]; intros df Hs Hnum Hsup; [done|].
  rewrite roll_features_cons in Hsup |- *.
  apply Forall_app in Hsup as [Hsup1 Hsup].
  cbn [rolling_windows]. rewrite (rolling_stats_writes _ _ _ _ s); [|done..|].
  - cbn [mbind result_bind]. rewrite IH; [|by apply getitem_write_features_self|done..].
    unfold writes. by rewrite fmap_app, write_all_app.
  - by rewrite Forall_fmap in Hsup1.
Qed.
End features.

(** ** [add_lag_features] *)

(** C4. For every lag [k] of the list, [add_lag_features] gives the table a
    column [col_lag_k] whose value at row [i] is the value of [col] at row
    [i - k], and missing when there is no such row (so for [i < k]); the
    table keeps its rows, in their order, and its other columns. *)
Theorem add_lag_features_spec (df : DataFrame) (col : string) (lags : list Z) :
  col ∈ columns df →
  ∃ df', add_lag_features df col lags = Ok df' ∧
    nrows df' = nrows df ∧
    columns df `prefix_of` columns df' ∧
    (∀ c, c ∈ columns df' → c ∈ columns df ∨ ∃ k, k ∈ lags ∧ c = lag_name col k) ∧
    (∀ k, k ∈ lags →
       lag_name col k ∈ columns df' ∧
       ∀ i, (i < nrows df)%nat →
         iat df' i (lag_name col k) =
           if decide (0 ≤ Z.of_nat i - k < Z.of_nat (nrows df))
           then iat df (Z.to_nat (Z.of_nat i - k)) col else NaN) ∧
    (∀ c, (∀ k, k ∈ lags → c ≠ lag_name col k) → getitem df' c = getitem df c).
Proof.
  intros Hcol. pose proof (getitem_in _ _ Hcol) as Hs.
  set (s := (λ r, at_ r col) <$> rows df) in Hs.
  exists (write_all df (@writes id_sqrt col s (Lag <$> lags))).
  destruct (@write_features id_sqrt df col s (Lag <$> lags) Hs)
    as (Hn & Hpre & Hcols & Hnew & Hframe).
  { by apply Forall_fmap, Forall_forall. }
  split_and!; try done.
  - by apply add_lag_features_writes.
  - intros c [?|(φ & (k & -> & Hk)%list_elem_of_fmap & ->)]%Hcols; [by left|].
    right. by exists k.
  - intros k Hk.
    assert (Hget : getitem (write_all df (@writes id_sqrt col s (Lag <$> lags)))
                     (lag_name col k) = Ok (shift k s)).
    { apply (Hnew (Lag k)). apply list_elem_of_fmap. by exists k. }
    split; [by apply getitem_Ok in Hget as [? _]|].
    intros i Hi. rewrite <- (getitem_iat _ _ _ _ Hget).
    pose proof (getitem_length _ _ _ Hs) as Hlen.
    rewrite shift_lookup by lia; simpl. rewrite Hlen.
    destruct (decide _); [|done]. by apply getitem_iat.
  - intros c Hc. apply Hframe.
    intros φ (k & -> & Hk)%list_elem_of_fmap. by apply Hc.
Qed.

(** The lag columns of the test table, as the tests expect them. *)
Lemma add_lag_features_witness :
  ∃ df', add_lag_features test_frame "value" [1; 2] = Ok df' ∧
    getitem df' "value_lag_1"
      = Ok [NaN; Num (inject_Z 10); Num (inject_Z 20); Num (inject_Z 30); Num (inject_Z 40)] ∧
    getitem df' "value_lag_2"
      = Ok [NaN; NaN; Num (inject_Z 10); Num (inject_Z 20); Num (inject_Z 30)].
Proof.
  destruct (add_lag_features_spec test_frame "value" [1; 2]) as (df' & Hrun & _).
  { vm_compute. left. }
  exists df'. split; [exact Hrun|].
  vm_compute in Hrun. injection Hrun as <-. split; reflexivity.
Defined.

(** ** [add_rolling_features] *)

Lemma omap_numeric_length (l : list cell) : (length (omap numeric l) ≤ length l)%nat.
Proof. induction l as [|[] l IH]; csimpl; lia. Qed.

Lemma numeric_values_Some (l : list cell) xs :
  numeric_values l = Some xs → omap numeric l = xs ∧ length xs = length l.
Proof.
  revert xs. induction l as [|c l IH]; intros xs Hm; simpl in Hm.
  - by injection Hm as <-.
  - destruct c as [|x| |]; simpl in Hm; try done.
    destruct (numeric_values l) as [ys|]; [|done]. injection Hm as <-.
    destruct (IH ys eq_refl) as [Ho Hl]. csimpl. rewrite Ho. simpl. by rewrite Hl.
Qed.

Lemma numeric_values_None (l : list cell) :
  numeric_values l = None → (length (omap numeric l) < length l)%nat.
Proof.
  induction l as [|c l IH]; intros Hm; simpl in Hm; [done|].
  pose proof (omap_numeric_length l).
  destruct c as [|x| |]; csimpl; try lia.
  destruct (numeric_values l); [done|]. specialize (IH eq_refl). lia.
Qed.

Lemma numeric_values_Num xs : numeric_values (Num <$> xs) = Some xs.
Proof. induction xs as [|x xs IH]; [done|]. rewrite fmap_cons. simpl. by rewrite IH. Qed.

Lemma window_at_short w (s : list cell) i : (S i < w)%nat → (length (window_at w s i) < w)%nat.
Proof. intros. unfold window_at. rewrite length_drop, length_take. lia. Qed.

Lemma window_at_trailing df col s w i :
  getitem df col = Ok s → (i < length s)%nat → (w ≤ S i)%nat →
  window_at w s i = trailing df col i w.
Proof.
  intros Hs Hi Hw. unfold window_at, trailing. apply list_eq. intros j.
  rewrite lookup_drop, list_lookup_fmap.
  destruct (decide (j < w)%nat) as [Hj|Hj].
  - rewrite lookup_take_lt by lia. rewrite lookup_seq_lt by done. simpl.
    rewrite <- (getitem_iat _ _ _ _ Hs).
    destruct (lookup_lt_is_Some_2 s (S i - w + j)%nat) as [x Hx]; [lia|].
    by rewrite Hx.
  - rewrite lookup_take_ge by lia. by rewrite lookup_seq_ge by lia.
Qed.

Section rolling.
Context `{FloatSqrt}.

Lemma roll_values_lookup f need w s i :
  (i < length s)%nat →
  roll_values f need w s !! i =
    Some (let obs := omap numeric (window_at w s i) in
          if decide (w ≤ length obs ∧ need ≤ length obs)%nat then f obs else NaN).
Proof.
  intros Hi. unfold roll_values. rewrite list_lookup_fmap.
  by rewrite lookup_seq_lt.
Qed.

Lemma stat_values_spec stat w df col s i :
  getitem df col = Ok s → (0 < w)%nat → stat ∈ supported_stats →
  (i < length s)%nat →
  stat_values stat w s !! i = Some (rolling_spec stat df col w i).
Proof.
  intros Hs Hw Hst Hi. unfold rolling_spec.
  assert (Hgen : ∀ f need, (need ≤ 2)%nat →
    (∀ xs, length xs = w → (need ≤ w)%nat → f xs = statistic stat xs) →
    (∀ xs, length xs = w → ¬ (need ≤ w)%nat → statistic stat xs = NaN) →
    roll_values f need w s !! i =
      Some (if decide (S i < w)%nat then NaN
            else match numeric_values (trailing df col i w) with
                 | Some xs => statistic stat xs
                 | None => NaN
                 end)).
  { intros f need Hneed Hf Hnan. rewrite roll_values_lookup by done. f_equal; simpl.
    destruct (decide (S i < w)%nat) as [Hsh|Hsh].
    - pose proof (window_at_short w s i Hsh).
      pose proof (omap_numeric_length (window_at w s i)).
      rewrite decide_False by lia. done.
    - rewrite (window_at_trailing df col) by (done || lia).
      assert (Hlt : length (trailing df col i w) = w).
      { unfold trailing. by rewrite length_fmap, length_seq. }
      destruct (numeric_values (trailing df col i w)) as [xs|] eqn:Hm.
      + apply numeric_values_Some in Hm as [-> Hlen]. rewrite Hlen, Hlt.
        destruct (decide (need ≤ w)%nat).
        * rewrite decide_True by lia. apply Hf; [congruence|done].
        * rewrite decide_False by lia. symmetry. apply Hnan; [congruence|done].
      + apply numeric_values_None in Hm. rewrite decide_False by lia. done. }
  unfold stat_values, supported_stats in *.
  rewrite !elem_of_cons, elem_of_nil in Hst.
  destruct Hst as [->|[->|[->|[->|[]]]]]; simpl; apply Hgen; try lia.
  - intros xs Hl _. unfold statistic, Qmean. simpl. done.
  - intros xs Hl Hw2. unfold statistic; simpl. rewrite decide_False by lia. done.
  - intros xs Hl Hw2. unfold statistic; simpl. rewrite decide_True by lia. done.
  - intros xs Hl _. done.
  - intros xs Hl _. done.
Qed.
End rolling.

(** C5. For every window [w] and statistic of [mean], [std], [min], [max],
    [add_rolling_features] gives the table a column [col_roll_stat_w] whose
    value at row [i] is the statistic over the trailing window
    [col[i-w+1 .. i]], and missing while fewer than [w] points are there
    ([i < w - 1]); the rolling mean is the sum of the [w] trailing values
    divided by [w]. *)
Theorem add_rolling_features_spec `{FloatSqrt} (df : DataFrame) (col : string)
    (windows : list Z) (stats : list string) :
  col ∈ columns df →
  (∀ i, is_numeric_cell (iat df i col)) →
  (∀ w, w ∈ windows → 0 < w) →
  (∀ stat, stat ∈ stats → stat ∈ supported_stats) →
  ∃ df', add_rolling_features df col windows (Some stats) = Ok df' ∧
    nrows df' = nrows df ∧
    columns df `prefix_of` columns df' ∧
    (∀ w stat, w ∈ windows → stat ∈ stats →
       roll_name col stat w ∈ columns df' ∧
       ∀ i, (i < nrows df)%nat →
         iat df' i (roll_name col stat w) = rolling_spec stat df col (Z.to_nat w) i) ∧
    (∀ w i xs, w ∈ windows → "mean" ∈ stats → (i < nrows df)%nat →
       Z.of_nat i < w - 1 ∨ trailing df col i (Z.to_nat w) = Num <$> xs →
       iat df' i (roll_name col "mean" w) =
         if decide (Z.of_nat i < w - 1) then NaN else Num (Qsum xs / inject_Z w)) ∧
    (∀ c, (∀ w stat, w ∈ windows → stat ∈ stats → c ≠ roll_name col stat w) →
       getitem df' c = getitem df c).
Proof.
  intros Hcol Hnum Hwin Hstats. pose proof (getitem_in _ _ Hcol) as Hs.
  set (s := (λ r, at_ r col) <$> rows df) in Hs.
  assert (Hnums : forallb is_numeric_cell s).
  { apply Is_true_true, forallb_forall. intros c (i & Hi)%list_elem_of_In%list_elem_of_lookup.
    apply Is_true_true. specialize (Hnum i).
    rewrite <- (getitem_iat _ _ _ _ Hs), Hi in Hnum. done. }
  assert (Hsup : Forall supported (roll_features windows stats)).
  { apply Forall_forall. intros φ. unfold roll_features.
    rewrite list_elem_of_bind. intros (w & (st & -> & Hst)%list_elem_of_fmap & Hw).
    split; [auto|]. specialize (Hwin w Hw). lia. }
  exists (write_all df (writes col s (roll_features windows stats))).
  destruct (write_features df col s _ Hs Hsup) as (Hn & Hpre & Hcols & Hnew & Hframe).
  assert (Hmem : ∀ w stat, w ∈ windows → stat ∈ stats →
            Roll stat w ∈ roll_features windows stats).
  { intros w st Hw Hst. unfold roll_features. apply list_elem_of_bind.
    exists w. split; [|done]. apply list_elem_of_fmap. by exists st. }
  assert (Hval : ∀ w stat, w ∈ windows → stat ∈ stats → ∀ i, (i < nrows df)%nat →
            iat (write_all df (writes col s (roll_features windows stats))) i
                (roll_name col stat w) = rolling_spec stat df col (Z.to_nat w) i).
  { intros w st Hw Hst i Hi.
    rewrite <- (getitem_iat _ _ _ _ (Hnew (Roll st w) (Hmem _ _ Hw Hst))).
    unfold feature_value.
    rewrite (stat_values_spec st (Z.to_nat w) df col s i); [done|done| |auto|].
    - specialize (Hwin w Hw). lia.
    - unfold s. by rewrite length_fmap. }
  split_and!; try done.
  - unfold add_rolling_features. by apply rolling_windows_writes.
  - intros w st Hw Hst. split; [|by apply Hval].
    apply Hcols. right. exists (Roll st w). split; [by apply Hmem|done].
  - intros w i xs Hw Hmean Hi Hxs. rewrite Hval by done.
    specialize (Hwin w Hw). unfold rolling_spec.
    destruct (decide (Z.of_nat i < w - 1)) as [Hlt|Hge].
    + rewrite decide_True by lia. done.
    + rewrite decide_False by lia. destruct Hxs as [?|Hxs]; [lia|].
      rewrite Hxs.
      rewrite numeric_values_Num. unfold statistic; simpl.
      assert (Hlen : length xs = Z.to_nat w).
      { apply (f_equal length) in Hxs. unfold trailing in Hxs.
        rewrite !length_fmap, length_seq in Hxs. done. }
      rewrite Hlen, Z2Nat.id by lia. done.
  - intros c Hc. apply Hframe. intros φ Hφ. unfold roll_features in Hφ.
    apply list_elem_of_bind in Hφ as (w & (st & -> & Hst)%list_elem_of_fmap & Hw).
    by apply Hc.
Qed.

(** The rolling mean of the test table, as the tests expect it. *)
Lemma add_rolling_features_witness :
  ∃ df', @add_rolling_features id_sqrt test_frame "value" [3] (Some ["mean"; "max"]) = Ok df' ∧
    iat df' 2 (roll_name "value" "mean" 3) = Num (Qsum [10; 20; 30] / 3)%Q ∧
    iat df' 1 (roll_name "value" "mean" 3) = NaN.
Proof.
  destruct (@add_rolling_features_spec id_sqrt test_frame "value" [3] ["mean"; "max"])
    as (df' & Hrun & _ & _ & _ & Hmean & _).
  - vm_compute. left.
  - intros i. do 6 (destruct i as [|i]; [exact I|]). exact I.
  - intros w Hw. apply list_elem_of_singleton in Hw. subst w. reflexivity.
  - intros stat Hst. unfold supported_stats.
    apply elem_of_cons in Hst as [->|Hst]; [left|].
    apply list_elem_of_singleton in Hst. subst stat. do 3 right. left.
  - exists df'. split; [exact Hrun|]. split.
    + etrans; [apply (Hmean 3 2%nat ((inject_Z <$> [10; 20; 30]) : list Q))|reflexivity];
        [left|left|vm_compute; lia|right; reflexivity].
    + etrans; [apply (Hmean 3 1%nat [])|reflexivity];
        [left|left|vm_compute; lia|left; lia].
Defined.

(** ** [add_lag_features] and the caller's table *)

Lemma heap_add_lag_features (h : Heap.heap) df d col lags d' :
  h !! df = Some d → add_lag_features d col lags = Ok d' →
  Heap.add_lag_features df col lags h = (Ok df, <[df := d']> h).
Proof.
  revert h d. induction lags as [|k lags IH]; intros h d Hh Hrun; simpl in *.
  - injection Hrun as <-. by rewrite insert_id.
  - rewrite Hh. apply bind_Ok in Hrun as (s & Hs & Hrun). rewrite Hs.
    erewrite IH; [|by apply lookup_insert_eq|exact Hrun].
    by rewrite insert_insert_eq.
Qed.

(** C9, as the code has it.  [add_lag_features] works in place: it returns
    the reference it was given, and the caller's table now carries the lag
    columns; no other object changes, and the table keeps its rows, their
    order, and every column that is not one of the lag columns. *)
Theorem add_lag_features_in_place (h : Heap.heap) (df : Heap.ref) (d : DataFrame)
    (col : string) (lags : list Z) :
  h !! df = Some d → col ∈ columns d →
  ∃ d', Heap.add_lag_features df col lags h = (Ok df, <[df := d']> h) ∧
    add_lag_features d col lags = Ok d' ∧
    nrows d' = nrows d ∧
    (∀ k, k ∈ lags → lag_name col k ∈ columns d') ∧
    (∀ c, (∀ k, k ∈ lags → c ≠ lag_name col k) → getitem d' c = getitem d c).
Proof.
  intros Hh Hcol. pose proof (getitem_in _ _ Hcol) as Hs.
  set (s := (λ r, at_ r col) <$> rows d) in Hs.
  pose proof (add_lag_features_writes (H := id_sqrt) d col lags s Hs) as Hrun.
  destruct (@write_features id_sqrt d col s (Lag <$> lags) Hs)
    as (Hn & _ & Hcols & _ & Hframe).
  { by apply Forall_fmap, Forall_forall. }
  eexists. split_and!; [by eapply heap_add_lag_features|done|done| |].
  - intros k Hk. apply Hcols. right. exists (Lag k). split; [|done].
    apply list_elem_of_fmap. by exists k.
  - intros c Hc. apply Hframe.
    intros φ (k & -> & Hk)%list_elem_of_fmap. by apply Hc.
Qed.

Lemma add_lag_features_in_place_witness :
  ∃ d', Heap.add_lag_features 0%nat "value" [1; 2] {[ 0%nat := test_frame ]}
          = (Ok 0%nat, <[0%nat := d']> {[ 0%nat := test_frame ]}) ∧
        columns d' = ["value"; "value_lag_1"; "value_lag_2"].
Proof.
  destruct (add_lag_features_in_place {[ 0%nat := test_frame ]} 0%nat test_frame
              "value" [1; 2]) as (d' & Hheap & Hrun & _).
  - reflexivity.
  - vm_compute. left.
  - exists d'. split; [exact Hheap|].
    vm_compute in Hrun. injection Hrun as <-. reflexivity.
Defined.

(** C9, as the specification words it, fails: after the call the caller's
    table is no longer the table it passed. *)
Lemma add_lag_features_mutates_argument :
  (Heap.add_lag_features 0%nat "value" [1] {[ 0%nat := test_frame ]}).2 !! 0%nat
    ≠ Some test_frame.
Proof.
  intros Heq. apply (f_equal (fmap columns)) in Heq.
  vm_compute in Heq. discriminate Heq.
Qed.

(** ** The synthesized row *)

Lemma foldl_override idx (items : list (string * list cell)) (row : Row) c :
  NoDup items.*1 →
  foldl (override idx) row items !! c =
    match (list_to_map items : gmap string (list cell)) !! c with
    | Some values =>
        if decide ((idx < length values)%nat ∧ is_Some (row !! c))
        then values !! idx else row !! c
    | None => row !! c
    end.
Proof.
  revert row. induction items as [|[var values] items IH]; intros row Hnd; [done|].
  apply NoDup_cons in Hnd as [Hvar Hnd]. simpl in *.
  rewrite IH by done. destruct (decide (var = c)) as [->|Hne].
  - rewrite lookup_insert_eq.
    rewrite (not_elem_of_list_to_map_1 _ c) by done.
    destruct (decide ((idx < length values)%nat ∧ c ∈ dom row)) as [[Hi Hd]|Hn].
    + rewrite lookup_insert_eq.
      rewrite decide_True by (split; [done|by apply elem_of_dom]).
      destruct (lookup_lt_is_Some_2 values idx Hi) as [v Hv]. by rewrite Hv.
    + rewrite decide_False; [done|]. rewrite <- elem_of_dom. done.
  - rewrite lookup_insert_ne by done.
    assert (Hrow : override idx row (var, values) !! c = row !! c).
    { simpl. case_decide; [by rewrite lookup_insert_ne|done]. }
    simpl in Hrow. rewrite !Hrow. done.
Qed.

Lemma synth_row_lookup (last_row : Row) (scenario : gmap string (list cell))
    (idx : nat) (date : Timestamp) (c : string) :
  let template := <["date" := Ts date]> last_row in
  synth_row last_row scenario idx date !! c =
    match scenario !! c with
    | Some values =>
        if decide ((idx < length values)%nat ∧ is_Some (template !! c))
        then values !! idx else template !! c
    | None => template !! c
    end.
Proof.
  intros template. unfold synth_row.
  rewrite foldl_override by apply NoDup_fst_map_to_list.
  by rewrite list_to_map_to_list.
Qed.

Lemma iloc_last_lookup df last_row c :
  iloc_last df = Ok last_row →
  ∃ r, last (rows df) = Some r ∧
       last_row !! c = if decide (c ∈ columns df) then Some (at_ r c) else None.
Proof.
  unfold iloc_last. destruct (last (rows df)) as [r|]; [|done].
  intros [= <-]. exists r. split; [done|]. case_decide as Hc.
  - apply elem_of_list_to_map_1'.
    + by intros y (c' & [= <- <-] & _)%list_elem_of_fmap.
    + apply list_elem_of_fmap. by exists c.
  - apply not_elem_of_list_to_map_1. rewrite <- list_fmap_compose.
    intros (c' & -> & ?)%list_elem_of_fmap. done.
Qed.

(** C7. Label by label, the synthesized row is the template (the last row
    of the matrix) with the date set to the requested date, except that a
    column the scenario names holds the scenario's value at the positional
    index when the index is within the scenario's list; an index out of
    range keeps the template's value, and a scenario variable that is no
    column of the matrix adds nothing to the row. *)
Theorem synth_row_spec (base_df : DataFrame) (last_row : Row)
    (scenario : gmap string (list cell)) (idx : nat) (date : Timestamp) (c : string) :
  iloc_last base_df = Ok last_row → "date" ∈ columns base_df →
  synth_row last_row scenario idx date !! c =
    if decide (c ∈ columns base_df) then
      let template := if decide (c = "date") then Ts date else at_ last_row c in
      Some (match scenario !! c with
            | Some values => default template (values !! idx)
            | None => template
            end)
    else None.
Proof.
  intros Hlast Hdate. rewrite synth_row_lookup.
  destruct (iloc_last_lookup _ _ c Hlast) as (r & _ & Hc).
  assert (Ht : <["date" := Ts date]> last_row !! c =
    if decide (c ∈ columns base_df)
    then Some (if decide (c = "date") then Ts date else at_ last_row c) else None).
  { destruct (decide (c = "date")) as [->|Hne].
    - rewrite lookup_insert_eq. by rewrite decide_True.
    - rewrite lookup_insert_ne by done. rewrite Hc. unfold at_. rewrite Hc.
      by case_decide. }
  rewrite Ht. destruct (scenario !! c) as [values|]; [|done].
  destruct (decide (c ∈ columns base_df)) as [Hin|Hnin]; simpl.
  - destruct (decide ((idx < length values)%nat)) as [Hi|Hi].
    + rewrite decide_True by (split; [done|by eexists]).
      destruct (lookup_lt_is_Some_2 values idx Hi) as [v Hv]. by rewrite Hv.
    + rewrite decide_False by (intros [? _]; done).
      by rewrite (lookup_ge_None_2 values idx) by lia.
  - rewrite decide_False; [done|]. intros [_ [? ?]]. done.
Qed.

(** The template is the last month of the history; the scenario moves the
    price, and names a variable the matrix does not have. *)
Lemma synth_row_witness :
  let last_row := {[ "date" := Ts (month_start 24311);
                     "saudi_production" := Num 111; "brent_price" := Num 61 ]} in
  let scenario : gmap string (list cell) :=
    {[ "brent_price" := [Num 70; Num 80]; "gold_price" := [Num 1; Num 2] ]} in
  synth_row last_row scenario 1 (month_start 24313) !! "brent_price" = Some (Num 80) ∧
  synth_row last_row scenario 2 (month_start 24313) !! "brent_price" = Some (Num 61) ∧
  synth_row last_row scenario 1 (month_start 24313) !! "gold_price" = None ∧
  synth_row last_row scenario 1 (month_start 24313) !! "date" = Some (Ts (month_start 24313)).
Proof.
  intros last_row scenario.
  assert (Hl : iloc_last history_example = Ok last_row) by reflexivity.
  assert (Hd : "date" ∈ columns history_example) by (vm_compute; left).
  split_and!.
  - etrans; [exact (synth_row_spec history_example last_row scenario 1
                      (month_start 24313) "brent_price" Hl Hd)|reflexivity].
  - etrans; [exact (synth_row_spec history_example last_row scenario 2
                      (month_start 24313) "brent_price" Hl Hd)|reflexivity].
  - etrans; [exact (synth_row_spec history_example last_row scenario 1
                      (month_start 24313) "gold_price" Hl Hd)|reflexivity].
  - etrans; [exact (synth_row_spec history_example last_row scenario 1
                      (month_start 24313) "date" Hl Hd)|reflexivity].
Defined.

(** ** Names of derived columns across columns *)

Lemma ends_with_refl s : ends_with s s = true.
Proof. destruct s; cbn [ends_with]; by rewrite String.eqb_refl. Qed.

Lemma ends_with_app p s : ends_with s (p +:+ s) = true.
Proof.
  induction p as [|a p IH]; [apply ends_with_refl|].
  change (String a p +:+ s) with (String a (p +:+ s)).
  cbn [ends_with]. rewrite IH. apply orb_true_r.
Qed.

Lemma app_eq_ends_with (c c' s s' : string) :
  c +:+ s = c' +:+ s' → ends_with s s' = true ∨ ends_with s' s = true.
Proof.
  revert c'. induction c as [|a c IH]; intros c' Heq.
  - right. change ("" +:+ s) with s in Heq. subst s. apply ends_with_app.
  - destruct c' as [|a' c'].
    + left. change ("" +:+ s') with s' in Heq. subst s'. apply ends_with_app.
    + injection Heq as _ Heq. by apply IH in Heq.
Qed.

Lemma app_inj_r (c c' s : string) : c +:+ s = c' +:+ s → c = c'.
Proof.
  revert c'. induction c as [|a c IH]; intros c' Heq.
  - destruct c' as [|a' c']; [done|]. exfalso.
    apply (f_equal String.length) in Heq. rewrite !app_length_string in Heq.
    simpl in Heq. lia.
  - destruct c' as [|a' c'].
    + exfalso. apply (f_equal String.length) in Heq.
      rewrite !app_length_string in Heq. simpl in Heq. lia.
    + injection Heq as -> Heq. f_equal. by apply IH.
Qed.

Lemma features_suffix_free φ φ' :
  φ ∈ features → φ' ∈ features →
  ends_with (feature_suffix φ) (feature_suffix φ') = true → φ = φ'.
Proof.
  assert (Hall : forallb (λ φ, forallb (λ φ',
            implb (ends_with (feature_suffix φ) (feature_suffix φ'))
                  (bool_decide (φ = φ'))) features) features = true)
    by (vm_compute; reflexivity).
  intros Hφ%list_elem_of_In Hφ'%list_elem_of_In Hends.
  rewrite forallb_forall in Hall. specialize (Hall φ Hφ).
  rewrite forallb_forall in Hall. specialize (Hall φ' Hφ').
  rewrite Hends in Hall. simpl in Hall. by apply bool_decide_eq_true in Hall.
Qed.

Lemma feature_name_inj_col c c' φ φ' :
  φ ∈ features → φ' ∈ features →
  feature_name c φ = feature_name c' φ' → c = c' ∧ φ = φ'.
Proof.
  unfold feature_name. intros Hφ Hφ' Heq.
  assert (φ = φ') as <-.
  { destruct (app_eq_ends_with _ _ _ _ Heq) as [He|He].
    - by apply features_suffix_free.
    - symmetry. by apply features_suffix_free. }
  split; [|done]. by eapply app_inj_r.
Qed.

Lemma features_supported : Forall supported features.
Proof.
  unfold features, roll_features, supported_stats. simpl.
  repeat (apply Forall_cons; split; [first [exact I | split; [set_solver|lia]]|]).
  apply Forall_nil_2.
Qed.

Lemma is_derived_feature_name c φ : φ ∈ features → is_derived (feature_name c φ) = true.
Proof.
  intros Hφ%list_elem_of_In. unfold is_derived. apply existsb_exists.
  exists φ. split; [done|]. apply ends_with_app.
Qed.

Lemma base_not_feature_name v c φ :
  is_derived v = false → φ ∈ features → v ≠ feature_name c φ.
Proof. intros Hv Hφ ->. by rewrite is_derived_feature_name in Hv. Qed.

(** ** The loop over the columns *)

Section derive.
Context `{FloatSqrt}.

Lemma numeric_feature_value φ s :
  supported φ → forallb is_numeric_cell s → forallb is_numeric_cell (feature_value φ s).
Proof.
  intros Hsup Hs. apply Is_true_true, forallb_forall.
  apply Is_true_true in Hs. rewrite forallb_forall in Hs.
  intros c Hc%list_elem_of_In. destruct φ as [k|stat w]; unfold feature_value in Hc.
  - apply list_elem_of_lookup in Hc as [i Hi].
    assert (Hlt : (i < length s)%nat).
    { rewrite <- (length_shift k). by eapply lookup_lt_Some. }
    rewrite shift_lookup in Hi by done. injection Hi as <-.
    case_decide; [|done].
    destruct (s !! _) as [x|] eqn:Hx; [|done]. simpl.
    apply Hs, list_elem_of_In, list_elem_of_lookup. eauto.
  - destruct Hsup as [Hst _]. unfold stat_values, supported_stats in *.
    rewrite !elem_of_cons, elem_of_nil in Hst.
    assert (Hroll : ∀ f need c', (∀ xs, is_numeric_cell (f xs) = true) →
              c' ∈ roll_values f need (Z.to_nat w) s → is_numeric_cell c' = true).
    { clear. intros f need c' Hf (i & -> & _)%list_elem_of_fmap. simpl.
      destruct (decide _); [apply Hf|done]. }
    destruct Hst as [->|[->|[->|[->|[]]]]]; simpl in Hc;
      (eapply Hroll; [|exact Hc]); intros [|x xs]; done.
Qed.

Lemma derive_cons_run df col cols s :
  getitem df col = Ok s → forallb is_numeric_cell s →
  derive df (col :: cols) = derive (write_all df (writes col s features)) cols.
Proof.
  intros Hs Hnum. cbn [derive].
  rewrite (add_lag_features_writes _ _ _ s) by done. cbn [mbind result_bind].
  unfold add_rolling_features.
  rewrite (rolling_windows_writes _ _ _ _ s).
  - cbn [mbind result_bind]. unfold features, writes.
    by rewrite fmap_app, write_all_app.
  - by apply getitem_write_features_self.
  - done.
  - pose proof features_supported as Hf. unfold features in Hf.
    by apply Forall_app in Hf as [_ ?].
Qed.

Lemma derive_cons_Ok df col cols df' :
  derive df (col :: cols) = Ok df' →
  ∃ s, getitem df col = Ok s ∧ forallb is_numeric_cell s ∧
       derive (write_all df (writes col s features)) cols = Ok df'.
Proof.
  intros Hrun. destruct (getitem df col) as [s|e] eqn:Hs.
  - exists s. destruct (forallb is_numeric_cell s) eqn:Hnum.
    + split_and!; [done|done|]. rewrite <- Hrun. symmetry.
      apply derive_cons_run; [done|by rewrite Hnum].
    + exfalso. cbn [derive] in Hrun.
      rewrite (add_lag_features_writes _ _ _ s) in Hrun by done.
      cbn [mbind result_bind] in Hrun.
      unfold add_rolling_features in Hrun. cbn [rolling_windows rolling_stats] in Hrun.
      unfold rolling_step in Hrun.
      rewrite (getitem_write_features_self _ _ _ _ Hs) in Hrun.
      simpl in Hrun. unfold roll_mean, roll_apply in Hrun. simpl in Hrun.
      rewrite Hnum in Hrun. done.
  - exfalso. cbn [derive add_lag_features] in Hrun. rewrite Hs in Hrun. done.
Qed.

(** After the loop: a column that is no derived column of a processed
    column is untouched, and the derived columns of a processed column that
    is itself no derived column of a processed one are the features of that
    column as it was at the start. *)
Lemma derive_spec cols df df' :
  derive df cols = Ok df' →
  nrows df' = nrows df ∧
  (∀ c, c ∈ columns df → c ∈ columns df') ∧
  (∀ c, (∀ col φ, col ∈ cols → φ ∈ features → c ≠ feature_name col φ) →
        getitem df' c = getitem df c) ∧
  (∀ v φ, v ∈ cols →
     (∀ col φ', col ∈ cols → φ' ∈ features → v ≠ feature_name col φ') →
     φ ∈ features →
     ∃ s, getitem df v = Ok s ∧ forallb is_numeric_cell s ∧
          getitem df' (feature_name v φ) = Ok (feature_value φ s)).
Proof.
  revert df. induction cols as [|col cols IH]; intros df Hrun.
  { injection Hrun as <-. split_and!; [done|done|done|].
    intros v φ Hv. by apply elem_of_nil in Hv. }
  apply derive_cons_Ok in Hrun as (s & Hs & Hnum & Hrun).
  destruct (write_features df col s features Hs features_supported)
    as (Hn1 & Hpre1 & Hcols1 & Hnew1 & Hframe1).
  destruct (IH _ Hrun) as (Hn & Hcols & Hframe & Hnew).
  split_and!.
  - by rewrite Hn.
  - intros c Hc. apply Hcols, Hcols1. by left.
  - intros c Hc. rewrite Hframe.
    + apply Hframe1. intros φ Hφ. apply Hc; [left|done].
    + intros col' φ Hcol' Hφ. apply Hc; [by right|done].
  - intros v φ Hv Hbase Hφ.
    destruct (decide (v ∈ cols)) as [Hin|Hnin].
    + destruct (Hnew v φ Hin) as (s' & Hs' & Hnum' & Hget); [|done|].
      { intros col' φ' Hcol'. apply Hbase. by right. }
      exists s'. split_and!; [|done..].
      rewrite <- Hs'. symmetry. apply Hframe1.
      intros φ' Hφ'. apply Hbase; [left|done].
    + apply elem_of_cons in Hv as [->|?]; [|done].
      exists s. split_and!; [done..|].
      rewrite Hframe; [by apply Hnew1|].
      intros col' φ' Hcol' Hφ' Heq.
      apply feature_name_inj_col in Heq as [-> _]; done.
Qed.

(** The loop runs through when every column it visits is numeric and no
    derived column of a visited one. *)
Lemma derive_total cols df :
  (∀ v, v ∈ cols →
     (∀ col φ, col ∈ cols → φ ∈ features → v ≠ feature_name col φ) ∧
     ∃ s, getitem df v = Ok s ∧ forallb is_numeric_cell s) →
  ∃ df', derive df cols = Ok df'.
Proof.
  revert df. induction cols as [|col cols IH]; intros df Hcols; [by eexists|].
  destruct (Hcols col) as (Hbase & s & Hs & Hnum); [left|].
  rewrite (derive_cons_run _ _ _ s) by done. apply IH.
  intros v Hv. destruct (Hcols v) as (Hb & s' & Hs' & Hnum'); [by right|].
  split.
  - intros col' φ Hcol'. apply Hb. by right.
  - exists s'. split; [|done].
    destruct (write_features df col s features Hs features_supported)
      as (_ & _ & _ & _ & Hframe1).
    rewrite <- Hs'. apply Hframe1. intros φ Hφ. apply Hb; [left|done].
Qed.
End derive.

(** ** The combined sequence *)

Lemma sort_values_Ok df by_ df' :
  sort_values df by_ = Ok df' →
  by_ ∈ columns df ∧ columns df' = columns df ∧ rows df' ≡ₚ rows df ∧
  rows df' = merge_sort (row_le by_) (rows df).
Proof.
  unfold sort_values. intros (s & [Hin _]%getitem_Ok & Hrun)%bind_Ok.
  destruct (comparable s); [|done]. injection Hrun as <-. simpl.
  split_and!; [done|done| |done]. apply merge_sort_Permutation.
Qed.

Section combined.
Context `{FloatSqrt}.

Lemma combined_sorted_Ok base_df dates scenario bs combined :
  combined_sorted base_df dates scenario = Ok (bs, combined) →
  ∃ last_row,
    "date" ∈ columns base_df ∧
    columns bs = columns base_df ∧
    iloc_last bs = Ok last_row ∧
    columns combined = columns base_df ∧
    rows combined ≡ₚ rows bs ++ imap (synth_row last_row scenario) dates.
Proof.
  unfold combined_sorted.
  intros (bs' & Hsort1 & (last_row & Hlast & (cmb & Hsort2 & Heq)%bind_Ok)%bind_Ok)%bind_Ok.
  injection Heq as <- <-.
  apply sort_values_Ok in Hsort1 as (Hdate & Hc1 & _ & _).
  apply sort_values_Ok in Hsort2 as (_ & Hc2 & Hp2 & _).
  exists last_row. split_and!; [done..| |].
  - rewrite Hc2. unfold concat, DataFrame_of_rows; simpl. rewrite Hc1.
    assert (Hnil : ∀ l : list string,
              l = [] ∨ l = columns base_df →
              filter (λ c, c ∉ columns base_df) l = []).
    { intros l [->| ->]; [done|]. apply elem_of_nil_inv.
      intros c [Hn Hin]%list_elem_of_filter. done. }
    rewrite Hnil; [apply app_nil_r|]. destruct (imap _ _); auto.
  - rewrite Hp2. unfold concat, DataFrame_of_rows; simpl. done.
Qed.
End combined.

(** ** The preparer recomputes what the builder computes *)

Lemma derived_from_false cols c :
  derived_from cols c = false ↔
  ∀ c0 φ, c0 ∈ cols → φ ∈ features → c ≠ feature_name c0 φ.
Proof.
  unfold derived_from. split.
  - intros Hd c0 φ Hc0 Hφ ->.
    assert (Ht : existsb (λ c1, existsb (λ φ', String.eqb (feature_name c0 φ)
                   (feature_name c1 φ')) features) cols = true); [|congruence].
    apply existsb_exists. exists c0. split; [by apply list_elem_of_In|].
    apply existsb_exists. exists φ. split; [by apply list_elem_of_In|].
    apply String.eqb_refl.
  - intros Hn. destruct (existsb _ cols) eqn:He; [|done]. exfalso.
    apply existsb_exists in He as (c0 & Hc0 & He).
    apply existsb_exists in He as (φ & Hφ & He).
    apply String.eqb_eq in He. by eapply Hn; [apply list_elem_of_In..|].
Qed.

Lemma getitem_base_projection df c :
  c ∈ columns (base_projection df) → getitem (base_projection df) c = getitem df c.
Proof.
  intros Hc. unfold getitem at 1. rewrite decide_True by done.
  apply list_elem_of_filter in Hc as [_ Hc]. by rewrite (getitem_in df).
Qed.

Lemma target_col_base : is_derived target_col = false.
Proof. reflexivity. Qed.

Lemma Lag_1_feature : Lag 1 ∈ features.
Proof. left. Qed.

Section refinement.
Context `{FloatSqrt}.

Lemma recomputed_unfold base_df dates scenario bs combined :
  combined_sorted base_df dates scenario = Ok (bs, combined) →
  recomputed base_df dates scenario
    = derive combined
        ([target_col] ++ filter (λ c, c ∉ ["date"; target_col]) (columns combined)).
Proof.
  intros Hcs. unfold recomputed. rewrite Hcs. cbn [mbind result_bind].
  destruct (combined_sorted_Ok _ _ _ _ _ Hcs) as (_ & _ & Hc1 & _ & Hc2 & _).
  by rewrite Hc1, Hc2.
Qed.

(** C1. After the synthesized rows are concatenated onto the history and
    the whole is sorted by date, the preparer's lag and rolling columns of
    every base variable are, row for row, the columns the builder's
    feature step gives on the base columns of that combined sequence: the
    features of the combined column itself, whatever the stale derived
    columns of the rows held. *)
Theorem recomputed_matches_builder (base_df : DataFrame) (dates : list Timestamp)
    (scenario : gmap string (list cell)) (bs combined T1 : DataFrame) :
  combined_sorted base_df dates scenario = Ok (bs, combined) →
  recomputed base_df dates scenario = Ok T1 →
  ∃ T2, derive_features (base_projection combined) = Ok T2 ∧
    nrows T1 = nrows combined ∧ nrows T2 = nrows combined ∧
    ∀ var φ, var ∈ columns (base_projection combined) → var ≠ "date" →
      φ ∈ features →
      ∃ s, getitem combined var = Ok s ∧
           getitem T1 (feature_name var φ) = Ok (feature_value φ s) ∧
           getitem T2 (feature_name var φ) = Ok (feature_value φ s).
Proof.
  intros Hcs Hrun. rewrite (recomputed_unfold _ _ _ _ _ Hcs) in Hrun.
  set (L := [target_col] ++ filter (λ c, c ∉ ["date"; target_col]) (columns combined)) in *.
  destruct (derive_spec _ _ _ Hrun) as (Hn1 & _ & _ & Hnew1).
  assert (Htc : target_col ∈ columns combined).
  { apply derive_cons_Ok in Hrun as (s & Hs & _). by apply getitem_Ok in Hs as [? _]. }
  assert (HLc : ∀ v, v ∈ L → v ∈ columns combined).
  { intros v [->%list_elem_of_singleton|Hv]%elem_of_app; [done|].
    by apply list_elem_of_filter in Hv as [_ ?]. }
  assert (HL : ∀ v, v ∈ columns combined → v ≠ "date" → v ∈ L).
  { intros v Hv Hne. destruct (decide (v = target_col)) as [->|Hnt]; [left|].
    right. apply list_elem_of_filter. split; [|done].
    rewrite !elem_of_cons, elem_of_nil. naive_solver. }
  set (P := base_projection combined).
  assert (HP : ∀ v, v ∈ columns P →
            v ∈ columns combined ∧
            ∀ col φ, col ∈ columns combined → φ ∈ features → v ≠ feature_name col φ).
  { intros v [Hb Hv]%list_elem_of_filter. split; [done|].
    apply derived_from_false. by destruct (derived_from _ v). }
  assert (HtP : target_col ∈ columns P).
  { apply list_elem_of_filter. split; [|done].
    assert (derived_from (columns combined) target_col = false) as ->; [|done].
    apply derived_from_false. intros c0 φ _ Hφ.
    apply base_not_feature_name; [apply target_col_base|done]. }
  set (L' := [target_col] ++ filter (λ c, c ∉ ["date"; target_col]) (columns P)).
  assert (HL' : ∀ v, v ∈ L' → v ∈ columns P ∧ v ≠ "date").
  { intros v [->%list_elem_of_singleton|Hv]%elem_of_app; [done|].
    apply list_elem_of_filter in Hv as [Hne Hv]. split; [done|].
    intros ->. apply Hne. left. }
  assert (Hbase : ∀ v, v ∈ columns P → v ≠ "date" →
            v ∈ L ∧ ∀ col φ, col ∈ L → φ ∈ features → v ≠ feature_name col φ).
  { intros v Hv Hne. destruct (HP v Hv) as [Hvc Hvb]. split; [by apply HL|].
    intros col φ Hcol. apply Hvb. by apply HLc. }
  assert (Htot : ∃ T2, derive P L' = Ok T2).
  { apply derive_total. intros v Hv. destruct (HL' v Hv) as [HvP Hne].
    destruct (Hbase v HvP Hne) as [HvL Hvb]. split.
    - intros col φ Hcol. apply (proj2 (HP v HvP)).
      destruct (HL' col Hcol) as [HcP _]. by apply HP.
    - destruct (Hnew1 v (Lag 1) HvL Hvb Lag_1_feature) as (s & Hs & Hnum & _).
      exists s. split; [|done]. unfold P. by rewrite getitem_base_projection. }
  destruct Htot as [T2 Hrun2]. exists T2.
  destruct (derive_spec _ _ _ Hrun2) as (Hn2 & _ & _ & Hnew2).
  split_and!; [done|done|done|].
  intros var φ Hvar Hnd Hφ.
  destruct (Hbase var Hvar Hnd) as [HvL Hvb].
  destruct (Hnew1 var φ HvL Hvb Hφ) as (s & Hs & _ & Hget1).
  exists s. split_and!; [done..|].
  assert (HvL' : var ∈ L').
  { destruct (decide (var = target_col)) as [->|Hnt]; [left|].
    right. apply list_elem_of_filter. split; [|done].
    rewrite !elem_of_cons, elem_of_nil. naive_solver. }
  destruct (Hnew2 var φ HvL') as (s' & Hs' & _ & Hget2); [|done|].
  { intros col φ' Hcol. apply (proj2 (HP var Hvar)).
    destruct (HL' col Hcol) as [HcP _]. by apply HP. }
  unfold P in Hs'. rewrite getitem_base_projection in Hs' by done.
  rewrite Hs in Hs'. injection Hs' as <-. done.
Qed.

(** C10. A scenario may name the target: every synthesized row whose
    index the scenario covers carries the scenario's value as its
    production, and the recomputed lags and rolling statistics of the
    target are those of the combined production column, overridden values
    included: [k] rows below an overridden row, the lag-[k] column holds
    the override. *)
Theorem target_override_reflected (base_df : DataFrame) (dates : list Timestamp)
    (scenario : gmap string (list cell)) (values : list cell)
    (bs combined T1 : DataFrame) :
  combined_sorted base_df dates scenario = Ok (bs, combined) →
  recomputed base_df dates scenario = Ok T1 →
  scenario !! target_col = Some values →
  ∃ last_row s,
    iloc_last bs = Ok last_row ∧
    getitem combined target_col = Ok s ∧
    getitem T1 target_col = Ok s ∧
    (∀ φ, φ ∈ features →
       getitem T1 (feature_name target_col φ) = Ok (feature_value φ s)) ∧
    (∀ idx date v, dates !! idx = Some date → values !! idx = Some v →
       ∃ p, rows combined !! p = Some (synth_row last_row scenario idx date) ∧
            s !! p = Some v ∧
            ∀ k, k ∈ [1; 2; 3; 6; 12] → (p + Z.to_nat k < nrows combined)%nat →
                 iat T1 (p + Z.to_nat k) (lag_name target_col k) = v).
Proof.
  intros Hcs Hrun Hscen. rewrite (recomputed_unfold _ _ _ _ _ Hcs) in Hrun.
  destruct (combined_sorted_Ok _ _ _ _ _ Hcs)
    as (last_row & Hdate & Hcbs & Hlast & Hcols & Hperm).
  destruct (derive_spec _ _ _ Hrun) as (Hn1 & _ & Hframe & Hnew).
  assert (Htb : ∀ (cols : list string) col φ, col ∈ cols → φ ∈ features →
            target_col ≠ feature_name col φ).
  { intros cols col φ _ Hφ. apply base_not_feature_name; [apply target_col_base|done]. }
  destruct (Hnew target_col (Lag 1)) as (s & Hs & _ & _);
    [left|apply Htb|apply Lag_1_feature|].
  exists last_row, s. split_and!; [done|done| | |].
  - rewrite <- Hs. apply Hframe. intros col φ _ Hφ.
    by apply base_not_feature_name.
  - intros φ Hφ. destruct (Hnew target_col φ) as (s' & Hs' & _ & Hget);
      [left|apply Htb|done|].
    rewrite Hs in Hs'. by injection Hs' as <-.
  - intros idx date v Hidx Hv.
    assert (Hin : synth_row last_row scenario idx date ∈ rows combined).
    { rewrite Hperm. apply elem_of_app. right.
      by apply (elem_of_lookup_imap_2 (synth_row last_row scenario)). }
    apply list_elem_of_lookup in Hin as [p Hp]. exists p.
    assert (Htc : target_col ∈ columns bs).
    { rewrite Hcbs, <- Hcols. by apply getitem_Ok in Hs as [? _]. }
    assert (Hat : at_ (synth_row last_row scenario idx date) target_col = v).
    { unfold at_. rewrite synth_row_lookup, Hscen.
      destruct (iloc_last_lookup _ _ target_col Hlast) as (r & _ & Hr).
      rewrite decide_True in Hr by done.
      rewrite decide_True, Hv; [done|]. split; [by eapply lookup_lt_Some|].
      rewrite lookup_insert_ne by done. by eexists. }
    assert (Hsp : s !! p = Some v).
    { apply getitem_Ok in Hs as [_ ->]. rewrite list_lookup_fmap, Hp. simpl.
      by rewrite Hat. }
    split_and!; [done..|].
    intros k Hk Hlt.
    destruct (Hnew target_col (Lag k)) as (s' & Hs' & _ & Hget);
      [left|apply Htb| |].
    { unfold features. apply elem_of_app. left. apply list_elem_of_fmap. by exists k. }
    rewrite Hs in Hs'. injection Hs' as <-.
    pose proof (getitem_length _ _ _ Hs) as Hlen.
    rewrite <- (getitem_iat _ _ _ _ Hget). unfold feature_value.
    rewrite shift_lookup by lia. simpl.
    assert (0 ≤ k) by (rewrite !elem_of_cons, elem_of_nil in Hk; lia).
    rewrite decide_True by lia.
    replace (Z.to_nat (Z.of_nat (p + Z.to_nat k) - k)) with p by lia.
    by rewrite Hsp.
Qed.
End refinement.

(** One requested month after the history, with a price scenario. *)
Lemma recomputed_matches_builder_witness :
  ∃ bs combined T1 T2 s,
    @combined_sorted history_example [month_start 24312]
        {[ "brent_price" := [Num 70] ]} = Ok (bs, combined) ∧
    @recomputed id_sqrt history_example [month_start 24312]
        {[ "brent_price" := [Num 70] ]} = Ok T1 ∧
    @derive_features id_sqrt (base_projection combined) = Ok T2 ∧
    getitem combined "brent_price" = Ok s ∧
    getitem T1 (feature_name "brent_price" (Lag 1))
      = Ok (@feature_value id_sqrt (Lag 1) s) ∧
    getitem T2 (feature_name "brent_price" (Lag 1))
      = Ok (@feature_value id_sqrt (Lag 1) s).
Proof.
  destruct (result_check (@combined_sorted history_example [month_start 24312]
              {[ "brent_price" := [Num 70] ]}) (λ _, true))
    as ([bs combined] & Hcs & _); [vm_compute; reflexivity|].
  destruct (result_check (@recomputed id_sqrt history_example [month_start 24312]
              {[ "brent_price" := [Num 70] ]}) (λ _, true))
    as (T1 & Hrun & _); [vm_compute; reflexivity|].
  destruct (@recomputed_matches_builder id_sqrt _ _ _ bs combined T1 Hcs Hrun)
    as (T2 & HT2 & _ & _ & Hall).
  destruct (combined_sorted_Ok _ _ _ _ _ Hcs) as (_ & _ & _ & _ & Hc & _).
  destruct (Hall "brent_price" (Lag 1)) as (s & Hs & H1 & H2).
  - unfold base_projection; simpl. rewrite Hc. vm_compute. right. right. left.
  - discriminate.
  - left.
  - exists bs, combined, T1, T2, s. repeat split; assumption.
Defined.

(** One requested month after the history, with a production scenario. *)
Lemma target_override_reflected_witness :
  ∃ bs combined T1 last_row s p,
    @combined_sorted history_example [month_start 24312; month_start 24313]
        {[ target_col := [Num 500] ]} = Ok (bs, combined) ∧
    @recomputed id_sqrt history_example [month_start 24312; month_start 24313]
        {[ target_col := [Num 500] ]} = Ok T1 ∧
    rows combined !! p
      = Some (synth_row last_row {[ target_col := [Num 500] ]} 0 (month_start 24312)) ∧
    s !! p = Some (Num 500) ∧
    getitem T1 target_col = Ok s ∧
    ((p + 1 < nrows combined)%nat →
     iat T1 (p + 1) (lag_name target_col 1) = Num 500).
Proof.
  destruct (result_check (@combined_sorted history_example
              [month_start 24312; month_start 24313]
              {[ target_col := [Num 500] ]}) (λ _, true))
    as ([bs combined] & Hcs & _); [vm_compute; reflexivity|].
  destruct (result_check (@recomputed id_sqrt history_example
              [month_start 24312; month_start 24313]
              {[ target_col := [Num 500] ]}) (λ _, true))
    as (T1 & Hrun & _); [vm_compute; reflexivity|].
  destruct (@target_override_reflected id_sqrt _ _ _ [Num 500] bs combined T1 Hcs Hrun)
    as (last_row & s & _ & _ & HT1 & _ & Hrows).
  - reflexivity.
  - destruct (Hrows 0%nat (month_start 24312) (Num 500)) as (p & Hp & Hsp & Hlag);
      [reflexivity|reflexivity|].
    exists bs, combined, T1, last_row, s, p. repeat split; try assumption.
    intros Hlt. apply (Hlag 1); [left|exact Hlt].
Defined.

(** ** Order and number of the predictions *)

(** C2 fails on the code.  Asked for February then January, with the price
    100 for February and 200 for January, [predict] answers January's value
    first.  Asked twice for January with the prices 100 and 200, the two
    rows follow each other in the combined sequence, so the later one takes
    the other's scenario price as its lag, where the same request on its own
    sees the history's price. *)
Theorem predict_loses_request_order :
  @predict id_sqrt first_input_model history_example
      ["2026-02-01"; "2026-01-01"] (Some {[ "brent_price" := [Num 100; Num 200] ]})
    = Ok [200%Q; 100%Q] ∧
  @predict id_sqrt previous_price_model history_example
      ["2026-01-01"; "2026-01-01"] (Some {[ "brent_price" := [Num 100; Num 200] ]})
    = Ok [61%Q; 100%Q] ∧
  @predict id_sqrt previous_price_model history_example
      ["2026-01-01"] (Some {[ "brent_price" := [Num 200] ]})
    = Ok [61%Q].
Proof. split_and!; vm_compute; reflexivity. Qed.

(** ** The [/predict] endpoint *)

(** C3. A request with an empty [dates] list is answered with a client error
    (422, from the validation of the request model), before any model is
    loaded or asked to predict. *)
Theorem predict_rejects_empty_dates `{FloatSqrt} (svc : Service) (req : PredictRequest) :
  dates req = [] →
  ∃ resp, post_predict svc req = ([], resp) ∧
    400 ≤ status resp < 500 ∧ predictions resp = None.
Proof.
  intros Hd. unfold post_predict, validate_PredictRequest. rewrite Hd. simpl.
  eexists. split; [done|]. simpl. split; [lia|done].
Qed.

Lemma predict_rejects_empty_dates_witness :
  ∃ resp,
    @post_predict id_sqrt (mkService (λ _, Ok first_input_model) (Ok history_example))
                  (mkPredictRequest [] None) = ([], resp) ∧
    400 ≤ status resp < 500 ∧ predictions resp = None.
Proof.
  apply (@predict_rejects_empty_dates id_sqrt
           (mkService (λ _, Ok first_input_model) (Ok history_example))
           (mkPredictRequest [] None)).
  reflexivity.
Defined.

(** ** Timestamps in order *)

Lemma ts_ltb_spec a b :
  ts_ltb a b ↔ ts_month a < ts_month b
              ∨ (ts_month a = ts_month b ∧ (ts_offset a < ts_offset b)%N).
Proof.
  unfold ts_ltb. rewrite orb_True, andb_True, !Is_true_true.
  rewrite Z.ltb_lt, Z.eqb_eq, N.ltb_lt. done.
Qed.

Lemma ts_leb_spec a b :
  ts_leb a b ↔ ts_month a < ts_month b
              ∨ (ts_month a = ts_month b ∧ (ts_offset a ≤ ts_offset b)%N).
Proof.
  unfold ts_leb. rewrite orb_True, andb_True, !Is_true_true.
  rewrite Z.ltb_lt, Z.eqb_eq, N.leb_le. done.
Qed.

Lemma ts_ltb_trans a b c : ts_ltb a b → ts_ltb b c → ts_ltb a c.
Proof. rewrite !ts_ltb_spec. lia. Qed.

Lemma ts_leb_ltb_trans a b c : ts_leb a b → ts_ltb b c → ts_ltb a c.
Proof. rewrite ts_leb_spec, !ts_ltb_spec. lia. Qed.

Lemma ts_leb_ne_ltb a b : ts_leb a b → a ≠ b → ts_ltb a b.
Proof.
  rewrite ts_leb_spec, ts_ltb_spec. destruct a as [m o], b as [m' o']; simpl.
  intros Hle Hne.
  destruct (decide (m = m')) as [->|?]; [|lia].
  destruct (decide (o = o')) as [->|?]; [done|lia].
Qed.

Lemma ts_ltb_irrefl a : ¬ ts_ltb a a.
Proof. rewrite ts_ltb_spec. lia. Qed.

Lemma ts_leb_total a b : ts_leb a b ∨ ts_leb b a.
Proof. rewrite !ts_leb_spec. lia. Qed.

Lemma cell_lt_trans c1 c2 c3 : cell_lt c1 c2 → cell_lt c2 c3 → cell_lt c1 c3.
Proof.
  destruct c1, c2, c3; simpl; try done. apply ts_ltb_trans.
Qed.

Lemma cell_leb_total c1 c2 : cell_leb c1 c2 ∨ cell_leb c2 c1.
Proof.
  destruct c1 as [|x|a|s], c2 as [|y|b|t]; simpl; auto.
  - unfold Qle_bool. rewrite !Is_true_true, !Z.leb_le. lia.
  - apply ts_leb_total.
  - destruct (String.leb_total s t) as [->| ->]; auto.
Qed.

Global Instance row_le_total by_ : Total (row_le by_).
Proof. intros r1 r2. apply cell_leb_total. Qed.

Global Instance cell_le_total : Total cell_le.
Proof. intros c1 c2. apply cell_leb_total. Qed.

Lemma StronglySorted_seq j n : StronglySorted lt (seq j n).
Proof.
  revert j. induction n as [|n IH]; intros j; simpl; constructor; [apply IH|].
  apply Forall_seq. intros. lia.
Qed.

Lemma StronglySorted_seqZ m n : StronglySorted Z.lt (seqZ m n).
Proof.
  unfold seqZ. eapply StronglySorted_fmap; [|apply StronglySorted_seq].
  intros x y Hxy. simpl in *. lia.
Qed.

Lemma strictly_ascending_months ms :
  StronglySorted Z.lt ms →
  strictly_ascending ((λ m, Ts (month_start m)) <$> ms).
Proof.
  intros Hs. split.
  - apply Forall_fmap, Forall_forall. by intros m _.
  - eapply StronglySorted_fmap; [|exact Hs].
    intros x y Hxy. simpl. apply ts_ltb_spec. simpl. lia.
Qed.

Lemma strictly_ascending_NoDup l : strictly_ascending l → NoDup l.
Proof.
  intros [_ Hs]. induction Hs as [|c l Hs IH Hall]; constructor; [|done].
  intros Hin. rewrite Forall_forall in Hall. specialize (Hall c Hin).
  destruct c; simpl in Hall; try done. by apply ts_ltb_irrefl in Hall.
Qed.

(** A list of distinct timestamps that is sorted is strictly ascending. *)
Lemma sorted_strictly_ascending l :
  Forall (λ c, is_ts c) l → NoDup l → Sorted cell_le l → strictly_ascending l.
Proof.
  intros Hts Hnd Hs. split; [done|].
  induction l as [|c l IH]; [constructor|].
  apply Forall_cons in Hts as [Hc Hts]. apply NoDup_cons in Hnd as [Hnin Hnd].
  apply Sorted_inv in Hs as [Hs Hhd].
  specialize (IH Hts Hnd Hs). constructor; [done|].
  destruct l as [|c' l]; [constructor|].
  apply HdRel_inv in Hhd. apply StronglySorted_inv in IH as [_ Hall].
  apply Forall_cons in Hts as [Hc' _].
  destruct c as [| |a|]; try done. destruct c' as [| |b|]; try done.
  assert (Hab : ts_ltb a b).
  { apply ts_leb_ne_ltb; [exact Hhd|]. intros ->. apply Hnin. left. }
  constructor; [exact Hab|].
  eapply Forall_impl; [exact Hall|]. intros [| |d|]; simpl; try done.
  by apply ts_ltb_trans.
Qed.

(** ** Rows and labels *)

Lemma at_insert_eq (r : Row) c v : at_ (<[c := v]> r) c = v.
Proof. unfold at_. by rewrite lookup_insert_eq. Qed.

Lemma at_insert_ne (r : Row) c c' v : c ≠ c' → at_ (<[c := v]> r) c' = at_ r c'.
Proof. intros. unfold at_. by rewrite lookup_insert_ne. Qed.

Lemma getitem_date_column df s : getitem df "date" = Ok s → date_column df = s.
Proof. by intros [_ ->]%getitem_Ok. Qed.

(** ** The date column through the builder *)

Lemma month_grid_sorted idx : StronglySorted Z.lt (month_grid idx).
Proof.
  unfold month_grid. destruct (ts_month <$> idx); [constructor|].
  apply StronglySorted_seqZ.
Qed.

Lemma resample_dates df vcols how df' :
  resample_to_month_start df "date" vcols how = Ok df' →
  "date" ∈ columns df' ∧ strictly_ascending (date_column df').
Proof.
  unfold resample_to_month_start.
  intros (dates0 & _ & (dates1 & _ & Hrun)%bind_Ok)%bind_Ok.
  destruct (filter _ vcols); [|done].
  destruct (mapM ts_of dates1) as [idx|]; [|done].
  assert (Hgrid : ∀ (g : Z → Row),
            date_column (mkDF ("date" :: vcols)
                           ((λ m, <["date" := Ts (month_start m)]> (g m)) <$> month_grid idx))
              = (λ m, Ts (month_start m)) <$> month_grid idx).
  { intros g. unfold date_column; simpl. rewrite <- list_fmap_compose.
    apply list_fmap_ext. intros _ m _. simpl. apply at_insert_eq. }
  destruct (decide (how = "ffill")).
  - destruct (decide (NoDup idx)); [|done]. injection Hrun as <-.
    split; [left|]. rewrite Hgrid.
    apply strictly_ascending_months, month_grid_sorted.
  - apply bind_Ok in Hrun as (f & _ & Hrun).
    destruct (forallb _ vcols); [|done]. injection Hrun as <-.
    split; [left|]. rewrite Hgrid.
    apply strictly_ascending_months, month_grid_sorted.
Qed.

Lemma groupby_sum_dates df cols prefix df' :
  groupby_sum df "date" cols prefix = Ok df' →
  "date" ∈ columns df' ∧ NoDup (date_column df').
Proof.
  unfold groupby_sum. intros (keys & _ & Hrun)%bind_Ok.
  destruct (comparable _); [|done]. injection Hrun as <-. split; [left|].
  unfold date_column; simpl. rewrite <- list_fmap_compose.
  erewrite list_fmap_ext; [rewrite list_fmap_id|].
  - rewrite merge_sort_Permutation. apply NoDup_remove_dups.
  - intros _ k _. simpl. apply at_insert_eq.
Qed.

Lemma left_label_date left right c :
  left_label left right "date" c = "date" ↔ c = "date".
Proof.
  unfold left_label, shared_label. split.
  - case_bool_decide as Hs; [|done]. intros Heq. exfalso.
    assert (Hends : ends_with "_x" (c +:+ "_x") = true) by apply ends_with_app.
    rewrite Heq in Hends. discriminate Hends.
  - intros ->. rewrite bool_decide_eq_false_2; [done|]. intros [? _]. done.
Qed.

Lemma join_rows_date left right l r :
  "date" ∈ columns left → at_ (join_rows left right "date" l r) "date" = at_ l "date".
Proof.
  unfold join_rows. induction (columns left) as [|c cs IH]; intros Hin.
  { by apply elem_of_nil in Hin. }
  simpl. destruct (decide (c = "date")) as [->|Hne].
  - rewrite (proj2 (left_label_date left right "date")) by done. apply at_insert_eq.
  - rewrite at_insert_ne.
    + apply IH. apply elem_of_cons in Hin as [?|?]; [congruence|done].
    + rewrite left_label_date. done.
Qed.

Lemma filter_key_NoDup {A} `{EqDecision B} (key : A → B) (rs : list A) k :
  NoDup (key <$> rs) → (length (filter (λ r, key r = k) rs) ≤ 1)%nat.
Proof.
  induction rs as [|r rs IH]; intros Hnd; [simpl; lia|].
  rewrite fmap_cons in Hnd. apply NoDup_cons in Hnd as [Hnin Hnd].
  rewrite filter_cons. destruct (decide (key r = k)) as [<-|?]; [|by apply IH].
  simpl. assert (filter (λ r', key r' = key r) rs = []) as ->; [|simpl; lia].
  apply elem_of_nil_inv. intros r' [Heq Hin]%list_elem_of_filter.
  apply Hnin. rewrite <- Heq. apply list_elem_of_fmap. by exists r'.
Qed.

Lemma merge_left_dates left right df :
  merge_left left right "date" = Ok df → NoDup (date_column right) →
  "date" ∈ columns df ∧ date_column df = date_column left.
Proof.
  unfold merge_left.
  intros (? & [Hdl _]%getitem_Ok & (? & _ & Hrun)%bind_Ok)%bind_Ok Hnd.
  injection Hrun as <-. split.
  - simpl. apply elem_of_app. left. apply list_elem_of_fmap.
    exists "date". split; [|done]. symmetry. by apply left_label_date.
  - unfold date_column; simpl. induction (rows left) as [|l ls IH]; [done|].
    rewrite bind_cons, fmap_app, IH, fmap_cons. clear IH.
    pose proof (filter_key_NoDup (λ r : Row, at_ r "date") (rows right)
                  (at_ l "date") Hnd) as Hlen.
    destruct (filter _ (rows right)) as [|r [|r' rs]]; simpl in *; [| |lia].
    + by rewrite join_rows_date.
    + by rewrite join_rows_date.
Qed.

Lemma sort_values_dates df df' :
  sort_values df "date" = Ok df' → strictly_ascending (date_column df) →
  "date" ∈ columns df' ∧ strictly_ascending (date_column df').
Proof.
  intros (Hin & Hc & Hperm & Hrows)%sort_values_Ok Hasc.
  split; [by rewrite Hc|].
  assert (Hp : date_column df' ≡ₚ date_column df).
  { unfold date_column. by rewrite Hperm. }
  apply sorted_strictly_ascending.
  - rewrite Hp. apply Hasc.
  - rewrite Hp. by apply strictly_ascending_NoDup.
  - unfold date_column. rewrite Hrows.
    eapply Sorted_fmap; [|apply (Sorted_merge_sort (row_le "date"))].
    intros r1 r2 Hle. exact Hle.
Qed.

Lemma fill_row_notna cols prev r c :
  notna (at_ r c) → at_ (fill_row cols prev r) c = at_ r c.
Proof.
  intros Hc. unfold fill_row. induction cols as [|c' cols IH]; [done|].
  simpl. destruct (notna (at_ r c')) eqn:Hc'; [done|].
  rewrite at_insert_ne; [done|]. intros ->. by rewrite Hc' in Hc.
Qed.

Lemma ffill_dates df :
  Forall (λ c, is_ts c) (date_column df) → date_column (ffill df) = date_column df.
Proof.
  unfold date_column, ffill; simpl. generalize (∅ : Row).
  induction (rows df) as [|r rs IH]; intros prev Hts; [done|].
  rewrite fmap_cons in Hts. apply Forall_cons in Hts as [Hr Hts].
  cbn [ffill_rows]. rewrite !fmap_cons. f_equal; [|by apply IH].
  apply fill_row_notna. by destruct (at_ r "date").
Qed.

Lemma date_not_feature_name col φ : φ ∈ features → "date" ≠ feature_name col φ.
Proof. intros Hφ. by apply base_not_feature_name. Qed.

Lemma derive_features_dates `{FloatSqrt} df df' :
  derive_features df = Ok df' → "date" ∈ columns df →
  "date" ∈ columns df' ∧ date_column df' = date_column df.
Proof.
  unfold derive_features. intros Hrun Hin.
  destruct (derive_spec _ _ _ Hrun) as (_ & Hcols & Hframe & _).
  split; [by apply Hcols|].
  assert (Hget : getitem df' "date" = getitem df "date").
  { apply Hframe. intros col φ _ Hφ. by apply date_not_feature_name. }
  rewrite (getitem_in df) in Hget by done.
  by apply getitem_date_column in Hget.
Qed.

Lemma StronglySorted_fmap_filter {A B} (R : relation B) (f : A → B)
    (P : A → Prop) `{∀ x, Decision (P x)} (l : list A) :
  StronglySorted R (f <$> l) → StronglySorted R (f <$> filter P l).
Proof.
  induction l as [|x l IH]; intros Hs; [done|].
  rewrite fmap_cons in Hs. apply StronglySorted_inv in Hs as [Hs Hall].
  rewrite filter_cons. destruct (decide (P x)); [|by apply IH].
  rewrite fmap_cons. constructor; [by apply IH|].
  rewrite Forall_fmap in Hall |- *. rewrite Forall_forall in Hall |- *.
  intros y [_ Hy]%list_elem_of_filter. by apply Hall.
Qed.

Lemma dropna_dates df :
  strictly_ascending (date_column df) → strictly_ascending (date_column (dropna df)).
Proof.
  intros [Hts Hs]. unfold date_column, dropna in *; simpl. split.
  - rewrite Forall_fmap in Hts |- *. rewrite Forall_forall in Hts |- *.
    intros r [_ Hr]%list_elem_of_filter. by apply Hts.
  - by apply StronglySorted_fmap_filter.
Qed.

Lemma dropna_notna df r c :
  r ∈ rows (dropna df) → c ∈ columns (dropna df) → at_ r c ≠ NaN.
Proof.
  unfold dropna; simpl. intros [Hr _]%list_elem_of_filter Hc Hnan.
  unfold row_notna in Hr. apply Is_true_true in Hr.
  rewrite forallb_forall in Hr. specialize (Hr c).
  rewrite Hnan in Hr. apply list_elem_of_In in Hc. by specialize (Hr Hc).
Qed.

Section builder_dates.
Context `{FloatSqrt}.

Lemma load_required_dates src world_df renew_df saudi_df :
  load_required src = Ok (world_df, renew_df, saudi_df) →
  NoDup (date_column world_df) ∧ NoDup (date_column renew_df) ∧
  "date" ∈ columns saudi_df ∧ strictly_ascending (date_column saudi_df).
Proof.
  unfold load_required.
  intros (w0 & _ & (w & Hw & (r0 & _ & (r & Hr & (s0 & _ & (s1 & _ &
           (s & Hs & Heq)%bind_Ok)%bind_Ok)%bind_Ok)%bind_Ok)%bind_Ok)%bind_Ok)%bind_Ok.
  injection Heq as <- <- <-.
  apply groupby_sum_dates in Hw as [_ Hw]. apply groupby_sum_dates in Hr as [_ Hr].
  apply resample_dates in Hs as [? ?]. done.
Qed.

Lemma prepare_brent_dates raw brent_df :
  prepare_brent raw = Ok brent_df → NoDup (date_column brent_df).
Proof.
  unfold prepare_brent.
  intros (? & _ & (? & _ & (? & _ & (? & _ & (? & _ & Hrun)%bind_Ok)%bind_Ok)%bind_Ok)%bind_Ok)%bind_Ok.
  apply resample_dates in Hrun as [_ Hasc]. by apply strictly_ascending_NoDup.
Qed.

Lemma brent_placeholder_dates saudi_df brent_df :
  brent_placeholder saudi_df = Ok brent_df →
  date_column brent_df = date_column saudi_df.
Proof.
  unfold brent_placeholder, select. intros (b & Hsel & Heq)%bind_Ok.
  destruct (filter _ ["date"]); [|done]. injection Hsel as <-.
  injection Heq as <-. unfold date_column.
  rewrite rows_setitem_fmap; [done| |].
  - by rewrite length_replicate.
  - intros r v. by apply at_insert_ne.
Qed.

Lemma assemble_dates world_df renew_df saudi_df brent_df df :
  assemble world_df renew_df saudi_df brent_df = Ok df →
  NoDup (date_column world_df) → NoDup (date_column renew_df) →
  NoDup (date_column brent_df) →
  strictly_ascending (date_column saudi_df) →
  (∀ r c, r ∈ rows df → c ∈ columns df → at_ r c ≠ NaN) ∧
  strictly_ascending (date_column df).
Proof.
  unfold assemble.
  intros (d1 & Hm1 & (d2 & Hm2 & (d3 & Hm3 & (d4 & Hsort & (d5 & Hder & Heq)%bind_Ok)%bind_Ok)%bind_Ok)%bind_Ok)%bind_Ok
    Hw Hr Hb Hs.
  injection Heq as <-.
  apply merge_left_dates in Hm1 as [Hin1 Hd1]; [|done].
  apply merge_left_dates in Hm2 as [Hin2 Hd2]; [|done].
  apply merge_left_dates in Hm3 as [Hin3 Hd3]; [|done].
  rewrite <- Hd1, <- Hd2, <- Hd3 in Hs.
  apply sort_values_dates in Hsort as [Hin4 Hs4]; [|done].
  apply derive_features_dates in Hder as [Hin5 Hd5]; [|done].
  rewrite ffill_dates in Hd5 by apply Hs4.
  split.
  - intros r c. apply dropna_notna.
  - apply dropna_dates. by rewrite Hd5.
Qed.

(** C6. Whatever the sources hold, a feature matrix the builder produces
    has no missing value in any column of any row it keeps, and its date
    column is strictly ascending, so no date repeats. *)
Theorem build_features_invariants (src : Sources) (log : list log_record)
    (df : DataFrame) :
  build_features src = (log, Ok df) →
  (∀ r c, r ∈ rows df → c ∈ columns df → at_ r c ≠ NaN) ∧
  strictly_ascending (date_column df) ∧
  NoDup (date_column df).
Proof.
  unfold build_features. intros Hrun.
  destruct (load_required src) as [[[world_df renew_df] saudi_df]|e] eqn:Hload;
    [|by injection Hrun].
  apply load_required_dates in Hload as (Hw & Hr & Hsd & Hs).
  assert (Hgoal : ∀ brent_df,
            NoDup (date_column brent_df) →
            assemble world_df renew_df saudi_df brent_df = Ok df →
            (∀ r c, r ∈ rows df → c ∈ columns df → at_ r c ≠ NaN) ∧
            strictly_ascending (date_column df) ∧ NoDup (date_column df)).
  { intros b Hb Hasm.
    destruct (assemble_dates _ _ _ _ _ Hasm Hw Hr Hb Hs) as [Hna Hasc].
    split_and!; [done|done|by apply strictly_ascending_NoDup]. }
  destruct (brent_raw src ≫= prepare_brent) as [b|exc] eqn:Hbrent.
  - apply bind_Ok in Hbrent as (raw & _ & Hb). apply prepare_brent_dates in Hb.
    cbn [mbind result_bind] in Hrun.
    destruct (assemble world_df renew_df saudi_df b) eqn:Hasm; [|by injection Hrun].
    injection Hrun as _ <-. by eapply Hgoal.
  - destruct (brent_placeholder saudi_df) as [b|e] eqn:Hph;
      cbn [mbind result_bind] in Hrun; [|by injection Hrun].
    destruct (assemble world_df renew_df saudi_df b) eqn:Hasm; [|by injection Hrun].
    injection Hrun as _ <-. eapply Hgoal; [|done].
    rewrite (brent_placeholder_dates _ _ Hph). by apply strictly_ascending_NoDup.
Qed.
End builder_dates.

(** The example sources: the matrix keeps one row, January 2001. *)
Lemma build_features_invariants_witness :
  ∃ log df, @build_features id_sqrt sources_example = (log, Ok df) ∧
    date_column df = [jan 2001] ∧
    (∀ r c, r ∈ rows df → c ∈ columns df → at_ r c ≠ NaN) ∧
    strictly_ascending (date_column df) ∧ NoDup (date_column df).
Proof.
  pose proof (surjective_pairing (@build_features id_sqrt sources_example)) as Hrun.
  destruct (result_check (@build_features id_sqrt sources_example).2
              (λ d, bool_decide (date_column d = [jan 2001])))
    as (df & Hdf & Hdates); [vm_compute; reflexivity|].
  rewrite Hdf in Hrun. eexists _, df. split; [exact Hrun|]. split.
  - by apply bool_decide_eq_true in Hdates.
  - exact (@build_features_invariants id_sqrt sources_example _ df Hrun).
Defined.

(** ** The builder without the Brent source *)

Lemma groupby_sum_shape df cols prefix df' :
  groupby_sum df "date" cols prefix = Ok df' →
  columns df' = "date" :: ((λ c, prefix +:+ c) <$> cols) ∧
  (∀ r c, r ∈ rows df' → c ≠ "date" → is_numeric_cell (at_ r c)).
Proof.
  unfold groupby_sum. intros (keys & _ & Hrun)%bind_Ok.
  destruct (comparable _); [|done]. injection Hrun as <-. split; [done|].
  simpl. intros r c (k & -> & _)%list_elem_of_fmap Hc.
  rewrite at_insert_ne by done. unfold at_.
  destruct (list_to_map _ !! c) as [v|] eqn:Hv; [|done].
  apply elem_of_list_to_map_2 in Hv.
  by apply list_elem_of_fmap in Hv as (c' & [= -> ->] & _).
Qed.

Lemma resample_columns df vcols how df' :
  resample_to_month_start df "date" vcols how = Ok df' →
  columns df' = "date" :: vcols.
Proof.
  unfold resample_to_month_start.
  intros (dates0 & _ & (dates1 & _ & Hrun)%bind_Ok)%bind_Ok.
  destruct (filter _ vcols); [|done].
  destruct (mapM ts_of dates1) as [idx|]; [|done].
  destruct (decide (how = "ffill")).
  - destruct (decide (NoDup idx)); [|done]. by injection Hrun as <-.
  - apply bind_Ok in Hrun as (f & _ & Hrun).
    destruct (forallb _ vcols); [|done]. by injection Hrun as <-.
Qed.

Lemma zip_with_replicate {A B C} (f : A → B → C) (l : list A) (v : B) :
  zip_with f l (replicate (length l) v) = (λ x, f x v) <$> l.
Proof. induction l as [|x l IH]; [done|]. simpl. by rewrite IH. Qed.

Lemma brent_placeholder_shape saudi_df :
  "date" ∈ columns saudi_df →
  brent_placeholder saudi_df
    = Ok (mkDF ["date"; "brent_price"]
               ((λ r, <["brent_price" := Num 0]> r) <$> rows saudi_df)).
Proof.
  intros Hd. unfold brent_placeholder, select.
  rewrite filter_cons. destruct (decide ("date" ∉ columns saudi_df)); [done|].
  rewrite filter_nil. cbn [mbind result_bind]. unfold setitem, nrows; simpl.
  by rewrite zip_with_replicate.
Qed.

(** *** Labels through a merge *)

Lemma left_label_inv left right on c c' :
  ends_with "_x" c = false → left_label left right on c' = c →
  c' = c ∧ shared_label left right on c' = false.
Proof.
  unfold left_label. intros Hx. destruct (shared_label left right on c'); [|done].
  intros <-. by rewrite ends_with_app in Hx.
Qed.

Lemma right_label_inv left right on c c' :
  ends_with "_y" c = false → right_label left right on c' = c →
  c' = c ∧ shared_label left right on c' = false.
Proof.
  unfold right_label. intros Hy. destruct (shared_label left right on c'); [|done].
  intros <-. by rewrite ends_with_app in Hy.
Qed.

Lemma shared_label_false left right on c :
  c ∉ columns right → shared_label left right on c = false.
Proof. intros Hc. unfold shared_label. apply bool_decide_eq_false_2. tauto. Qed.

Lemma shared_label_false_l left right on c :
  c ∉ columns left → shared_label left right on c = false.
Proof. intros Hc. unfold shared_label. apply bool_decide_eq_false_2. tauto. Qed.

(** A left column that the right side does not have keeps its name and its cells. *)
Lemma join_rows_left left right on l r c :
  c ∈ columns left → c ∉ columns right → ends_with "_x" c = false →
  at_ (join_rows left right on l r) c = at_ l c.
Proof.
  intros Hin Hnr Hx. unfold join_rows.
  induction (columns left) as [|c' cs IH]; [by apply elem_of_nil in Hin|].
  simpl. destruct (decide (left_label left right on c' = c)) as [Heq|Hne].
  - apply left_label_inv in Heq as [-> _]; [|done].
    unfold left_label. rewrite shared_label_false by done. apply at_insert_eq.
  - rewrite at_insert_ne by done. apply IH.
    apply elem_of_cons in Hin as [->|?]; [|done].
    destruct Hne. unfold left_label. by rewrite shared_label_false.
Qed.

(** A right column that the left side does not have keeps its name and its cells. *)
Lemma join_rows_right left right on l r c :
  c ∈ right_columns right on → c ∉ columns left →
  ends_with "_x" c = false → ends_with "_y" c = false →
  at_ (join_rows left right on l r) c = at_ r c.
Proof.
  intros Hin Hnl Hx Hy. unfold join_rows.
  assert (Hbase : at_ (list_to_map ((λ c0, (right_label left right on c0, at_ r c0))
                          <$> right_columns right on) : Row) c = at_ r c).
  { unfold at_ at 1. erewrite elem_of_list_to_map_1'; [done| |].
    - intros y (c0 & [= Hl ->] & _)%list_elem_of_fmap. symmetry in Hl.
      by apply right_label_inv in Hl as [-> _].
    - apply list_elem_of_fmap. exists c. split; [|done].
      unfold right_label. by rewrite shared_label_false_l. }
  induction (columns left) as [|c' cs IH]; [done|].
  simpl. rewrite not_elem_of_cons in Hnl. destruct Hnl as [Hne Hnl].
  rewrite at_insert_ne; [by apply IH|].
  intros Heq. apply left_label_inv in Heq as [-> _]; done.
Qed.

(** Every cell of a joined row is a cell of one of the two rows, or missing. *)
Lemma join_rows_numeric left right on l r c :
  (∀ c', c' ∈ columns left → c' ≠ on → is_numeric_cell (at_ l c')) →
  (∀ c', c' ∈ columns right → c' ≠ on → is_numeric_cell (at_ r c')) →
  (on ∈ columns left → c ≠ on) →
  ends_with "_x" on = false →
  is_numeric_cell (at_ (join_rows left right on l r) c).
Proof.
  intros Hl Hr Hc Hx. unfold join_rows.
  assert (Hbase : is_numeric_cell
            (at_ (list_to_map ((λ c0, (right_label left right on c0, at_ r c0))
                    <$> right_columns right on) : Row) c)).
  { unfold at_. destruct (list_to_map _ !! c) as [v|] eqn:Hv; [|done].
    apply elem_of_list_to_map_2 in Hv.
    apply list_elem_of_fmap in Hv as (c0 & [= -> ->] & Hc0).
    unfold right_columns in Hc0. apply list_elem_of_filter in Hc0 as [? ?].
    by apply Hr. }
  revert Hl Hc. induction (columns left) as [|c' cs IH]; intros Hl Hc; [done|].
  simpl. destruct (decide (left_label left right on c' = c)) as [<-|Hne].
  - rewrite at_insert_eq. apply Hl; [left|].
    intros ->. apply Hc; [left|].
    unfold left_label, shared_label.
    rewrite bool_decide_eq_false_2; [done|]. intros [? _]. done.
  - rewrite at_insert_ne by done. apply IH.
    + intros c0 Hc0. apply Hl. by right.
    + intros Hon. apply Hc. by right.
Qed.

Lemma merge_left_rows left right on df :
  merge_left left right on = Ok df →
  on ∈ columns left ∧ on ∈ columns right ∧
  columns df = (left_label left right on <$> columns left)
                 ++ (right_label left right on <$> right_columns right on) ∧
  ∀ r', r' ∈ rows df →
    ∃ l r, l ∈ rows left ∧ r' = join_rows left right on l r ∧
           ((r ∈ rows right ∧ at_ r on = at_ l on) ∨
            (r = ∅ ∧ ∀ r0, r0 ∈ rows right → at_ r0 on ≠ at_ l on)).
Proof.
  unfold merge_left.
  intros (? & [Hl _]%getitem_Ok & (? & [Hr _]%getitem_Ok & Hrun)%bind_Ok)%bind_Ok.
  injection Hrun as <-. split_and!; [done..|]. simpl.
  intros r' (l & Hr' & Hlin)%list_elem_of_bind.
  destruct (filter _ (rows right)) as [|r0 rs] eqn:Hf.
  - apply list_elem_of_singleton in Hr' as ->. exists l, ∅.
    split_and!; [done..|]. right. split; [done|].
    intros r1 Hr1 Heq.
    assert (Hin : r1 ∈ filter (λ r, at_ r on = at_ l on) (rows right))
      by (by apply list_elem_of_filter).
    rewrite Hf in Hin. by apply elem_of_nil in Hin.
  - change (r' ∈ join_rows left right on l <$> (r0 :: rs)) in Hr'.
    apply list_elem_of_fmap in Hr' as (r & -> & Hrin).
    exists l, r. split_and!; [done..|]. left.
    rewrite <- Hf in Hrin. by apply list_elem_of_filter in Hrin as [? ?].
Qed.

Lemma merge_left_total left right on :
  on ∈ columns left → on ∈ columns right → ∃ df, merge_left left right on = Ok df.
Proof.
  intros Hl Hr. unfold merge_left. rewrite !getitem_in by done. by eexists.
Qed.

Lemma merge_left_numeric left right df :
  merge_left left right "date" = Ok df →
  numeric_rows left → numeric_rows right → numeric_rows df.
Proof.
  intros (Hl & Hr & _ & Hrows)%merge_left_rows Hnl Hnr r' c Hr' _ Hc.
  destruct (Hrows r' Hr') as (l & r & Hlin & -> & Hrin).
  apply join_rows_numeric; [by intros; apply Hnl| |done|done].
  intros c' Hc' Hne. destruct Hrin as [[Hrin _]|[-> _]]; [by apply Hnr|done].
Qed.

(** A left column the right side lacks is a column of the merge, with the cells it had. *)
Lemma merge_left_keeps left right df c (P : cell → Prop) :
  merge_left left right "date" = Ok df →
  c ∈ columns left → c ∉ columns right → ends_with "_x" c = false →
  (∀ l, l ∈ rows left → P (at_ l c)) →
  c ∈ columns df ∧ ∀ r', r' ∈ rows df → P (at_ r' c).
Proof.
  intros (_ & _ & Hcols & Hrows)%merge_left_rows Hin Hnr Hx HP. split.
  - rewrite Hcols. apply elem_of_app. left. apply list_elem_of_fmap.
    exists c. split; [|done]. unfold left_label. by rewrite shared_label_false.
  - intros r' Hr'. destruct (Hrows r' Hr') as (l & r & Hlin & -> & _).
    rewrite join_rows_left by done. by apply HP.
Qed.


(** The first merge, against the placeholder: every production row finds
    its month, and takes the zero. *)
Lemma merge_placeholder saudi_df d1 :
  columns saudi_df = ["date"; target_col] →
  merge_left saudi_df
      (mkDF ["date"; "brent_price"]
            ((λ r, <["brent_price" := Num 0]> r) <$> rows saudi_df)) "date" = Ok d1 →
  "brent_price" ∈ columns d1 ∧ ∀ r', r' ∈ rows d1 → at_ r' "brent_price" = Num 0.
Proof.
  intros Hcols (_ & _ & Hc1 & Hrows)%merge_left_rows.
  set (b := mkDF ["date"; "brent_price"] _) in *.
  assert (Hnl : "brent_price" ∉ columns saudi_df).
  { rewrite Hcols. unfold target_col. set_solver. }
  assert (Hrc : "brent_price" ∈ right_columns b "date").
  { unfold right_columns, b; simpl. apply list_elem_of_filter. split; [done|].
    right. left. }
  split.
  - rewrite Hc1. apply elem_of_app. right. apply list_elem_of_fmap.
    exists "brent_price". split; [|done].
    unfold right_label. by rewrite shared_label_false_l.
  - intros r' Hr'. destruct (Hrows r' Hr') as (l & r & Hlin & -> & Hr).
    rewrite join_rows_right by done.
    destruct Hr as [[Hrin _]|[_ Hno]].
    + unfold b in Hrin; simpl in Hrin.
      apply list_elem_of_fmap in Hrin as (l0 & -> & _). apply at_insert_eq.
    + exfalso. apply (Hno (<["brent_price" := Num 0]> l)).
      * unfold b; simpl. apply list_elem_of_fmap. by exists l.
      * by apply at_insert_ne.
Qed.

(** *** Sorting and filling keep what the merge built *)

Lemma comparable_ts (s : list cell) : Forall (λ c, is_ts c) s → comparable s = true.
Proof.
  intros Hts. unfold comparable. apply forallb_forall. intros c1 Hc1.
  apply forallb_forall. intros c2 Hc2.
  rewrite Forall_forall in Hts.
  pose proof (Hts c1 (proj2 (list_elem_of_In _ _) Hc1)).
  pose proof (Hts c2 (proj2 (list_elem_of_In _ _) Hc2)).
  by destruct c1, c2.
Qed.

Lemma sort_values_total df :
  "date" ∈ columns df → Forall (λ c, is_ts c) (date_column df) →
  ∃ df', sort_values df "date" = Ok df'.
Proof.
  intros Hin Hts. unfold sort_values. rewrite getitem_in by done.
  cbn [mbind result_bind]. fold (date_column df). rewrite comparable_ts by done.
  by eexists.
Qed.

Lemma fill_row_cases cols prev r c :
  at_ (fill_row cols prev r) c = at_ r c
  ∨ (c ∈ cols ∧ at_ (fill_row cols prev r) c = at_ prev c).
Proof.
  unfold fill_row. induction cols as [|c' cols IH]; [by left|].
  simpl. destruct (notna (at_ r c')).
  - destruct IH as [?|[? ?]]; [by left|]. right. split; [by right|done].
  - destruct (decide (c' = c)) as [->|Hne].
    + right. split; [left|apply at_insert_eq].
    + rewrite at_insert_ne by done.
      destruct IH as [?|[? ?]]; [by left|]. right. split; [by right|done].
Qed.

Lemma ffill_rows_Forall (P : Row → Prop) cols prev rs :
  (∀ prev r, P prev → P r → P (fill_row cols prev r)) →
  P prev → Forall P rs → Forall P (ffill_rows cols prev rs).
Proof.
  intros Hfill. revert prev. induction rs as [|r rs IH]; intros prev Hp Hrs; [done|].
  apply Forall_cons in Hrs as [Hr Hrs]. cbn [ffill_rows].
  apply Forall_cons. split; [by apply Hfill|]. apply IH; [|done]. by apply Hfill.
Qed.

Lemma ffill_numeric df : numeric_rows df → numeric_rows (ffill df).
Proof.
  intros Hn. unfold numeric_rows, ffill; simpl.
  assert (Hall : Forall (λ r, ∀ c, c ∈ columns df → c ≠ "date" →
                           is_numeric_cell (at_ r c))
                   (ffill_rows (columns df) ∅ (rows df))).
  { apply ffill_rows_Forall.
    - intros prev r Hp Hr c Hc Hne.
      destruct (fill_row_cases (columns df) prev r c) as [->|[_ ->]]; auto.
    - intros c _ _. done.
    - apply Forall_forall. intros r Hr c Hc Hne. by apply Hn. }
  rewrite Forall_forall in Hall. intros r c Hr. by apply Hall.
Qed.

Lemma ffill_keeps df c v :
  v ≠ NaN → (∀ r, r ∈ rows df → at_ r c = v) →
  ∀ r, r ∈ rows (ffill df) → at_ r c = v.
Proof.
  intros Hv Hall. unfold ffill; simpl.
  assert (Hf : Forall (λ r, at_ r c = v) (ffill_rows (columns df) ∅ (rows df))).
  { generalize (∅ : Row). induction (rows df) as [|r rs IH]; intros prev; [done|].
    cbn [ffill_rows]. apply Forall_cons. split.
    - rewrite fill_row_notna; [apply Hall; left|].
      rewrite (Hall r) by left. by destruct v.
    - apply IH. intros r0 Hr0. apply Hall. by right. }
  rewrite Forall_forall in Hf. exact Hf.
Qed.

Lemma numeric_rows_getitem df c s :
  numeric_rows df → c ≠ "date" → getitem df c = Ok s → forallb is_numeric_cell s.
Proof.
  intros Hn Hc [Hin ->]%getitem_Ok. apply Is_true_true, forallb_forall.
  intros x (r & -> & Hr)%list_elem_of_In%list_elem_of_fmap.
  apply Is_true_true. by apply Hn.
Qed.

Lemma sort_values_keeps df df' (P : Row → Prop) :
  sort_values df "date" = Ok df' →
  (∀ r, r ∈ rows df → P r) → ∀ r, r ∈ rows df' → P r.
Proof.
  intros (_ & _ & Hperm & _)%sort_values_Ok HP r Hr. apply HP. by rewrite <- Hperm.
Qed.

Section placeholder.
Context `{FloatSqrt}.

(** The loop runs through on a frame whose columns, the date apart, are numeric. *)
Lemma derive_total_numeric cols df :
  (∀ c s, c ≠ "date" → getitem df c = Ok s → forallb is_numeric_cell s) →
  (∀ v, v ∈ cols → v ∈ columns df ∧ v ≠ "date") →
  ∃ df', derive df cols = Ok df'.
Proof.
  revert df. induction cols as [|col cols IH]; intros df Hnum Hcols; [by eexists|].
  destruct (Hcols col) as [Hin Hne]; [left|].
  pose proof (getitem_in _ _ Hin) as Hs. set (s := _ <$> rows df) in Hs.
  pose proof (Hnum col s Hne Hs) as Hsnum.
  rewrite (derive_cons_run _ _ _ s) by done.
  destruct (write_features df col s features Hs features_supported)
    as (_ & _ & Hc2 & Hnew & Hframe).
  apply IH.
  - intros c s' Hc Hget.
    destruct (decide (c ∈ feature_name col <$> features)) as [Hf|Hf].
    + apply list_elem_of_fmap in Hf as (φ & -> & Hφ).
      rewrite (Hnew φ Hφ) in Hget. injection Hget as <-.
      apply numeric_feature_value; [|done].
      pose proof features_supported as Hsup. rewrite Forall_forall in Hsup. auto.
    + rewrite Hframe in Hget; [by eapply Hnum|].
      intros φ Hφ ->. apply Hf. apply list_elem_of_fmap. by exists φ.
  - intros v Hv. destruct (Hcols v) as [? ?]; [by right|].
    split; [|done]. apply Hc2. by left.
Qed.

Lemma load_required_shape src world_df renew_df saudi_df :
  load_required src = Ok (world_df, renew_df, saudi_df) →
  columns saudi_df = ["date"; target_col] ∧
  (∃ cs, columns world_df = "date" :: ((λ c, "world_" +:+ c) <$> cs)) ∧
  (∃ cs, columns renew_df = "date" :: ((λ c, "renewables_" +:+ c) <$> cs)) ∧
  numeric_rows world_df ∧ numeric_rows renew_df.
Proof.
  unfold load_required.
  intros (w0 & _ & (w & Hw & (r0 & _ & (r & Hr & (s0 & _ & (s1 & _ &
           (s & Hs & Heq)%bind_Ok)%bind_Ok)%bind_Ok)%bind_Ok)%bind_Ok)%bind_Ok)%bind_Ok.
  injection Heq as <- <- <-.
  apply groupby_sum_shape in Hw as [Hwc Hwn].
  apply groupby_sum_shape in Hr as [Hrc Hrn].
  apply resample_columns in Hs.
  split_and!; [done|by eexists|by eexists| |].
  - intros r' c Hr' _ Hc. by apply Hwn.
  - intros r' c Hr' _ Hc. by apply Hrn.
Qed.

(** The assembly on the placeholder runs through, and keeps the zeros. *)
Lemma assemble_placeholder world_df renew_df saudi_df :
  columns saudi_df = ["date"; target_col] →
  (∃ cs, columns world_df = "date" :: ((λ c, "world_" +:+ c) <$> cs)) →
  (∃ cs, columns renew_df = "date" :: ((λ c, "renewables_" +:+ c) <$> cs)) →
  numeric_rows world_df → numeric_rows renew_df →
  NoDup (date_column world_df) → NoDup (date_column renew_df) →
  strictly_ascending (date_column saudi_df) →
  (∀ r, r ∈ rows saudi_df → is_numeric_cell (at_ r target_col)) →
  ∃ df,
    assemble world_df renew_df saudi_df
      (mkDF ["date"; "brent_price"]
            ((λ r, <["brent_price" := Num 0]> r) <$> rows saudi_df)) = Ok df ∧
    "brent_price" ∈ columns df ∧
    (∀ r, r ∈ rows df → at_ r "brent_price" = Num 0) ∧
    (∀ c, c ∈ date_column df → c ∈ date_column saudi_df).
Proof.
  intros Hsc [cw Hwc] [cr Hrc] Hwn Hrn Hwd Hrd Hasc Hprod.
  set (b := mkDF ["date"; "brent_price"] _).
  assert (Hbd : date_column b = date_column saudi_df).
  { unfold date_column, b; simpl. rewrite <- list_fmap_compose.
    apply list_fmap_ext. intros _ r _; simpl. by apply at_insert_ne. }
  assert (Hsn : numeric_rows saudi_df).
  { intros r c Hr Hc Hne. rewrite Hsc in Hc.
    apply elem_of_cons in Hc as [->|Hc]; [done|].
    apply list_elem_of_singleton in Hc as ->. by apply Hprod. }
  assert (Hbn : numeric_rows b).
  { intros r c Hr Hc Hne. unfold b in Hr, Hc; simpl in *.
    apply list_elem_of_fmap in Hr as (l & -> & _).
    apply elem_of_cons in Hc as [->|Hc]; [done|].
    apply list_elem_of_singleton in Hc as ->. by rewrite at_insert_eq. }
  assert (Hnr : ∀ c, c = "brent_price" ∨ c = target_col → c ∉ columns renew_df).
  { intros c Hc. rewrite Hrc, not_elem_of_cons.
    split; [by destruct Hc as [-> | ->]|].
    intros (x & -> & _)%list_elem_of_fmap. by destruct Hc as [Hc|Hc]. }
  assert (Hnw : ∀ c, c = "brent_price" ∨ c = target_col → c ∉ columns world_df).
  { intros c Hc. rewrite Hwc, not_elem_of_cons.
    split; [by destruct Hc as [-> | ->]|].
    intros (x & -> & _)%list_elem_of_fmap. by destruct Hc as [Hc|Hc]. }
  assert (Hsd : "date" ∈ columns saudi_df) by (rewrite Hsc; left).
  (* first merge *)
  destruct (merge_left_total saudi_df b "date") as [d1 Hm1]; [done|left|].
  destruct (merge_placeholder saudi_df d1 Hsc Hm1) as [Hb1 Hz1].
  destruct (merge_left_keeps saudi_df b d1 target_col (λ _, True) Hm1) as [Ht1 _];
    [rewrite Hsc; right; left|unfold b; simpl; set_solver|done|done|].
  pose proof (merge_left_numeric _ _ _ Hm1 Hsn Hbn) as Hn1.
  destruct (merge_left_dates _ _ _ Hm1) as [Hd1 Hdc1].
  { rewrite Hbd. by apply strictly_ascending_NoDup. }
  (* second merge *)
  destruct (merge_left_total d1 renew_df "date") as [d2 Hm2]; [done|rewrite Hrc; left|].
  destruct (merge_left_keeps d1 renew_df d2 "brent_price" (λ c, c = Num 0) Hm2)
    as [Hb2 Hz2]; [done|by apply Hnr; left|done|done|].
  destruct (merge_left_keeps d1 renew_df d2 target_col (λ _, True) Hm2) as [Ht2 _];
    [done|by apply Hnr; right|done|done|].
  pose proof (merge_left_numeric _ _ _ Hm2 Hn1 Hrn) as Hn2.
  destruct (merge_left_dates _ _ _ Hm2 Hrd) as [Hd2 Hdc2].
  (* third merge *)
  destruct (merge_left_total d2 world_df "date") as [d3 Hm3]; [done|rewrite Hwc; left|].
  destruct (merge_left_keeps d2 world_df d3 "brent_price" (λ c, c = Num 0) Hm3)
    as [Hb3 Hz3]; [done|by apply Hnw; left|done|done|].
  destruct (merge_left_keeps d2 world_df d3 target_col (λ _, True) Hm3) as [Ht3 _];
    [done|by apply Hnw; right|done|done|].
  pose proof (merge_left_numeric _ _ _ Hm3 Hn2 Hwn) as Hn3.
  destruct (merge_left_dates _ _ _ Hm3 Hwd) as [Hd3 Hdc3].
  assert (Hasc3 : strictly_ascending (date_column d3)).
  { by rewrite Hdc3, Hdc2, Hdc1. }
  (* sort *)
  destruct (sort_values_total d3 Hd3 (proj1 Hasc3)) as [d4 Hsort].
  destruct (sort_values_Ok _ _ _ Hsort) as (_ & Hc4 & Hp4 & _).
  destruct (sort_values_dates _ _ Hsort Hasc3) as [Hd4 Hasc4].
  assert (Hn4 : numeric_rows d4).
  { intros r c Hr Hc Hne. rewrite Hc4 in Hc. rewrite Hp4 in Hr. by apply Hn3. }
  pose proof (sort_values_keeps _ _ (λ r, at_ r "brent_price" = Num 0) Hsort Hz3) as Hz4.
  (* fill *)
  pose proof (ffill_numeric _ Hn4) as Hn5.
  pose proof (ffill_keeps d4 "brent_price" (Num 0) ltac:(done) Hz4) as Hz5.
  pose proof (ffill_dates d4 (proj1 Hasc4)) as Hdc5.
  (* derived columns *)
  destruct (derive_total_numeric
              ([target_col] ++ filter (λ c, c ∉ ["date"; target_col]) (columns (ffill d4)))
              (ffill d4)) as [d6 Hder].
  { intros c s Hc Hget. by eapply numeric_rows_getitem. }
  { intros v [->%list_elem_of_singleton|Hv]%elem_of_app.
    - split; [|done]. simpl. by rewrite Hc4.
    - apply list_elem_of_filter in Hv as [Hne Hv]. split; [done|].
      intros ->. apply Hne. left. }
  destruct (derive_spec _ _ _ Hder) as (_ & Hc6 & Hframe & _).
  assert (Hget : getitem d6 "brent_price" = getitem (ffill d4) "brent_price").
  { apply Hframe. intros col φ _ Hφ. by apply base_not_feature_name. }
  assert (Hb5 : "brent_price" ∈ columns (ffill d4)) by (simpl; by rewrite Hc4).
  rewrite (getitem_in (ffill d4)) in Hget by done.
  apply getitem_Ok in Hget as [Hb6 Hcol6].
  destruct (derive_features_dates (ffill d4) d6) as [_ Hdc6];
    [exact Hder|simpl; by rewrite Hc4|].
  exists (dropna d6). split_and!.
  - unfold assemble. fold b. rewrite Hm1. cbn [mbind result_bind].
    rewrite Hm2. cbn [mbind result_bind]. rewrite Hm3. cbn [mbind result_bind].
    rewrite Hsort. cbn [mbind result_bind]. unfold derive_features.
    rewrite Hder. done.
  - done.
  - intros r [_ Hr]%list_elem_of_filter.
    apply list_elem_of_lookup in Hr as [i Hi].
    assert (Hi' : ((λ r, at_ r "brent_price") <$> rows d6) !! i
                  = Some (at_ r "brent_price")) by (by rewrite list_lookup_fmap, Hi).
    rewrite <- Hcol6, list_lookup_fmap in Hi'.
    destruct (rows (ffill d4) !! i) as [r0|] eqn:Hr0; [|done].
    injection Hi' as <-. apply Hz5. by eapply list_elem_of_lookup_2.
  - intros c (r & -> & [_ Hr]%list_elem_of_filter)%list_elem_of_fmap.
    assert (Hin : at_ r "date" ∈ date_column d6).
    { apply list_elem_of_fmap. by exists r. }
    rewrite Hdc6, Hdc5 in Hin.
    assert (Hp : date_column d4 ≡ₚ date_column d3) by (unfold date_column; by rewrite Hp4).
    rewrite Hp, Hdc3, Hdc2, Hdc1 in Hin. done.
Qed.

(** C8. When loading or preparing the Brent source raises, and the other
    three sources load, the exception does not leave [build_features]: the
    builder logs it, and goes on with a [brent_price] column of zeros on the
    date grid of the production series, so that its outcome is the outcome
    of the assembly on that placeholder.  The production values being
    numbers, that outcome is the feature matrix, with [brent_price] zero in
    every row. *)
Theorem brent_failure_absorbed (src : Sources)
    (world_df renew_df saudi_df : DataFrame) (exc : exn) :
  load_required src = Ok (world_df, renew_df, saudi_df) →
  (brent_df ← brent_raw src; prepare_brent brent_df) = Raise exc →
  let placeholder :=
    mkDF ["date"; "brent_price"]
         ((λ r, <["brent_price" := Num 0]> r) <$> rows saudi_df) in
  let warning :=
    LogWarning "Could not load Brent data: %s. Using placeholder zeros." exc in
  date_column placeholder = date_column saudi_df ∧
  warning ∈ (build_features src).1 ∧
  (build_features src).2 = assemble world_df renew_df saudi_df placeholder ∧
  ((∀ r, r ∈ rows saudi_df → is_numeric_cell (at_ r target_col)) →
   ∃ df,
     build_features src
       = ([LogInfo "Building feature matrix..."; warning;
           LogInfo "Saved features to %s"], Ok df) ∧
     "brent_price" ∈ columns df ∧
     (∀ r, r ∈ rows df → at_ r "brent_price" = Num 0) ∧
     (∀ c, c ∈ date_column df → c ∈ date_column saudi_df)).
Proof.
  intros Hload Hbrent placeholder warning.
  destruct (load_required_shape _ _ _ _ Hload) as (Hsc & Hwc & Hrc & Hwn & Hrn).
  destruct (load_required_dates _ _ _ _ Hload) as (Hwd & Hrd & Hsd & Hasc).
  assert (Hrun : build_features src =
            match assemble world_df renew_df saudi_df placeholder with
            | Ok df => ([LogInfo "Building feature matrix..."; warning;
                         LogInfo "Saved features to %s"], Ok df)
            | Raise e => ([LogInfo "Building feature matrix..."; warning], Raise e)
            end).
  { unfold build_features. rewrite Hload, Hbrent.
    rewrite (brent_placeholder_shape _ Hsd). cbn [mbind result_bind].
    fold placeholder. by destruct (assemble _ _ _ placeholder). }
  split_and!.
  - unfold date_column, placeholder; simpl. rewrite <- list_fmap_compose.
    apply list_fmap_ext. intros _ r _; simpl. by apply at_insert_ne.
  - rewrite Hrun. destruct (assemble _ _ _ placeholder); simpl; right; left.
  - rewrite Hrun. by destruct (assemble _ _ _ placeholder).
  - intros Hprod.
    destruct (assemble_placeholder world_df renew_df saudi_df)
      as (df & Hasm & Hb & Hz & Hd); [done..|].
    exists df. split_and!; [|done..].
    rewrite Hrun. fold placeholder in Hasm. by rewrite Hasm.
Qed.
End placeholder.

(** The example sources: the Brent workbook cannot be read. *)
Lemma brent_failure_absorbed_witness :
  ∃ df log,
    @build_features id_sqrt sources_example = (log, Ok df) ∧
    LogWarning "Could not load Brent data: %s. Using placeholder zeros."
               (RuntimeError "Error reading Excel file") ∈ log ∧
    "brent_price" ∈ columns df ∧
    (∀ r, r ∈ rows df → at_ r "brent_price" = Num 0).
Proof.
  destruct (result_check (@load_required sources_example)
              (λ '(_, _, saudi_df),
                 forallb (λ r, is_numeric_cell (at_ r target_col)) (rows saudi_df)))
    as ([[world_df renew_df] saudi_df] & Hload & Hnum); [vm_compute; reflexivity|].
  destruct (@brent_failure_absorbed id_sqrt sources_example world_df renew_df saudi_df
              (RuntimeError "Error reading Excel file") Hload)
    as (_ & _ & _ & Hmatrix).
  - reflexivity.
  - destruct Hmatrix as (df & Hrun & Hb & Hz & _).
    + rewrite forallb_forall in Hnum. intros r Hr%list_elem_of_In.
      apply Is_true_true. by apply Hnum.
    + exists df. eexists. split; [exact Hrun|].
      split; [right; left|]. split; assumption.
Defined.

(** * Further properties of the transforms *)

(** ** [add_lag_features]: failure, and running it again *)

Lemma add_lag_features_Ok_inv df col lags df' :
  add_lag_features df col lags = Ok df' →
  lags = [] ∧ df' = df
  ∨ ∃ s, getitem df col = Ok s ∧
         df' = write_all df (@writes id_sqrt col s (Lag <$> lags)).
Proof.
  intros Hrun. destruct (getitem df col) as [s|e] eqn:Hs.
  - right. exists s. split; [done|].
    rewrite (@add_lag_features_writes id_sqrt _ _ _ s Hs) in Hrun. by injection Hrun.
  - left. destruct lags as [|k lags]; simpl in Hrun.
    + by injection Hrun as <-.
    + by rewrite Hs in Hrun.
Qed.

(** X1. The only failure of [add_lag_features] is the [KeyError] of
    [df[value_col]]: it is raised exactly when the column is missing and
    there is at least one lag.  With no lag the table comes back as it is,
    whether it has the column or not. *)
Theorem add_lag_features_raises (df : DataFrame) (col : string) (lags : list Z)
    (e : exn) :
  add_lag_features df col lags = Raise e
  ↔ (lags ≠ []) ∧ (col ∉ columns df) ∧ e = KeyError col.
Proof.
  destruct (decide (col ∈ columns df)) as [Hin|Hin].
  - rewrite (@add_lag_features_writes id_sqrt _ _ _ _ (getitem_in _ _ Hin)).
    naive_solver.
  - destruct lags as [|k lags]; simpl; [naive_solver|].
    unfold getitem. rewrite decide_False by done. simpl. naive_solver.
Qed.

Lemma setitem_holds df c (v : list cell) :
  c ∈ columns df → holds c v df → setitem df c v = df.
Proof.
  destruct df as [cols rs]. unfold holds, setitem; simpl. intros Hc HF.
  rewrite decide_True by done. f_equal.
  induction HF as [|r x rs v Hr HF IH]; simpl; [done|].
  f_equal; [by apply insert_id|done].
Qed.

Lemma holds_setitem_eq df c (v : list cell) :
  length v = nrows df → holds c v (setitem df c v).
Proof.
  unfold holds, setitem, nrows; simpl. revert v.
  induction (rows df) as [|r rs IH]; intros [|x v] Hl; simplify_eq/=; constructor.
  - by rewrite lookup_insert_eq.
  - by apply IH.
Qed.

Lemma holds_setitem_ne df c (v : list cell) c' (v' : list cell) :
  c ≠ c' → length v' = nrows df → holds c v df → holds c v (setitem df c' v').
Proof.
  unfold holds, setitem, nrows; simpl. intros Hne Hl HF. revert v' Hl.
  induction HF as [|r x rs v Hr HF IH]; intros [|x' v'] Hl; simplify_eq/=;
    constructor.
  - by rewrite lookup_insert_ne.
  - by apply IH.
Qed.

Lemma holds_write_all df ws c v :
  Forall (λ w, length w.2 = nrows df) ws →
  (∀ v', (c, v') ∈ ws → v' = v) →
  (c, v) ∈ ws ∨ holds c v df →
  holds c v (write_all df ws).
Proof.
  revert df. induction ws as [|[c' v'] ws IH]; intros df Hl Hfun Hin.
  { destruct Hin as [Hin|?]; [by apply elem_of_nil in Hin|done]. }
  apply Forall_cons in Hl as [Hw Hl]. simpl in Hw.
  rewrite write_all_cons. simpl. apply IH.
  - eapply Forall_impl; [exact Hl|]. intros x Hx; simpl in *.
    by rewrite nrows_setitem.
  - intros v'' ?. apply Hfun. by right.
  - destruct (decide (c' = c)) as [->|Hne].
    + right. assert (v' = v) as -> by (apply Hfun; left).
      by apply holds_setitem_eq.
    + destruct Hin as [[?|Hin]%elem_of_cons|Hh]; [congruence|by left|].
      right. by apply holds_setitem_ne.
Qed.

Lemma write_all_holds df ws :
  (∀ c v, (c, v) ∈ ws → c ∈ columns df ∧ holds c v df) → write_all df ws = df.
Proof.
  induction ws as [|[c v] ws IH]; intros Hws; [done|].
  rewrite write_all_cons. simpl.
  destruct (Hws c v) as [Hc Hh]; [left|].
  rewrite setitem_holds by done. apply IH. intros c' v' ?. apply Hws. by right.
Qed.

Lemma write_all_again df ws :
  Forall (λ w, length w.2 = nrows df) ws →
  (∀ c v v', (c, v) ∈ ws → (c, v') ∈ ws → v' = v) →
  write_all (write_all df ws) ws = write_all df ws.
Proof.
  intros Hl Hfun. apply write_all_holds. intros c v Hin. split.
  - apply columns_write_all_in. right. apply list_elem_of_fmap. by exists (c, v).
  - apply holds_write_all; [done|eauto|by left].
Qed.

(** X2. Running [add_lag_features] a second time with the same arguments
    changes nothing: the lag columns are written over, with the same
    values, and none is added twice. *)
Theorem add_lag_features_idempotent (df df' : DataFrame) (col : string)
    (lags : list Z) :
  add_lag_features df col lags = Ok df' →
  add_lag_features df' col lags = Ok df'.
Proof.
  intros [[-> ->]|(s & Hs & ->)]%add_lag_features_Ok_inv; [done|].
  rewrite (@add_lag_features_writes id_sqrt _ _ _ s).
  - f_equal. apply write_all_again.
    + apply writes_lengths. by eapply getitem_length.
    + intros c v v' (φ & [= -> ->] & Hφ)%list_elem_of_fmap
        (φ' & [= Hn ->] & Hφ')%list_elem_of_fmap.
      apply list_elem_of_fmap in Hφ as (k & -> & _).
      apply list_elem_of_fmap in Hφ' as (k' & -> & _).
      apply feature_name_inj in Hn; [by simplify_eq|done..].
  - by apply getitem_write_features_self.
Qed.

Lemma add_lag_features_idempotent_witness :
  ∃ df', add_lag_features test_frame "value" [1; 2] = Ok df'
         ∧ add_lag_features df' "value" [1; 2] = Ok df'.
Proof.
  eexists. split; [reflexivity|].
  apply (add_lag_features_idempotent test_frame _ "value" [1; 2]). reflexivity.
Defined.

(** ** [add_rolling_features]: the errors *)

Section rolling_errors.
Context `{FloatSqrt}.

Lemma rolling_stats_app df col w stats1 stats2 :
  rolling_stats df col w (stats1 ++ stats2)
    = df' ← rolling_stats df col w stats1; rolling_stats df' col w stats2.
Proof.
  revert df. induction stats1 as [|st stats1 IH]; intros df; [done|].
  simpl. destruct (rolling_step df col w st) as [d|e]; simpl; [apply IH|done].
Qed.

Lemma rolling_step_unsupported df col w stat s :
  getitem df col = Ok s → 0 ≤ w → stat ∉ supported_stats →
  rolling_step df col w stat = Raise (ValueError ("Unsupported stat: " +:+ stat)).
Proof.
  intros Hs Hw Hst. unfold rolling_step. rewrite Hs. simpl.
  unfold rolling. rewrite decide_False by lia. simpl.
  unfold supported_stats in Hst. rewrite !not_elem_of_cons in Hst.
  destruct Hst as (? & ? & ? & ? & _).
  by rewrite !decide_False by done.
Qed.

(** X3. A statistic other than [mean], [std], [min], [max] is refused with
    [ValueError("Unsupported stat: ...")], and only when the loop reaches
    it: the statistics before it in the list have been computed for the
    first window by then. *)
Theorem add_rolling_features_unsupported_stat (df : DataFrame) (col : string)
    (w : Z) (ws : list Z) (good : list string) (bad : string) (rest : list string) :
  col ∈ columns df →
  (∀ i, is_numeric_cell (iat df i col)) →
  0 ≤ w →
  Forall (λ stat, stat ∈ supported_stats) good →
  bad ∉ supported_stats →
  add_rolling_features df col (w :: ws) (Some (good ++ bad :: rest))
    = Raise (ValueError ("Unsupported stat: " +:+ bad))
  ∧ ∃ df', rolling_stats df col w good = Ok df' ∧
      ∀ stat, stat ∈ good → roll_name col stat w ∈ columns df'.
Proof.
  intros Hcol Hnum Hw Hgood Hbad. pose proof (getitem_in _ _ Hcol) as Hs.
  set (s := (λ r, at_ r col) <$> rows df) in Hs.
  assert (Hnums : forallb is_numeric_cell s).
  { apply Is_true_true, forallb_forall.
    intros c (i & Hi)%list_elem_of_In%list_elem_of_lookup.
    apply Is_true_true. specialize (Hnum i).
    rewrite <- (getitem_iat _ _ _ _ Hs), Hi in Hnum. done. }
  assert (Hrun : rolling_stats df col w good
                 = Ok (write_all df (writes col s ((λ stat, Roll stat w) <$> good)))).
  { apply rolling_stats_writes; [done..|].
    eapply Forall_impl; [exact Hgood|]. intros st Hst. by split. }
  split.
  - unfold add_rolling_features. cbn [rolling_windows].
    rewrite rolling_stats_app, Hrun. cbn [mbind result_bind rolling_stats].
    rewrite (rolling_step_unsupported _ _ _ _ s); [done| |done..].
    by apply getitem_write_features_self.
  - eexists. split; [exact Hrun|]. intros stat Hst.
    apply columns_write_all_in. right. unfold writes.
    rewrite <- !list_fmap_compose. apply list_elem_of_fmap.
    by exists stat.
Qed.

(** X4. The column is read, and the window checked, before the statistic
    is looked at: a missing column is a [KeyError] and a negative window a
    [ValueError], whatever the statistic is. *)
Theorem add_rolling_features_error_order (df : DataFrame) (col : string)
    (w : Z) (ws : list Z) (stat : string) (stats : list string) :
  (col ∉ columns df →
   add_rolling_features df col (w :: ws) (Some (stat :: stats))
     = Raise (KeyError col))
  ∧ (col ∈ columns df → w < 0 →
     add_rolling_features df col (w :: ws) (Some (stat :: stats))
       = Raise (ValueError "window must be an integer 0 or greater")).
Proof.
  unfold add_rolling_features. cbn [rolling_windows rolling_stats].
  unfold rolling_step, getitem, rolling. split.
  - intros Hcol. by rewrite decide_False by done.
  - intros Hcol Hw. rewrite decide_True by done. simpl.
    by rewrite decide_True by done.
Qed.
End rolling_errors.

Lemma add_rolling_features_unsupported_stat_witness :
  @add_rolling_features id_sqrt test_frame "value" [3] (Some ["mean"; "median"])
    = Raise (ValueError "Unsupported stat: median").
Proof.
  apply (@add_rolling_features_unsupported_stat id_sqrt test_frame "value" 3 []
           ["mean"] "median" []).
  - vm_compute. left.
  - intros i. do 6 (destruct i as [|i]; [exact I|]). exact I.
  - lia.
  - repeat constructor.
  - vm_compute. intros Hin. repeat (apply elem_of_cons in Hin as [Hin|Hin]; [discriminate|]).
    by apply elem_of_nil in Hin.
Defined.

Lemma add_rolling_features_error_order_witness :
  @add_rolling_features id_sqrt test_frame "price" [3] (Some ["median"])
    = Raise (KeyError "price")
  ∧ @add_rolling_features id_sqrt test_frame "value" [-1] (Some ["median"])
    = Raise (ValueError "window must be an integer 0 or greater").
Proof.
  split.
  - apply (@add_rolling_features_error_order id_sqrt test_frame "price" 3 [] "median" []).
    vm_compute. intros Hin. apply list_elem_of_singleton in Hin. discriminate.
  - apply (@add_rolling_features_error_order id_sqrt test_frame "value" (-1) [] "median" []).
    + vm_compute. left.
    + lia.
Defined.

(** ** [resample_to_month_start]: the grid and the forward fill *)




Lemma mapM_ts_of (l : list cell) idx : mapM ts_of l = Some idx → l = Ts <$> idx.
Proof.
  rewrite mapM_Some. induction 1 as [|c t l idx Hc _ IH]; [done|].
  destruct c; simplify_eq/=. by f_equal.
Qed.



(** The last row of a sorted list that is not after a bound is the latest
    such row. *)
Lemma last_filter_sorted (key : Row → cell) (b : cell) (l : list Row) x :
  StronglySorted cell_lt (key <$> l) →
  last (filter (λ r, cell_leb (key r) b) l) = Some x →
  x ∈ l ∧ cell_leb (key x) b ∧
  ∀ y, y ∈ l → cell_leb (key y) b → y = x ∨ cell_lt (key y) (key x).
Proof.
  induction l as [|a l IH]; [done|]. rewrite fmap_cons.
  intros [Hs Ha]%StronglySorted_inv. rewrite filter_cons.
  destruct (decide (cell_leb (key a) b)) as [Hab|Hab].
  - rewrite last_cons. destruct (last (filter _ l)) as [x'|] eqn:Hl.
    + intros [= ->]. destruct (IH Hs eq_refl) as (Hx & Hxb & Hmax).
      split_and!; [by right|done|].
      intros y [->|Hy]%elem_of_cons Hyb; [|by auto].
      right. rewrite Forall_fmap, Forall_forall in Ha. by apply Ha.
    + intros [= ->]. split_and!; [left|done|].
      intros y [->|Hy]%elem_of_cons Hyb; [by left|].
      exfalso. apply last_None in Hl.
      assert (y ∈ filter (λ r, cell_leb (key r) b) l) as Hin
        by (by apply list_elem_of_filter).
      rewrite Hl in Hin. by apply elem_of_nil in Hin.
  - intros Hl. destruct (IH Hs Hl) as (Hx & Hxb & Hmax).
    split_and!; [by right|done|].
    intros y [->|Hy]%elem_of_cons Hyb; [done|by auto].
Qed.

Lemma cell_lt_leb c1 c2 : cell_lt c1 c2 → cell_leb c1 c2.
Proof.
  destruct c1 as [| |t1|], c2 as [| |t2|]; simpl; try done.
  rewrite ts_ltb_spec, ts_leb_spec. lia.
Qed.

Lemma mapM_to_datetime_ts (l : list cell) :
  Forall (λ c, is_ts c) l → mapM to_datetime_cell l = Ok l.
Proof.
  induction 1 as [|c l Hc _ IH]; [done|].
  destruct c; try done. cbn [mapM to_datetime_cell mbind result_bind].
  by rewrite IH.
Qed.

Lemma zip_with_insert_same (rs : list Row) c :
  zip_with (λ r v, <[c := v]> r) rs ((λ r, at_ r c) <$> rs)
    = (λ r, <[c := at_ r c]> r) <$> rs.
Proof. induction rs as [|r rs IH]; simpl; [done|]. by f_equal. Qed.

Lemma at_insert_same (r : Row) c c' : at_ (<[c := at_ r c]> r) c' = at_ r c'.
Proof.
  destruct (decide (c = c')) as [->|?];
    [apply at_insert_eq|by apply at_insert_ne].
Qed.

Lemma lookup_value_cols (vcols : list string) (f : string → cell) c :
  c ∈ vcols →
  (list_to_map ((λ c0, (c0, f c0)) <$> vcols) : Row) !! c = Some (f c).
Proof.
  intros Hc. apply elem_of_list_to_map_1'.
  - intros y (c' & [= <- ->] & _)%list_elem_of_fmap. done.
  - apply list_elem_of_fmap. by exists c.
Qed.

Lemma at_value_cols (vcols : list string) (f : string → cell) c :
  c ∈ vcols → at_ (list_to_map ((λ c0, (c0, f c0)) <$> vcols)) c = f c.
Proof. intros Hc. unfold at_. by rewrite lookup_value_cols. Qed.

(** X6. Forward filling carries the last observation forward: the values
    of a month are those of the latest input row dated at or before the
    start of that month, and missing when there is no such row. *)
Theorem resample_ffill_carries_forward (df : DataFrame) (date_col : string)
    (vcols : list string) (df' : DataFrame) (dates : list cell) :
  getitem df date_col = Ok dates →
  Forall (λ c, is_ts c) dates →
  resample_to_month_start df date_col vcols "ffill" = Ok df' →
  ∀ r' c, r' ∈ rows df' → c ∈ vcols →
    ((∀ r, r ∈ rows df → ¬ cell_leb (at_ r date_col) (at_ r' date_col))
     ∧ at_ r' c = NaN)
    ∨ ∃ r, r ∈ rows df ∧
        cell_leb (at_ r date_col) (at_ r' date_col) ∧
        (∀ r2, r2 ∈ rows df → cell_leb (at_ r2 date_col) (at_ r' date_col) →
               cell_leb (at_ r2 date_col) (at_ r date_col)) ∧
        at_ r' c = at_ r c.
Proof.
  intros Hd Hts. unfold resample_to_month_start. rewrite Hd.
  cbn [mbind result_bind]. rewrite (mapM_to_datetime_ts _ Hts).
  cbn [mbind result_bind]. cbv zeta.
  destruct (filter _ vcols) eqn:Hf; [|done].
  destruct (mapM ts_of dates) as [idx|] eqn:Hidx; [|done].
  destruct (decide ("ffill" = "ffill")); [|done].
  destruct (decide (NoDup idx)) as [Hnd|]; [|done].
  intros [= <-] r' c Hr' Hc. cbn [rows] in Hr'.
  apply list_elem_of_fmap in Hr' as (m & -> & Hm).
  assert (Hcne : c ≠ date_col).
  { intros ->. assert (Hin : date_col ∈ filter
        (λ c0, bool_decide (c0 ∉ columns (setitem df date_col dates) ∨ c0 = date_col)) vcols).
    { apply list_elem_of_filter. split; [|done]. apply bool_decide_spec. by right. }
    rewrite Hf in Hin. by apply elem_of_nil in Hin. }
  apply getitem_Ok in Hd as [Hdc ->].
  rewrite zip_with_insert_same.
  set (rows1 := (λ r, <[date_col := at_ r date_col]> r) <$> rows df) in *.
  set (sorted := merge_sort (row_le date_col) rows1).
  rewrite at_insert_eq, (at_insert_ne _ _ _ _ (not_eq_sym Hcne)).
  assert (Hkeys : (λ r, at_ r date_col) <$> sorted
                  ≡ₚ (λ r, at_ r date_col) <$> rows df).
  { unfold sorted. rewrite merge_sort_Permutation. unfold rows1.
    rewrite <- list_fmap_compose.
    rewrite (list_fmap_ext _ (λ r, at_ r date_col) (rows df)); [done|].
    intros _ r _. simpl. apply at_insert_eq. }
  assert (Hss : StronglySorted cell_lt ((λ r, at_ r date_col) <$> sorted)).
  { apply sorted_strictly_ascending.
    - by rewrite Hkeys.
    - rewrite Hkeys. apply mapM_ts_of in Hidx. rewrite Hidx.
      apply NoDup_fmap_2; [|done]. by intros ?? [=].
    - unfold sorted.
      eapply Sorted_fmap; [|apply (Sorted_merge_sort (row_le date_col))].
      intros r1 r2 Hle. exact Hle. }
  assert (Hback : ∀ r1, r1 ∈ sorted →
            ∃ r, r ∈ rows df ∧ ∀ c0, at_ r1 c0 = at_ r c0).
  { intros r1. unfold sorted. rewrite merge_sort_Permutation.
    intros (r & -> & Hr)%list_elem_of_fmap. exists r. split; [done|].
    intros c0. apply at_insert_same. }
  assert (Hforth : ∀ r, r ∈ rows df →
            ∃ r1, r1 ∈ sorted ∧ ∀ c0, at_ r1 c0 = at_ r c0).
  { intros r Hr. exists (<[date_col := at_ r date_col]> r). split.
    - unfold sorted. rewrite merge_sort_Permutation.
      apply list_elem_of_fmap. by exists r.
    - intros c0. apply at_insert_same. }
  destruct (last (filter _ sorted)) as [x|] eqn:Hlast.
  - right. apply last_filter_sorted in Hlast as (Hx & Hxb & Hmax); [|done].
    destruct (Hback x Hx) as (r & Hr & Hrx). exists r.
    rewrite <- !Hrx. split_and!; [done|done| |by apply (at_value_cols vcols (λ c0, at_ x c0))].
    intros r2 Hr2 Hr2b. destruct (Hforth r2 Hr2) as (y & Hy & Hyr).
    rewrite <- Hyr in Hr2b |- *.
    destruct (Hmax y Hy Hr2b) as [->|Hlt]; [|by apply cell_lt_leb].
    destruct (cell_leb_total (at_ x date_col) (at_ x date_col)); done.
  - left. split; [|by apply (at_value_cols vcols (λ _, NaN))]. intros r Hr Hrb.
    destruct (Hforth r Hr) as (y & Hy & Hyr). apply last_None in Hlast.
    assert (y ∈ filter (λ r, cell_leb (at_ r date_col) (Ts (month_start m))) sorted)
      as Hin by (apply list_elem_of_filter; by rewrite Hyr).
    rewrite Hlast in Hin. by apply elem_of_nil in Hin.
Qed.

Lemma resample_ffill_carries_forward_witness :
  ∃ df',
    resample_to_month_start annual_example "date" ["saudi_production"] "ffill" = Ok df' ∧
    ∀ r', r' ∈ rows df' →
      ((∀ r, r ∈ rows annual_example → ¬ cell_leb (at_ r "date") (at_ r' "date"))
       ∧ at_ r' "saudi_production" = NaN)
      ∨ ∃ r, r ∈ rows annual_example ∧
          cell_leb (at_ r "date") (at_ r' "date") ∧
          (∀ r2, r2 ∈ rows annual_example → cell_leb (at_ r2 "date") (at_ r' "date") →
                 cell_leb (at_ r2 "date") (at_ r "date")) ∧
          at_ r' "saudi_production" = at_ r "saudi_production".
Proof.
  destruct (result_check
              (resample_to_month_start annual_example "date" ["saudi_production"] "ffill")
              (λ _, true)) as (df' & Hrun & _); [vm_compute; reflexivity|].
  exists df'. split; [exact Hrun|]. intros r' Hr'.
  apply (resample_ffill_carries_forward annual_example "date" ["saudi_production"] df'
           [jan 2000; jan 2001]).
  - reflexivity.
  - repeat constructor.
  - exact Hrun.
  - exact Hr'.
  - left.
Defined.

(** * Further properties of the builder *)

(** ** The aggregations *)

Lemma groupby_sum_spec df by_ cols prefix agg :
  groupby_sum df by_ cols prefix = Ok agg →
  columns agg = by_ :: ((λ c, prefix +:+ c) <$> cols) ∧
  NoDup ((λ r, at_ r by_) <$> rows agg) ∧
  (∀ k, k ∈ (λ r, at_ r by_) <$> rows agg
        ↔ k ≠ NaN ∧ k ∈ (λ r, at_ r by_) <$> rows df) ∧
  (∀ r' c, r' ∈ rows agg → c ∈ cols → prefix +:+ c ≠ by_ →
     at_ r' (prefix +:+ c)
       = Num (Qsum (omap numeric
                      ((λ r, at_ r c)
                         <$> filter (λ r, at_ r by_ = at_ r' by_) (rows df))))).
Proof.
  unfold groupby_sum. intros (keys & [_ ->]%getitem_Ok & Hrun)%bind_Ok.
  destruct (comparable _); [|done]. injection Hrun as <-. cbn [columns rows].
  set (ks := remove_dups (filter (λ k, notna k) ((λ r, at_ r by_) <$> rows df))).
  assert (Hkeys : ∀ g : cell → Row,
            (λ r, at_ r by_) <$> ((λ k, <[by_ := k]> (g k)) <$> merge_sort cell_le ks)
              = merge_sort cell_le ks).
  { intros g. rewrite <- list_fmap_compose.
    rewrite (list_fmap_ext _ id (merge_sort cell_le ks)); [by rewrite list_fmap_id|].
    intros _ k _. simpl. apply at_insert_eq. }
  split_and!.
  - done.
  - rewrite Hkeys, merge_sort_Permutation. apply NoDup_remove_dups.
  - intros k. rewrite Hkeys, merge_sort_Permutation. unfold ks.
    rewrite elem_of_remove_dups, list_elem_of_filter.
    split; intros [Hk ?]; (split; [|done]); by destruct k.
  - intros r' c (k & -> & _)%list_elem_of_fmap Hc Hne.
    rewrite at_insert_eq, at_insert_ne by done.
    unfold at_ at 1.
    erewrite elem_of_list_to_map_1'; [done| |].
    + intros y (c' & [= Hc' ->] & _)%list_elem_of_fmap.
      apply (inj _) in Hc'. by subst.
    + apply list_elem_of_fmap. by exists c.
Qed.

(** X7. The two aggregations give one row per date of the input (rows
    without a date left out), and in the column [world_c] (or
    [renewables_c]) of that row the sum of the numeric column [c] over the
    input rows of that date, missing values skipped. *)
Theorem aggregate_sums_by_date (df agg : DataFrame) (prefix : string) :
  (aggregate_world_energy df = Ok agg ∧ prefix = "world_")
  ∨ (aggregate_renewables df = Ok agg ∧ prefix = "renewables_") →
  columns agg = "date" :: ((λ c, prefix +:+ c) <$> numeric_columns df) ∧
  NoDup (date_column agg) ∧
  (∀ k, k ∈ date_column agg ↔ k ≠ NaN ∧ k ∈ date_column df) ∧
  (∀ r' c, r' ∈ rows agg → c ∈ numeric_columns df →
     at_ r' (prefix +:+ c)
       = Num (Qsum (omap numeric
                      ((λ r, at_ r c)
                         <$> filter (λ r, at_ r "date" = at_ r' "date") (rows df))))).
Proof.
  unfold aggregate_world_energy, aggregate_renewables.
  intros [[Hrun ->]|[Hrun ->]];
    apply groupby_sum_spec in Hrun as (Hc & Hnd & Hk & Hsum);
    (split_and!; [done|done|done|]);
    intros r' c Hr' Hcn; (apply Hsum; [done|done|]);
    cbv [String.append]; done.
Qed.

Lemma aggregate_sums_by_date_witness :
  ∃ agg, aggregate_world_energy world_example = Ok agg ∧
    date_column agg = [jan 2000; jan 2001] ∧
    ∀ r', r' ∈ rows agg →
      at_ r' "world_value"
        = Num (Qsum (omap numeric
                       ((λ r, at_ r "value")
                          <$> filter (λ r, at_ r "date" = at_ r' "date")
                                     (rows world_example)))).
Proof.
  destruct (result_check (aggregate_world_energy world_example)
              (λ agg, bool_decide (date_column agg = [jan 2000; jan 2001])))
    as (agg & Hrun & Hd); [vm_compute; reflexivity|].
  exists agg. split; [exact Hrun|]. split; [by apply bool_decide_eq_true in Hd|].
  intros r' Hr'.
  destruct (aggregate_sums_by_date world_example agg "world_") as (_ & _ & _ & Hsum).
  - left. split; [exact Hrun|reflexivity].
  - apply (Hsum r' "value" Hr'). vm_compute. right. left.
Defined.

(** ** [prepare_saudi_production] *)

(** [drop_duplicates]: one row per key, the first one. *)
Lemma drop_duplicates_acc by_ (rs acc : list Row) :
  let out :=
    foldl (λ acc r, if existsb (λ r', bool_decide (at_ r' by_ = at_ r by_)) acc
                    then acc else acc ++ [r]) acc rs in
  (NoDup ((λ r, at_ r by_) <$> acc) → NoDup ((λ r, at_ r by_) <$> out)) ∧
  (∀ r, r ∈ out →
     r ∈ acc
     ∨ ∃ l1 l2, rs = l1 ++ r :: l2 ∧
         (∀ r2, r2 ∈ acc ++ l1 → at_ r2 by_ ≠ at_ r by_)) ∧
  (∀ r, r ∈ acc ++ rs → ∃ r', r' ∈ out ∧ at_ r' by_ = at_ r by_).
Proof.
  revert acc. induction rs as [|a rs IH]; intros acc; cbn [foldl].
  { split_and!; [done|by left|]. intros r. rewrite app_nil_r. eauto. }
  destruct (existsb _ acc) eqn:Hex.
  - apply existsb_exists in Hex as (a' & Ha'%list_elem_of_In & Heq%bool_decide_eq_true).
    destruct (IH acc) as (IH1 & IH2 & IH3). split_and!.
    + done.
    + intros r [?|(l1 & l2 & -> & Hfirst)]%IH2; [by left|].
      right. exists (a :: l1), l2. split; [done|].
      intros r2 [?|[->|?]%elem_of_cons]%elem_of_app.
      * apply Hfirst, elem_of_app. by left.
      * rewrite <- Heq. apply Hfirst, elem_of_app. by left.
      * apply Hfirst, elem_of_app. by right.
    + intros r [?|[->|?]%elem_of_cons]%elem_of_app.
      * apply IH3, elem_of_app. by left.
      * destruct (IH3 a') as (r' & ? & ?); [apply elem_of_app; by left|].
        exists r'. split; [done|]. congruence.
      * apply IH3, elem_of_app. by right.
  - assert (Hfresh : ∀ r2, r2 ∈ acc → at_ r2 by_ ≠ at_ a by_).
    { intros r2 Hr2 Heq.
      assert (existsb (λ r', bool_decide (at_ r' by_ = at_ a by_)) acc = true) as Ht.
      { apply existsb_exists. exists r2. split; [by apply list_elem_of_In|].
        by apply bool_decide_eq_true. }
      congruence. }
    destruct (IH (acc ++ [a])) as (IH1 & IH2 & IH3). split_and!.
    + intros Hnd. apply IH1. rewrite fmap_app. apply NoDup_app.
      split_and!; [done| |apply NoDup_singleton].
      intros k (r2 & -> & Hr2)%list_elem_of_fmap Hk. simpl in Hk.
      apply list_elem_of_singleton in Hk. by eapply Hfresh.
    + intros r [[?|Hr%list_elem_of_singleton]%elem_of_app
                |(l1 & l2 & -> & Hfirst)]%IH2.
      * by left.
      * subst r. right. exists [], rs. split; [done|]. intros r2. rewrite app_nil_r.
        apply Hfresh.
      * right. exists (a :: l1), l2. split; [done|].
        intros r2 Hr2. apply Hfirst. rewrite <- app_assoc. done.
    + intros r Hr. apply IH3. by rewrite <- app_assoc.
Qed.

Lemma drop_duplicates_spec df by_ :
  columns (drop_duplicates df by_) = columns df ∧
  NoDup ((λ r, at_ r by_) <$> rows (drop_duplicates df by_)) ∧
  (∀ r, r ∈ rows (drop_duplicates df by_) →
     ∃ l1 l2, rows df = l1 ++ r :: l2 ∧ ∀ r2, r2 ∈ l1 → at_ r2 by_ ≠ at_ r by_) ∧
  (∀ r, r ∈ rows df →
     ∃ r', r' ∈ rows (drop_duplicates df by_) ∧ at_ r' by_ = at_ r by_).
Proof.
  unfold drop_duplicates. cbn [columns rows].
  destruct (drop_duplicates_acc by_ (rows df) []) as (H1 & H2 & H3).
  split_and!; [done|apply H1; constructor| |].
  - intros r [?%elem_of_nil|Hr]%H2; [done|]. exact Hr.
  - intros r Hr. by apply H3.
Qed.

Lemma filter_app_cons_inv {A} (P : A → Prop) `{∀ x, Decision (P x)}
    (l : list A) l1 x l2 :
  filter P l = l1 ++ x :: l2 →
  ∃ a b, l = a ++ x :: b ∧ filter P a = l1 ∧ filter P b = l2.
Proof.
  revert l1. induction l as [|y l IH]; intros l1 Hf.
  { by destruct l1. }
  rewrite filter_cons in Hf. destruct (decide (P y)) as [Hy|Hy].
  - destruct l1 as [|z l1]; simplify_eq/=.
    + exists [], l. by rewrite filter_nil.
    + destruct (IH _ H1) as (a & b & -> & <- & <-).
      exists (z :: a), b. split_and!; [done| |done].
      by rewrite filter_cons, decide_True.
  - destruct (IH _ Hf) as (a & b & -> & <- & <-).
    exists (y :: a), b. split_and!; [done| |done].
    by rewrite filter_cons, decide_False.
Qed.

(** X8. From a cleaned Saudi table with a [value] column and a
    [production_indicator] column that is not all missing,
    [prepare_saudi_production] keeps two columns, [date] and
    [saudi_production]; no date occurs twice; every row is the first
    "total" row of its date in the input, with that row's [value]; and
    every date of a "total" row is kept. *)
Theorem prepare_saudi_production_spec (df d : DataFrame) :
  "value" ∈ columns df →
  "production_indicator" ∈ columns df →
  (∃ r0, r0 ∈ rows df ∧ at_ r0 "production_indicator" ≠ NaN) →
  prepare_saudi_production df = Ok d →
  columns d = ["date"; "saudi_production"] ∧
  NoDup (date_column d) ∧
  (∀ r', r' ∈ rows d →
     ∃ l1 r l2, rows df = l1 ++ r :: l2 ∧
       contains_total (at_ r "production_indicator") ∧
       at_ r' "date" = at_ r "date" ∧
       at_ r' "saudi_production" = at_ r "value" ∧
       ∀ r2, r2 ∈ l1 → contains_total (at_ r2 "production_indicator") →
             at_ r2 "date" ≠ at_ r "date") ∧
  (∀ r, r ∈ rows df → contains_total (at_ r "production_indicator") →
     at_ r "date" ∈ date_column d).
Proof.
  intros Hv Hic (r0 & Hr0 & Hna). unfold prepare_saudi_production.
  rewrite filter_cons, decide_True by done. cbn [head].
  assert (existsb (λ r, notna (at_ r "production_indicator")) (rows df) = true) as ->.
  { apply existsb_exists. exists r0. split; [by apply list_elem_of_In|].
    by destruct (at_ r0 "production_indicator"). }
  cbn [columns]. rewrite decide_True by done. cbn [mbind result_bind].
  set (kept := filter (λ r, contains_total (at_ r "production_indicator")) (rows df)).
  intros (sel & Hsel & [= <-])%bind_Ok.
  unfold select in Hsel. cbn [columns] in Hsel.
  destruct (filter _ ["date"; "value"]) eqn:Hf; [|done]. injection Hsel as <-.
  set (ren := λ r : Row,
         (list_to_map [("date", at_ r "date"); ("saudi_production", at_ r "value")] : Row)).
  assert (Hrows : rows (rename_column (mkDF ["date"; "value"] kept) "value" "saudi_production")
                  = ren <$> kept) by done.
  assert (Hrd : ∀ r, at_ (ren r) "date" = at_ r "date") by done.
  assert (Hrv : ∀ r, at_ (ren r) "saudi_production" = at_ r "value") by done.
  destruct (drop_duplicates_spec
              (rename_column (mkDF ["date"; "value"] kept) "value" "saudi_production")
              "date") as (Hc & Hnd & Hfirst & Hall).
  rewrite Hrows in Hfirst, Hall.
  split_and!.
  - by rewrite Hc.
  - exact Hnd.
  - intros r' (m1 & m2 & Hsplit & Hm1)%Hfirst.
    apply fmap_app_inv in Hsplit as (k1 & k2' & -> & Hk2 & Hsplit).
    symmetry in Hk2. apply fmap_cons_inv in Hk2 as (r & k2 & -> & -> & ->).
    assert (Hr : r ∈ kept) by (rewrite Hsplit, elem_of_app; right; left).
    unfold kept in Hsplit.
    apply filter_app_cons_inv in Hsplit as (a & b & Hdf & <- & <-).
    exists a, r, b. split_and!; [done| |done|done|].
    + by apply list_elem_of_filter in Hr as [? _].
    + intros r2 Hr2 Ht. rewrite <- (Hrd r2), <- (Hrd r). apply Hm1.
      apply list_elem_of_fmap. exists r2. split; [done|].
      by apply list_elem_of_filter.
  - intros r Hr Ht.
    destruct (Hall (ren r)) as (r' & Hr' & Heq).
    { apply list_elem_of_fmap. exists r. split; [done|]. by apply list_elem_of_filter. }
    rewrite <- (Hrd r), <- Heq. unfold date_column.
    apply list_elem_of_fmap. by exists r'.
Qed.

Lemma prepare_saudi_production_spec_witness :
  ∃ d, prepare_saudi_production saudi_example = Ok d ∧
    columns d = ["date"; "saudi_production"] ∧
    NoDup (date_column d) ∧
    jan 2001 ∈ date_column d.
Proof.
  destruct (result_check (prepare_saudi_production saudi_example) (λ _, true))
    as (d & Hrun & _); [vm_compute; reflexivity|].
  destruct (prepare_saudi_production_spec saudi_example d)
    as (Hc & Hnd & _ & Hall).
  - vm_compute. do 2 right. left.
  - vm_compute. right. left.
  - eexists. split; [left|]. vm_compute. discriminate.
  - exact Hrun.
  - exists d. split_and!; [exact Hrun|exact Hc|exact Hnd|].
    set (r := ({[ "year" := Num 2001; "production_indicator" := Str "Total";
                  "value" := Num 110; "date" := jan 2001 ]} : Row)).
    assert (Heq : at_ r "date" = jan 2001) by (vm_compute; reflexivity).
    rewrite <- Heq. apply (Hall r).
    + do 2 right. left.
    + vm_compute. exact I.
Defined.

(** ** The production series through the resampling *)

Lemma mapM_ts_of_total (l : list cell) :
  Forall (λ c, is_ts c) l → ∃ idx, mapM ts_of l = Some idx ∧ l = Ts <$> idx.
Proof.
  induction 1 as [|c l Hc _ (idx & IH & ->)]; [by exists []|].
  destruct c as [| |t|]; try done. exists (t :: idx).
  cbn [mapM ts_of mbind option_bind]. rewrite IH. done.
Qed.

(** X9. The production table that [prepare_saudi_production] returns can
    always be forward filled to months: its dates are distinct, so the
    resampling does not stop on duplicate labels, whatever duplicates the
    input had. *)
Theorem saudi_production_resamples (df d : DataFrame) :
  "value" ∈ columns df →
  Forall (λ c, is_ts c) (date_column df) →
  prepare_saudi_production df = Ok d →
  ∃ monthly,
    resample_to_month_start d "date" ["saudi_production"] "ffill" = Ok monthly ∧
    columns monthly = ["date"; "saudi_production"] ∧
    strictly_ascending (date_column monthly).
Proof.
  intros Hv Hts Hrun.
  assert (columns d = ["date"; "saudi_production"] ∧ NoDup (date_column d) ∧
          Forall (λ c, is_ts c) (date_column d)) as (Hc & Hnd & Hd).
  { revert Hrun. unfold prepare_saudi_production.
    set (df1 := match head _ with Some ic => _ | None => df end).
    assert (Hdf1 : columns df1 = columns df ∧ rows df1 ⊆ rows df).
    { unfold df1. destruct (head _) as [ic|]; [|done].
      destruct (existsb _ _); [|done]. split; [done|]. cbn [rows].
      intros r Hr. by apply list_elem_of_filter in Hr as [_ ?]. }
    destruct Hdf1 as [Hc1 Hsub]. rewrite Hc1, decide_True by done.
    cbn [mbind result_bind]. intros (sel & Hsel & [= <-])%bind_Ok.
    unfold select in Hsel. destruct (filter _ ["date"; "value"]); [|done].
    injection Hsel as <-.
    set (ren := λ r : Row,
           (list_to_map [("date", at_ r "date"); ("saudi_production", at_ r "value")] : Row)).
    assert (Hrows : rows (rename_column (mkDF ["date"; "value"] (rows df1))
                            "value" "saudi_production") = ren <$> rows df1) by done.
    destruct (drop_duplicates_spec
                (rename_column (mkDF ["date"; "value"] (rows df1)) "value" "saudi_production")
                "date") as (Hc & Hnd & Hfirst & _).
    split_and!; [by rewrite Hc|exact Hnd|].
    unfold date_column. apply Forall_fmap, Forall_forall. intros r' Hr'.
    apply Hfirst in Hr' as (l1 & l2 & Hsplit & _). rewrite Hrows in Hsplit.
    assert (Hin : r' ∈ ren <$> rows df1) by (rewrite Hsplit, elem_of_app; right; left).
    apply list_elem_of_fmap in Hin as (r & -> & Hr). simpl.
    change (is_ts (at_ r "date")).
    unfold date_column in Hts. rewrite Forall_fmap, Forall_forall in Hts.
    apply Hts, Hsub, Hr. }
  destruct (mapM_ts_of_total _ Hd) as (idx & Hidx & Hdates).
  assert (Hget : getitem d "date" = Ok (date_column d)).
  { apply getitem_in. rewrite Hc. left. }
  assert (Hrun' : ∃ monthly,
            resample_to_month_start d "date" ["saudi_production"] "ffill" = Ok monthly).
  { unfold resample_to_month_start. rewrite Hget. cbn [mbind result_bind].
    rewrite (mapM_to_datetime_ts _ Hd). cbn [mbind result_bind]. cbv zeta.
    rewrite filter_cons, decide_False, filter_nil.
    - rewrite Hidx. destruct (decide ("ffill" = "ffill")); [|done].
      rewrite decide_True; [by eexists|].
      apply (NoDup_fmap_1 Ts). by rewrite <- Hdates.
    - rewrite bool_decide_spec. intros [Hn|?]; [|done]. apply Hn.
      apply columns_setitem_in. left. rewrite Hc. right. left. }
  destruct Hrun' as (monthly & Hrun'). exists monthly.
  split_and!; [done|by apply resample_columns in Hrun'|].
  by apply resample_dates in Hrun' as [_ ?].
Qed.

Lemma saudi_production_resamples_witness :
  ∃ d monthly,
    prepare_saudi_production saudi_example = Ok d ∧
    resample_to_month_start d "date" ["saudi_production"] "ffill" = Ok monthly ∧
    columns monthly = ["date"; "saudi_production"] ∧
    strictly_ascending (date_column monthly).
Proof.
  destruct (result_check (prepare_saudi_production saudi_example) (λ _, true))
    as (d & Hrun & _); [vm_compute; reflexivity|].
  destruct (saudi_production_resamples saudi_example d) as (monthly & H1 & H2 & H3).
  - vm_compute. do 2 right. left.
  - repeat constructor.
  - exact Hrun.
  - exists d, monthly. split_and!; [exact Hrun|exact H1|exact H2|exact H3].
Defined.

(** ** The header and the length of the feature matrix *)

Lemma Lag_12_feature : Lag 12 ∈ features.
Proof. do 4 right. left. Qed.

Lemma dropna_leading df c (v : list cell) k :
  getitem df c = Ok v →
  (∀ i, (i < k)%nat → (i < length v)%nat → v !! i = Some NaN) →
  (nrows (dropna df) ≤ nrows df - k)%nat.
Proof.
  intros [Hc ->]%getitem_Ok Hnan. unfold nrows, dropna. cbn [rows columns].
  rewrite <- (take_drop k (rows df)) at 1. rewrite filter_app, length_app.
  assert (filter (λ r, row_notna (columns df) r) (take k (rows df)) = []) as ->.
  { apply elem_of_nil_inv. intros r [Hr Hin]%list_elem_of_filter.
    apply list_elem_of_lookup in Hin as [i Hi].
    apply lookup_take_Some in Hi as [Hi Hik].
    specialize (Hnan i Hik). rewrite length_fmap, list_lookup_fmap, Hi in Hnan.
    assert (Hlt : (i < length (rows df))%nat) by (by eapply lookup_lt_Some).
    specialize (Hnan Hlt). injection Hnan as Hnan.
    unfold row_notna in Hr. apply Is_true_true in Hr.
    rewrite forallb_forall in Hr. specialize (Hr c).
    rewrite Hnan in Hr. apply list_elem_of_In in Hc. by specialize (Hr Hc). }
  simpl. etrans; [apply length_filter|]. rewrite length_drop. lia.
Qed.

Lemma shift_leading (k : Z) (s : list cell) i :
  (i < Z.to_nat k)%nat → (i < length (shift k s))%nat → shift k s !! i = Some NaN.
Proof.
  intros Hik Hi. rewrite length_shift in Hi. rewrite shift_lookup by done.
  by rewrite decide_False by lia.
Qed.

Lemma merge_left_disjoint left right df :
  merge_left left right "date" = Ok df →
  (∀ c, c ∈ columns right → c ≠ "date" → c ∉ columns left) →
  columns df = columns left ++ filter (λ c, c ≠ "date") (columns right).
Proof.
  intros (_ & _ & Hcols & _)%merge_left_rows Hdis. rewrite Hcols.
  assert (Hsh : ∀ c, shared_label left right "date" c = false).
  { intros c. unfold shared_label. apply bool_decide_eq_false.
    intros (Hne & Hl & Hr). by eapply Hdis. }
  f_equal.
  - rewrite (list_fmap_ext _ id (columns left)); [by rewrite list_fmap_id|].
    intros _ c _. unfold left_label. by rewrite Hsh.
  - unfold right_columns.
    rewrite (list_fmap_ext _ id (filter _ (columns right))); [by rewrite list_fmap_id|].
    intros _ c _. unfold right_label. by rewrite Hsh.
Qed.

Lemma filter_ne_prefixed (prefix : string) (cs : list string) :
  (∀ c, prefix +:+ c ≠ "date") →
  filter (λ c, c ≠ "date") ("date" :: ((λ c, prefix +:+ c) <$> cs))
    = (λ c, prefix +:+ c) <$> cs.
Proof.
  intros Hp. rewrite filter_cons, decide_False by (by intros ?).
  induction cs as [|c cs IH]; [done|].
  rewrite fmap_cons, filter_cons, decide_True by apply Hp. by f_equal.
Qed.

Lemma filter_notin_prefixed (prefix : string) (l cs : list string) :
  (∀ c, prefix +:+ c ∉ l) →
  filter (λ c, c ∉ l) ((λ c, prefix +:+ c) <$> cs) = (λ c, prefix +:+ c) <$> cs.
Proof.
  intros Hp. induction cs as [|c cs IH]; [done|].
  rewrite fmap_cons, filter_cons, decide_True by apply Hp. by f_equal.
Qed.

Section header.
Context `{FloatSqrt}.

Lemma derive_columns cols df df' :
  derive df cols = Ok df' →
  ∀ c, c ∈ columns df'
       ↔ c ∈ columns df ∨ ∃ v φ, v ∈ cols ∧ φ ∈ features ∧ c = feature_name v φ.
Proof.
  revert df. induction cols as [|col cols IH]; intros df Hrun c.
  { injection Hrun as <-. split; [by left|].
    by intros [?|(v & φ & ?%elem_of_nil & _)]. }
  apply derive_cons_Ok in Hrun as (s & Hs & Hnum & Hrun).
  destruct (write_features df col s features Hs features_supported)
    as (_ & _ & Hcols1 & _ & _).
  rewrite (IH _ Hrun), Hcols1. split.
  - intros [[?|(φ & Hφ & ->)]|(v & φ & Hv & Hφ & ->)].
    + by left.
    + right. exists col, φ. split_and!; [left|done|done].
    + right. exists v, φ. split_and!; [by right|done|done].
  - intros [?|(v & φ & [->|Hv]%elem_of_cons & Hφ & ->)].
    + by do 2 left.
    + left. right. by exists φ.
    + right. by exists v, φ.
Qed.

(** What [assemble] goes through when it returns a matrix. *)
Lemma assemble_Ok_inv world_df renew_df saudi_df brent_df df :
  assemble world_df renew_df saudi_df brent_df = Ok df →
  ∃ d1 d2 d3 d4 d6,
    merge_left saudi_df brent_df "date" = Ok d1 ∧
    merge_left d1 renew_df "date" = Ok d2 ∧
    merge_left d2 world_df "date" = Ok d3 ∧
    sort_values d3 "date" = Ok d4 ∧
    derive_features (ffill d4) = Ok d6 ∧
    df = dropna d6.
Proof.
  unfold assemble.
  intros (d1 & Hm1 & (d2 & Hm2 & (d3 & Hm3 & (d4 & Hsort
           & (d6 & Hder & [= <-])%bind_Ok)%bind_Ok)%bind_Ok)%bind_Ok)%bind_Ok.
  by exists d1, d2, d3, d4, d6.
Qed.

Lemma assemble_columns world_df renew_df saudi_df brent_df df cr cw :
  assemble world_df renew_df saudi_df brent_df = Ok df →
  columns saudi_df = ["date"; target_col] →
  columns brent_df = ["date"; "brent_price"] →
  columns renew_df = "date" :: ((λ c, "renewables_" +:+ c) <$> cr) →
  columns world_df = "date" :: ((λ c, "world_" +:+ c) <$> cw) →
  let base := [target_col; "brent_price"]
                ++ ((λ c, "renewables_" +:+ c) <$> cr)
                ++ ((λ c, "world_" +:+ c) <$> cw) in
  ∀ c, c ∈ columns df
       ↔ c = "date" ∨ c ∈ base
         ∨ ∃ v φ, v ∈ base ∧ φ ∈ features ∧ c = feature_name v φ.
Proof.
  intros (d1 & d2 & d3 & d4 & d6 & Hm1 & Hm2 & Hm3 & Hsort & Hder & ->)%assemble_Ok_inv
    Hsc Hbc Hrc Hwc base.
  apply merge_left_disjoint in Hm1; cycle 1.
  { intros c. rewrite Hbc, Hsc, !elem_of_cons, !elem_of_nil.
    intros [->|[->|[]]] Hne [|[|[]]]; done. }
  rewrite Hsc, Hbc in Hm1. rewrite filter_cons, decide_False in Hm1 by (by intros ?).
  rewrite filter_cons, decide_True, filter_nil in Hm1 by done.
  apply merge_left_disjoint in Hm2; cycle 1.
  { intros c. rewrite Hrc, Hm1. simpl.
    intros [->|(x & -> & _)%list_elem_of_fmap]%elem_of_cons Hne; [done|].
    rewrite !elem_of_cons, elem_of_nil. cbv [String.append target_col].
    intros [|[|[|[]]]]; done. }
  rewrite Hrc, filter_ne_prefixed, Hm1 in Hm2
    by (intros c; cbv [String.append]; done).
  apply merge_left_disjoint in Hm3; cycle 1.
  { intros c. rewrite Hwc, Hm2. simpl.
    intros [->|(x & -> & _)%list_elem_of_fmap]%elem_of_cons Hne; [done|].
    rewrite !elem_of_cons, list_elem_of_fmap. cbv [String.append target_col].
    intros [|[|[|(y & ? & _)]]]; done. }
  rewrite Hwc, filter_ne_prefixed, Hm2 in Hm3
    by (intros c; cbv [String.append]; done).
  apply sort_values_Ok in Hsort as (_ & Hc4 & _ & _).
  rewrite <- app_assoc in Hm3.
  assert (Hexo : filter (λ c, c ∉ ["date"; target_col])
                   (["date"; target_col; "brent_price"]
                      ++ ((λ c, "renewables_" +:+ c) <$> cr)
                      ++ ((λ c, "world_" +:+ c) <$> cw))
                 = "brent_price" :: ((λ c, "renewables_" +:+ c) <$> cr)
                      ++ ((λ c, "world_" +:+ c) <$> cw)).
  { cbn [app]. rewrite filter_cons, decide_False by (intros Hn; apply Hn; left).
    rewrite filter_cons, decide_False by (intros Hn; apply Hn; right; left).
    rewrite filter_cons, decide_True.
    2:{ rewrite !not_elem_of_cons. split_and!; [done|done|apply not_elem_of_nil]. }
    f_equal. rewrite filter_app. f_equal; apply filter_notin_prefixed;
      intros c; rewrite !not_elem_of_cons; cbv [String.append target_col];
      (split_and!; [done|done|apply not_elem_of_nil]). }
  unfold derive_features in Hder.
  assert (Hcf : columns (ffill d4)
                = ["date"; target_col; "brent_price"]
                    ++ ((λ c, "renewables_" +:+ c) <$> cr)
                    ++ ((λ c, "world_" +:+ c) <$> cw)).
  { cbn [ffill columns]. by rewrite Hc4. }
  rewrite Hcf, Hexo in Hder.
  intros c. cbn [dropna columns].
  rewrite (derive_columns _ _ _ Hder c), Hcf. unfold base. cbn [app].
  rewrite (elem_of_cons _ c "date"). tauto.
Qed.

Lemma assemble_rows world_df renew_df saudi_df brent_df df :
  assemble world_df renew_df saudi_df brent_df = Ok df →
  NoDup (date_column world_df) → NoDup (date_column renew_df) →
  NoDup (date_column brent_df) →
  strictly_ascending (date_column saudi_df) →
  (nrows df ≤ nrows saudi_df - 12)%nat.
Proof.
  intros (d1 & d2 & d3 & d4 & d6 & Hm1 & Hm2 & Hm3 & Hsort & Hder & ->)%assemble_Ok_inv
    Hw Hr Hb Hs.
  apply merge_left_dates in Hm1 as [Hin1 Hd1]; [|done].
  apply merge_left_dates in Hm2 as [Hin2 Hd2]; [|done].
  apply merge_left_dates in Hm3 as [Hin3 Hd3]; [|done].
  rewrite <- Hd1, <- Hd2, <- Hd3 in Hs.
  destruct (sort_values_Ok _ _ _ Hsort) as (_ & Hc4 & Hp4 & _).
  destruct (sort_values_dates _ _ Hsort Hs) as [Hin4 Hs4].
  destruct (derive_features_dates _ _ Hder) as [_ Hd6]; [done|].
  rewrite ffill_dates in Hd6 by apply Hs4.
  assert (Hn : nrows d6 = nrows saudi_df).
  { unfold nrows. rewrite <- (length_fmap (λ r, at_ r "date") (rows d6)).
    fold (date_column d6). rewrite Hd6. unfold date_column.
    rewrite length_fmap, Hp4.
    rewrite <- (length_fmap (λ r, at_ r "date") (rows d3)).
    fold (date_column d3). rewrite Hd3, Hd2, Hd1. unfold date_column.
    by rewrite length_fmap. }
  unfold derive_features in Hder.
  destruct (derive_spec _ _ _ Hder) as (_ & _ & _ & Hnew).
  destruct (Hnew target_col (Lag 12)) as (s & _ & _ & Hget).
  { left. }
  { intros col φ _ Hφ. apply base_not_feature_name; [reflexivity|done]. }
  { apply Lag_12_feature. }
  rewrite <- Hn. eapply dropna_leading; [exact Hget|].
  intros i Hi Hlen. by apply shift_leading.
Qed.

(** X10. The columns of a feature matrix the builder returns are: the
    date; the target, the Brent price, one [renewables_c] for every numeric
    column [c] of the cleaned renewables table and one [world_c] for every
    numeric column of the cleaned world-energy table; and the eleven lag
    and rolling columns of each of these.  There is no other column. *)
Theorem build_features_header (src : Sources) (log : list log_record)
    (df : DataFrame) :
  build_features src = (log, Ok df) →
  ∃ w r, world_clean src = Ok w ∧ renewables_clean src = Ok r ∧
    let base := [target_col; "brent_price"]
                  ++ ((λ c, "renewables_" +:+ c) <$> numeric_columns r)
                  ++ ((λ c, "world_" +:+ c) <$> numeric_columns w) in
    ∀ c, c ∈ columns df
         ↔ c = "date" ∨ c ∈ base
           ∨ ∃ v φ, v ∈ base ∧ φ ∈ features ∧ c = feature_name v φ.
Proof.
  unfold build_features. intros Hrun.
  destruct (load_required src) as [[[world_df renew_df] saudi_df]|e] eqn:Hload;
    [|by injection Hrun].
  pose proof Hload as Hload'. unfold load_required in Hload'.
  revert Hload'.
  intros (w & Hw & (wa & Hwa & (r & Hr & (ra & Hra
    & (s0 & _ & (s1 & _ & (s & Hs & Heq)%bind_Ok)%bind_Ok)%bind_Ok
      )%bind_Ok)%bind_Ok)%bind_Ok)%bind_Ok.
  injection Heq as <- <- <-.
  exists w, r. split_and!; [done|done|].
  apply groupby_sum_shape in Hwa as [Hwc _].
  apply groupby_sum_shape in Hra as [Hrc _].
  apply resample_columns in Hs.
  assert (Hgoal : ∀ brent_df,
            columns brent_df = ["date"; "brent_price"] →
            assemble wa ra s brent_df = Ok df →
            ∀ c, c ∈ columns df
                 ↔ c = "date"
                   ∨ c ∈ [target_col; "brent_price"]
                         ++ ((λ c, "renewables_" +:+ c) <$> numeric_columns r)
                         ++ ((λ c, "world_" +:+ c) <$> numeric_columns w)
                   ∨ ∃ v φ,
                       v ∈ [target_col; "brent_price"]
                           ++ ((λ c, "renewables_" +:+ c) <$> numeric_columns r)
                           ++ ((λ c, "world_" +:+ c) <$> numeric_columns w)
                       ∧ φ ∈ features ∧ c = feature_name v φ).
  { intros b Hb Hasm. by eapply assemble_columns. }
  destruct (brent_raw src ≫= prepare_brent) as [b|exc] eqn:Hbrent.
  - apply bind_Ok in Hbrent as (raw & _ & Hb).
    unfold prepare_brent in Hb.
    revert Hb.
    intros (dc & _ & (ds0 & _ & (ds1 & _ & (pc & _
      & (sel & _ & Hb)%bind_Ok)%bind_Ok)%bind_Ok)%bind_Ok)%bind_Ok.
    apply resample_columns in Hb.
    cbn [mbind result_bind] in Hrun.
    destruct (assemble wa ra s b) eqn:Hasm; [|by injection Hrun].
    injection Hrun as _ <-. by eapply Hgoal.
  - rewrite brent_placeholder_shape in Hrun by (rewrite Hs; left).
    cbn [mbind result_bind] in Hrun.
    destruct (assemble wa ra s _) eqn:Hasm; [|by injection Hrun].
    injection Hrun as _ <-. refine (Hgoal _ _ Hasm). reflexivity.
Qed.

(** X11. The lag of twelve months is missing in the first twelve rows, and
    rows with a missing value are dropped: the matrix has at most as many
    rows as the monthly production series has months after its first
    twelve. *)
Theorem build_features_drops_first_year (src : Sources) (log : list log_record)
    (df world_df renew_df saudi_df : DataFrame) :
  load_required src = Ok (world_df, renew_df, saudi_df) →
  build_features src = (log, Ok df) →
  (nrows df ≤ nrows saudi_df - 12)%nat.
Proof.
  intros Hload. unfold build_features. rewrite Hload. intros Hrun.
  apply load_required_dates in Hload as (Hw & Hr & Hsd & Hs).
  destruct (brent_raw src ≫= prepare_brent) as [b|exc] eqn:Hbrent.
  - apply bind_Ok in Hbrent as (raw & _ & Hb). apply prepare_brent_dates in Hb.
    cbn [mbind result_bind] in Hrun.
    destruct (assemble world_df renew_df saudi_df b) eqn:Hasm; [|by injection Hrun].
    injection Hrun as _ <-. by eapply assemble_rows.
  - destruct (brent_placeholder saudi_df) as [b|e] eqn:Hph;
      cbn [mbind result_bind] in Hrun; [|by injection Hrun].
    destruct (assemble world_df renew_df saudi_df b) eqn:Hasm; [|by injection Hrun].
    injection Hrun as _ <-. eapply assemble_rows; [done..| |done].
    rewrite (brent_placeholder_dates _ _ Hph). by apply strictly_ascending_NoDup.
Qed.
End header.

Lemma build_features_header_witness :
  ∃ log df, @build_features id_sqrt sources_example = (log, Ok df) ∧
    "world_value_lag_12" ∈ columns df.
Proof.
  pose proof (surjective_pairing (@build_features id_sqrt sources_example)) as Hrun.
  destruct (result_check (@build_features id_sqrt sources_example).2 (λ _, true))
    as (df & Hdf & _); [vm_compute; reflexivity|].
  rewrite Hdf in Hrun. eexists _, df. split; [exact Hrun|].
  destruct (@build_features_header id_sqrt sources_example _ df Hrun)
    as (w & r & Hw & Hr & Hcols).
  injection Hw as <-. injection Hr as <-.
  apply Hcols. do 2 right. exists "world_value", (Lag 12).
  split_and!; [|apply Lag_12_feature|reflexivity].
  vm_compute. do 4 right. left.
Defined.

Lemma build_features_drops_first_year_witness :
  ∃ log df saudi_df,
    @build_features id_sqrt sources_example = (log, Ok df) ∧
    nrows saudi_df = 13%nat ∧ (nrows df ≤ 1)%nat.
Proof.
  pose proof (surjective_pairing (@build_features id_sqrt sources_example)) as Hrun.
  destruct (result_check (@build_features id_sqrt sources_example).2 (λ _, true))
    as (df & Hdf & _); [vm_compute; reflexivity|].
  rewrite Hdf in Hrun.
  destruct (result_check (load_required sources_example)
              (λ '(_, _, s), bool_decide (nrows s = 13%nat)))
    as ([[w r] s] & Hload & Hn); [vm_compute; reflexivity|].
  apply bool_decide_eq_true in Hn.
  eexists _, df, s. split_and!; [exact Hrun|exact Hn|].
  pose proof (@build_features_drops_first_year id_sqrt sources_example _ df w r s
                Hload Hrun) as Hle.
  rewrite Hn in Hle. exact Hle.
Defined.

(** * Further properties of the forecaster *)

Lemma mapM_result_Ok {A B} (f : A → result B) (l : list A) (k : list B) :
  mapM f l = Ok k → Forall2 (λ x y, f x = Ok y) l k.
Proof.
  revert k. induction l as [|x l IH]; intros k.
  { intros [= <-]. constructor. }
  cbn [mapM]. intros (y & Hy & (k' & Hk' & [= <-])%bind_Ok)%bind_Ok.
  constructor; [done|by apply IH].
Qed.



Lemma prefix_app_inv (t v s : string) :
  String.prefix t (v +:+ s) = true →
  String.prefix t v = true ∨ overlaps t s = true.
Proof.
  revert t. induction v as [|b v IH]; intros [|a t]; simpl; try by left.
  - intros Hp. right. change (String.prefix (String a t) s = true) in Hp.
    by rewrite Hp.
  - change (String b v +:+ s) with (String b (v +:+ s)). simpl.
    destruct (ascii_dec a b) as [->|?]; [|done].
    intros [?|Ho]%IH; [by left|]. right. rewrite Ho. apply orb_true_r.
Qed.

Lemma target_prefix_feature_name c φ :
  φ ∈ features →
  String.prefix target_col (feature_name c φ) = true →
  String.prefix target_col c = true.
Proof.
  intros Hφ [?|Ho]%prefix_app_inv; [done|]. exfalso.
  assert (Hall : forallb (λ φ, negb (overlaps target_col (feature_suffix φ))) features
                 = true) by (vm_compute; reflexivity).
  rewrite forallb_forall in Hall. apply list_elem_of_In, Hall in Hφ.
  by rewrite Ho in Hφ.
Qed.

Lemma longest_elem (l : list string) :
  l ≠ [] → ∃ x, x ∈ l ∧ ∀ y, y ∈ l → (String.length y ≤ String.length x)%nat.
Proof.
  induction l as [|a l IH]; [done|]. intros _.
  destruct l as [|b l].
  { exists a. split; [left|]. by intros y ->%list_elem_of_singleton. }
  destruct IH as (x & Hx & Hmax); [done|].
  destruct (decide (String.length x ≤ String.length a)%nat).
  - exists a. split; [left|]. intros y [->|Hy]%elem_of_cons; [done|].
    specialize (Hmax y Hy). lia.
  - exists x. split; [by right|]. intros y [->|Hy]%elem_of_cons; [lia|auto].
Qed.

Section forecaster.
Context `{FloatSqrt}.

(** What [_prepare_inputs] goes through when it returns a matrix. *)
Lemma prepare_inputs_Ok_inv self base_df dates scenario X :
  _prepare_inputs self base_df dates scenario = Ok X →
  ∃ bs combined T,
    sort_values base_df "date" = Ok bs ∧
    combined_sorted base_df dates scenario = Ok (bs, combined) ∧
    recomputed base_df dates scenario = Ok T ∧
    derive combined
      ([target_col] ++ filter (λ c, c ∉ ["date"; target_col]) (columns base_df)) = Ok T ∧
    nrows combined = (nrows base_df + length dates)%nat ∧
    columns combined = columns base_df ∧
    rows X = filter (λ r, at_ r "date" ∈ Ts <$> dates) (rows (dropna T)) ∧
    match feature_columns self with
    | Some cols => columns X = cols ∧ ∀ c, c ∈ cols → c ∈ columns T
    | None =>
        columns X
        = filter (λ c, c ∉ ["date"; target_col]
                           ++ filter (λ c, String.prefix target_col c) (columns T))
                 (columns T)
    end.
Proof.
  unfold _prepare_inputs.
  intros (T & Hrec & (pred_df & Hpred & Hsel)%bind_Ok)%bind_Ok.
  pose proof Hrec as Hrec'. unfold recomputed in Hrec'.
  apply bind_Ok in Hrec' as ([bs combined] & Hcs & Hder).
  pose proof Hcs as Hcs'. unfold combined_sorted in Hcs'. revert Hcs'.
  intros (bs' & Hsort1 & (last_row & Hlast & (cmb & Hsort2 & Heq)%bind_Ok)%bind_Ok)%bind_Ok.
  injection Heq as -> ->.
  destruct (sort_values_Ok _ _ _ Hsort1) as (_ & Hc1 & Hp1 & _).
  destruct (sort_values_Ok _ _ _ Hsort2) as (_ & _ & Hp2 & _).
  destruct (combined_sorted_Ok _ _ _ _ _ Hcs) as (_ & _ & _ & _ & Hcc & _).
  rewrite Hc1 in Hder.
  unfold filter_isin in Hpred. apply bind_Ok in Hpred as (? & _ & [= <-]).
  exists bs, combined, T. split_and!; [done..| | | |].
  - unfold nrows. rewrite Hp2. unfold concat, DataFrame_of_rows. cbn [rows].
    rewrite length_app, Hp1. f_equal.
    destruct (imap _ dates) eqn:Himap; cbn [rows]; rewrite <- Himap;
      by rewrite length_imap.
  - done.
  - destruct (feature_columns self) as [cols|].
    + unfold select in Hsel. destruct (filter _ cols); [|done]. by injection Hsel as <-.
    + unfold drop_columns in Hsel. destruct (filter _ _); [|done].
      by injection Hsel as <-.
  - destruct (feature_columns self) as [cols|].
    + unfold select in Hsel. cbn [columns] in Hsel.
      destruct (filter _ cols) eqn:Hf; [|done]. injection Hsel as <-.
      split; [done|]. intros c Hc.
      destruct (decide (c ∈ columns T)) as [|Hn]; [done|].
      assert (c ∈ filter (λ c, c ∉ columns T) cols) as Hin
        by (by apply list_elem_of_filter).
      rewrite Hf in Hin. by apply elem_of_nil in Hin.
    + unfold drop_columns in Hsel. cbn [columns dropna] in Hsel.
      destruct (filter _ _); [|done]. by injection Hsel as <-.
Qed.

Lemma prepare_inputs_short self base_df dates scenario X :
  (nrows base_df + length dates ≤ 12)%nat →
  _prepare_inputs self base_df dates scenario = Ok X → rows X = [].
Proof.
  intros Hshort (bs & combined & T & _ & _ & _ & Hder & Hn & _ & Hrows & _)%prepare_inputs_Ok_inv.
  destruct (derive_spec _ _ _ Hder) as (HnT & _ & _ & Hnew).
  destruct (Hnew target_col (Lag 12)) as (s & _ & _ & Hget).
  { left. }
  { intros col φ _ Hφ. apply base_not_feature_name; [reflexivity|done]. }
  { apply Lag_12_feature. }
  assert (Hdrop : (nrows (dropna T) ≤ nrows T - 12)%nat).
  { eapply dropna_leading; [exact Hget|]. intros i Hi Hlen. by apply shift_leading. }
  assert (Hnil : rows (dropna T) = []).
  { apply length_zero_iff_nil. unfold nrows in *. lia. }
  by rewrite Hrows, Hnil.
Qed.

(** X12. With twelve rows or fewer in all, history and requested dates
    together, no row has its lag of twelve months: every row is dropped,
    and [predict] returns an empty list, not an error. *)
Theorem predict_short_history (self : Forecaster) (base_df : DataFrame)
    (dates : list string) (scenario : option (gmap string (list cell)))
    (preds : list Q) :
  (nrows base_df + length dates ≤ 12)%nat →
  predict self base_df dates scenario = Ok preds →
  preds = [].
Proof.
  intros Hshort. unfold predict.
  intros (dp & Hdp & (X & HX & [= <-])%bind_Ok)%bind_Ok.
  apply mapM_result_Ok, Forall2_length in Hdp.
  apply prepare_inputs_short in HX; [|lia].
  unfold model_predict. by rewrite HX.
Qed.



(** X15. The model is never given a missing value: a row of the
    prediction matrix has a value in every column of the matrix. *)
Theorem prepare_inputs_no_missing (self : Forecaster) (base_df : DataFrame)
    (dates : list Timestamp) (scenario : gmap string (list cell)) (X : DataFrame) :
  _prepare_inputs self base_df dates scenario = Ok X →
  ∀ r c, r ∈ rows X → c ∈ columns X →
    at_ r c ≠ NaN ∧ at_ r "date" ∈ Ts <$> dates.
Proof.
  intros (bs & combined & T & _ & _ & _ & _ & _ & _ & Hrows & Hcols)%prepare_inputs_Ok_inv
    r c Hr Hc.
  rewrite Hrows in Hr. apply list_elem_of_filter in Hr as [Hdate Hr].
  split; [|done]. apply (dropna_notna T); [done|]. cbn [dropna columns].
  destruct (feature_columns self) as [cols|].
  - destruct Hcols as [Heq Hsub]. rewrite Heq in Hc. by apply Hsub.
  - rewrite Hcols in Hc. by apply list_elem_of_filter in Hc as [_ ?].
Qed.

(** X16. Without a model signature the prediction matrix is not the
    training matrix.  For every column the models are trained on it has
    the column and the eleven lag and rolling columns recomputed from it;
    so, as soon as there is a training column, it has a column that the
    feature matrix does not have at all. *)
Theorem fallback_matrix_is_wider (self : Forecaster) (base_df : DataFrame)
    (dates : list Timestamp) (scenario : gmap string (list cell)) (X : DataFrame) :
  feature_columns self = None →
  _prepare_inputs self base_df dates scenario = Ok X →
  (∀ c, c ∈ train.feature_cols (columns base_df) →
     c ∈ columns X ∧ ∀ φ, φ ∈ features → feature_name c φ ∈ columns X)
  ∧ (train.feature_cols (columns base_df) ≠ [] →
     ∃ c, c ∈ columns X ∧ c ∉ columns base_df).
Proof.
  intros Hnone (bs & combined & T & _ & _ & _ & Hder & _ & Hcc & _ & Hcols)%prepare_inputs_Ok_inv.
  rewrite Hnone in Hcols.
  pose proof (derive_columns _ _ _ Hder) as HT.
  assert (Hkeep : ∀ c, c ∈ columns T → c ≠ "date" → c ≠ target_col →
            String.prefix target_col c = false → c ∈ columns X).
  { intros c Hc Hd Ht Hp. rewrite Hcols. apply list_elem_of_filter. split; [|done].
    rewrite elem_of_app, !elem_of_cons, elem_of_nil, list_elem_of_filter.
    intros [[?|[?|[]]]|[Hp' _]]; try done. by rewrite Hp in Hp'. }
  assert (Hfc : ∀ c, c ∈ train.feature_cols (columns base_df) →
            c ∈ columns base_df ∧ c ≠ "date" ∧ c ≠ target_col ∧
            String.prefix target_col c = false).
  { intros c [[Hn Hp] Hc]%list_elem_of_filter.
    rewrite !not_elem_of_cons in Hn. destruct Hn as (? & ? & _).
    split_and!; [done..|]. by destruct (String.prefix target_col c). }
  assert (Hfeat : ∀ c φ, c ∈ train.feature_cols (columns base_df) → φ ∈ features →
            feature_name c φ ∈ columns X).
  { intros c φ (Hc & Hd & Ht & Hp)%Hfc Hφ. apply Hkeep.
    - apply HT. right. exists c, φ. split_and!; [|done..].
      apply elem_of_app. right. apply list_elem_of_filter. split; [|done].
      rewrite !not_elem_of_cons. split_and!; [done|done|apply not_elem_of_nil].
    - intros Heq. by eapply date_not_feature_name.
    - intros Heq. symmetry in Heq. revert Heq.
      apply base_not_feature_name; [reflexivity|done].
    - destruct (String.prefix target_col (feature_name c φ)) eqn:Hpf; [|done].
      apply target_prefix_feature_name in Hpf; [|done]. congruence. }
  split.
  - intros c Hc. split; [|by auto].
    destruct (Hfc c Hc) as (Hcb & Hd & Ht & Hp). apply Hkeep; [|done..].
    apply HT. left. by rewrite Hcc.
  - intros Hne. destruct (longest_elem _ Hne) as (c & Hc & Hmax).
    exists (feature_name c (Lag 1)). split; [apply Hfeat; [done|apply Lag_1_feature]|].
    intros Hin.
    assert (Hin' : feature_name c (Lag 1) ∈ train.feature_cols (columns base_df)).
    { destruct (Hfc c Hc) as (Hcb & Hd & Ht & Hp).
      apply list_elem_of_filter. split; [|done]. split.
      - rewrite !not_elem_of_cons. split_and!; [| |apply not_elem_of_nil].
        + intros Heq. symmetry in Heq. revert Heq.
          apply date_not_feature_name, Lag_1_feature.
        + intros Heq. symmetry in Heq. revert Heq.
          apply base_not_feature_name; [reflexivity|apply Lag_1_feature].
      - intros Hpf%Is_true_true.
        apply target_prefix_feature_name in Hpf; [|apply Lag_1_feature]. congruence. }
    specialize (Hmax _ Hin'). unfold feature_name in Hmax.
    rewrite app_length_string in Hmax. simpl in Hmax. lia.
Qed.
End forecaster.

Lemma predict_short_history_witness :
  @predict id_sqrt first_input_model short_history ["2026-01-01"] None = Ok [].
Proof.
  destruct (result_check
              (@predict id_sqrt first_input_model short_history ["2026-01-01"] None)
              (λ _, true)) as (preds & Hrun & _); [vm_compute; reflexivity|].
  rewrite Hrun. f_equal.
  apply (@predict_short_history id_sqrt first_input_model short_history
           ["2026-01-01"] None preds); [vm_compute; lia|exact Hrun].
Defined.



Lemma prepare_inputs_no_missing_witness :
  ∃ X, @_prepare_inputs id_sqrt first_input_model history_example
         [month_start 24312] ∅ = Ok X ∧
    nrows X = 1%nat ∧
    ∀ r c, r ∈ rows X → c ∈ columns X →
      at_ r c ≠ NaN ∧ at_ r "date" ∈ Ts <$> [month_start 24312].
Proof.
  destruct (result_check
              (@_prepare_inputs id_sqrt first_input_model history_example
                 [month_start 24312] ∅)
              (λ X, bool_decide (nrows X = 1%nat))) as (X & Hrun & Hn);
    [vm_compute; reflexivity|].
  exists X. split_and!; [exact Hrun|by apply bool_decide_eq_true in Hn|].
  exact (@prepare_inputs_no_missing id_sqrt first_input_model history_example
           [month_start 24312] ∅ X Hrun).
Defined.

Lemma fallback_matrix_is_wider_witness :
  ∃ X c, @_prepare_inputs id_sqrt first_input_model history_example
           [month_start 24312] ∅ = Ok X ∧
    "brent_price_roll_std_12" ∈ columns X ∧
    c ∈ columns X ∧ c ∉ columns history_example.
Proof.
  destruct (result_check
              (@_prepare_inputs id_sqrt first_input_model history_example
                 [month_start 24312] ∅) (λ _, true)) as (X & Hrun & _);
    [vm_compute; reflexivity|].
  destruct (@fallback_matrix_is_wider id_sqrt first_input_model history_example
              [month_start 24312] ∅ X eq_refl Hrun) as [Hall Hnew].
  destruct Hnew as (c & Hc & Hn); [vm_compute; discriminate|].
  exists X, c. split_and!; [exact Hrun| |exact Hc|exact Hn].
  destruct (Hall "brent_price") as [_ Hf].
  - vm_compute. left.
  - apply (Hf (Roll "std" 12)). vm_compute. do 10 right. left.
Defined.

(** * Further properties of the registry and of the API *)

(** ** The registry *)

Lemma prefix_cons (c d : ascii) (a b : string) :
  String.prefix (String c a) (String d b)
    = if ascii_dec c d then String.prefix a b else false.
Proof. done. Qed.

Lemma prefix_app_same (l a b : string) :
  String.prefix (l +:+ a) (l +:+ b) = String.prefix a b.
Proof.
  induction l as [|c l IH]; [done|].
  change (String.prefix (String c (l +:+ a)) (String c (l +:+ b)) = String.prefix a b).
  rewrite prefix_cons. by destruct (ascii_dec c c).
Qed.

Lemma prefix_app_self (a b : string) : String.prefix a (a +:+ b) = true.
Proof.
  induction a as [|c a IH]; [by destruct b|].
  change (String.prefix (String c a) (String c (a +:+ b)) = true).
  rewrite prefix_cons. by destruct (ascii_dec c c).
Qed.

Lemma string_app_assoc (a b c : string) : (a +:+ b) +:+ c = a +:+ b +:+ c.
Proof.
  induction a as [|x a IH]; [done|].
  change (String x ((a +:+ b) +:+ c) = String x (a +:+ b +:+ c)). by f_equal.
Qed.

Lemma no_underscore_pretty_N_go (x : N) (s : string) :
  no_underscore s = true → no_underscore (pretty_N_go x s) = true.
Proof.
  revert s. induction (N.lt_wf_0 x) as [x _ IH]; intros s Hs.
  assert (x = 0 ∨ 0 < x)%N as [->|?] by lia.
  - by rewrite pretty_N_go_0.
  - rewrite pretty_N_go_step by done. apply IH.
    { by apply N.div_lt. }
    simpl. rewrite Hs. unfold pretty_N_char. by repeat case_match.
Qed.

Lemma no_underscore_pretty_Z (z : Z) : no_underscore (pretty z) = true.
Proof.
  assert (HN : ∀ n : N, no_underscore (pretty n) = true).
  { intros n. unfold pretty, pretty_N. case_decide; [done|].
    by apply no_underscore_pretty_N_go. }
  destruct z as [|p|p]; [done|apply HN|].
  unfold pretty, pretty_Z.
  change (no_underscore (String "-" (pretty (N.pos p))) = true).
  simpl. apply HN.
Qed.

Lemma no_underscore_cons (c : ascii) (a : string) :
  no_underscore (String c a) = true → c ≠ "_"%char ∧ no_underscore a = true.
Proof.
  cbn [no_underscore]. intros [Hc Ha]%andb_true_iff. split; [|done].
  intros ->. done.
Qed.

Lemma prefix_underscore_inj (a b x y : string) :
  no_underscore a = true → no_underscore b = true →
  String.prefix (a +:+ "_" +:+ x) (b +:+ "_" +:+ y) = true → a = b.
Proof.
  revert b. induction a as [|c a IH]; intros [|d b] Ha Hb Hp; [done|..].
  - apply no_underscore_cons in Hb as [Hd _].
    change (String.prefix (String "_" x) (String d (b +:+ "_" +:+ y)) = true) in Hp.
    rewrite prefix_cons in Hp. destruct (ascii_dec "_" d) as [Heq|?]; [|done].
    by destruct Hd.
  - apply no_underscore_cons in Ha as [Hc _].
    change (String.prefix (String c (a +:+ "_" +:+ x)) (String "_" y) = true) in Hp.
    rewrite prefix_cons in Hp. destruct (ascii_dec c "_") as [Heq|?]; [|done].
    by destruct Hc.
  - apply no_underscore_cons in Ha as [_ Ha].
    apply no_underscore_cons in Hb as [_ Hb].
    change (String.prefix (String c (a +:+ "_" +:+ x)) (String d (b +:+ "_" +:+ y))
            = true) in Hp.
    rewrite prefix_cons in Hp. destruct (ascii_dec c d) as [->|?]; [|done].
    f_equal. by eapply IH.
Qed.

Lemma model_prefix_horizon (h h' : Z) (model_type : string) :
  String.prefix (model_prefix h) (registered_model_name h' model_type) = true
  ↔ h = h'.
Proof.
  unfold model_prefix, registered_model_name. rewrite prefix_app_same. split.
  - intros Hp. apply (inj pretty).
    apply (prefix_underscore_inj _ _ "" model_type);
      [apply no_underscore_pretty_Z..|done].
  - intros ->. rewrite <- string_app_assoc. apply prefix_app_self.
Qed.

Lemma model_prefix_nonempty h : model_prefix h ≠ "".
Proof. unfold model_prefix. cbv [String.append]. done. Qed.

(** X17. [Forecaster(h)] and [list_models] agree: the forecaster loads the
    first name that [list_models] reports for the prefix of the horizon,
    and raises [RuntimeError] exactly when [list_models] reports none. *)
Theorem load_model_is_first_listed (client : mlflow.Client) (stage : string)
    (h : Z) (models : list mlflow.RegisteredModel) :
  mlflow.list_registered_models client = Ok models →
  ∃ names,
    registry.list_models client (Some (model_prefix h)) stage = Ok names ∧
    _load_model client stage h =
      match names with
      | [] => Raise (RuntimeError ("No model found for horizon " +:+ pretty h
                                     +:+ " in stage " +:+ stage))
      | name :: _ => load_registered client stage h name
      end.
Proof.
  intros Hm. unfold registry.list_models, _load_model. rewrite Hm.
  cbn [mbind result_bind]. eexists. split; [done|].
  pose proof (model_prefix_nonempty h) as Hne. clear Hm.
  induction models as [|rm models IH]; [done|].
  cbn [_load_model_loop registry.list_models_loop].
  destruct (model_prefix h) as [|c p] eqn:Hp; [done|].
  destruct (negb (String.prefix (String c p) (mlflow.name rm))); [exact IH|].
  destruct (in_stage stage rm); [done|exact IH].
Qed.

Lemma load_model_is_first_listed_witness :
  let client :=
    mlflow.mkClient
      (Ok [mlflow.mkRegisteredModel "gcc_oil_forecast_h10_lightgbm"
             [mlflow.mkModelVersion "r0" "1" "Production" "s0"];
           mlflow.mkRegisteredModel "gcc_oil_forecast_h1_elasticnet"
             [mlflow.mkModelVersion "r1" "3" "Production" "s1"]])
      (λ _ _, Ok []) (λ _, Ok (λ _, 0%Q)) (λ _, Ok None) in
  registry.list_models client (Some (model_prefix 1)) "Production"
    = Ok ["gcc_oil_forecast_h1_elasticnet"]
  ∧ _load_model client "Production" 1
    = load_registered client "Production" 1 "gcc_oil_forecast_h1_elasticnet".
Proof.
  intros client.
  destruct (load_model_is_first_listed client "Production" 1 _ eq_refl)
    as (names & Hl & Hload).
  vm_compute in Hl. injection Hl as <-. split; [reflexivity|exact Hload].
Defined.

Lemma load_model_loop_Ok client stage h models fc :
  _load_model_loop client stage h models = Ok fc →
  ∃ rm, rm ∈ models ∧
    String.prefix (model_prefix h) (mlflow.name rm) = true ∧
    in_stage stage rm = true ∧
    load_registered client stage h (mlflow.name rm) = Ok fc.
Proof.
  induction models as [|rm models IH]; [done|]. cbn [_load_model_loop].
  destruct (String.prefix (model_prefix h) (mlflow.name rm)) eqn:Hp; cbn [negb].
  - destruct (in_stage stage rm) eqn:Hs.
    + intros Hl. exists rm. split_and!; [left|done..].
    + intros (rm' & ? & ?)%IH. exists rm'. split; [by right|done].
  - intros (rm' & ? & ?)%IH. exists rm'. split; [by right|done].
Qed.

(** X18. A forecaster for horizon [h] is loaded from a model registered
    for horizon [h]: when the registry holds the names that the training
    registers, [gcc_oil_forecast_h{h'}_{model_type}], the model loaded for
    [h] has [h' = h], it has a version in the stage, and the forecaster
    keeps the horizon.  The underscore after the number is what keeps
    horizon 1 from loading the model of horizon 10. *)
Theorem load_model_own_horizon (client : mlflow.Client) (stage : string) (h : Z)
    (models : list mlflow.RegisteredModel) (fc : Forecaster) :
  mlflow.list_registered_models client = Ok models →
  (∀ rm, rm ∈ models →
     ∃ h' model_type, mlflow.name rm = registered_model_name h' model_type) →
  _load_model client stage h = Ok fc →
  horizon fc = h ∧
  ∃ rm model_type, rm ∈ models ∧
    mlflow.name rm = registered_model_name h model_type ∧
    in_stage stage rm = true ∧
    load_registered client stage h (registered_model_name h model_type) = Ok fc.
Proof.
  intros Hm Hnames. unfold _load_model. rewrite Hm. cbn [mbind result_bind].
  intros (rm & Hrm & Hp & Hs & Hl)%load_model_loop_Ok.
  destruct (Hnames rm Hrm) as (h' & mt & Hn). rewrite Hn in Hp, Hl.
  apply model_prefix_horizon in Hp as <-. split.
  - unfold load_registered in Hl. apply bind_Ok in Hl as (m & _ & [= <-]). done.
  - exists rm, mt. by rewrite Hn.
Qed.

Lemma load_model_own_horizon_witness :
  let client :=
    mlflow.mkClient
      (Ok [mlflow.mkRegisteredModel (registered_model_name 10 "lightgbm")
             [mlflow.mkModelVersion "r0" "1" "Production" "s0"];
           mlflow.mkRegisteredModel (registered_model_name 1 "elasticnet")
             [mlflow.mkModelVersion "r1" "3" "Production" "s1"]])
      (λ _ _, Ok []) (λ _, Ok (λ _, 0%Q)) (λ _, Ok None) in
  ∃ fc, _load_model client "Production" 1 = Ok fc ∧ horizon fc = 1 ∧
    ∃ rm model_type, rm ∈ [mlflow.mkRegisteredModel (registered_model_name 10 "lightgbm")
             [mlflow.mkModelVersion "r0" "1" "Production" "s0"];
           mlflow.mkRegisteredModel (registered_model_name 1 "elasticnet")
             [mlflow.mkModelVersion "r1" "3" "Production" "s1"]] ∧
      mlflow.name rm = registered_model_name 1 model_type.
Proof.
  intros client.
  destruct (result_check (_load_model client "Production" 1) (λ _, true))
    as (fc & Hrun & _); [vm_compute; reflexivity|].
  destruct (load_model_own_horizon client "Production" 1 _ fc eq_refl) as (Hh & rm & mt & Hrm & Hn & _).
  - intros rm [->|[->|[]%elem_of_nil]%elem_of_cons]%elem_of_cons;
      [by exists 10, "lightgbm"|by exists 1, "elasticnet"].
  - exact Hrun.
  - exists fc. split_and!; [exact Hrun|exact Hh|]. by exists rm, mt.
Defined.

(** ** The endpoints *)

(** X19. [/model/{h}/info] answers 404 for every horizon and every content
    of the registry: the handler calls [get_model_metadata] with a keyword
    [prefix] that the function does not have, the call raises [TypeError]
    before the registry is asked, and the handler turns every exception
    into a 404. *)
Theorem model_info_always_404 (client : mlflow.Client) (stage : string) (h : Z) :
  model_info client stage h = Http.mk 404 None
  ∧ get_model_metadata_kw client stage [("prefix", "gcc_oil_forecast_h" +:+ pretty h)]
    = Raise TypeError.
Proof. done. Qed.

Section endpoint_properties.
Context `{FloatSqrt}.




Lemma forecaster_predict_Ok svc fc ds sc t preds :
  forecaster_predict svc fc ds sc = (t, Ok preds) →
  t = [ModelPredict] ∧
  ∃ dp base_df X,
    mapM to_datetime ds = Ok dp ∧ features_csv svc = Ok base_df ∧
    _prepare_inputs fc base_df dp (match sc with None => ∅ | Some s => s end) = Ok X ∧
    preds = model_predict fc X.
Proof.
  unfold forecaster_predict.
  destruct (_ ≫= _) as [X|e] eqn:Hrun; [|done]. intros [= <- <-]. split; [done|].
  apply bind_Ok in Hrun as (dp & Hdp & (b & Hb & HX)%bind_Ok).
  by exists dp, b, X.
Qed.



(** X23. With a history of eleven months or fewer, [/whatif] never
    answers 200: the baseline prediction list is empty, taking its first
    element raises, and every request that passes validation is answered
    500. *)
Theorem what_if_short_history (svc : Service) (req : WhatIfRequest.t)
    (base_df : DataFrame) :
  features_csv svc = Ok base_df → (nrows base_df < 12)%nat →
  ∃ trace,
    post_whatif svc req
      = (trace, Http.mk (if WhatIfRequest.validate req then 500 else 422) None)
    ∧ (trace = [] ∨ trace = [LoadModel 1] ∨ trace = [LoadModel 1; ModelPredict]).
Proof.
  intros Hcsv Hshort. unfold post_whatif.
  destruct (WhatIfRequest.validate req); [|eexists; split; [done|by left]].
  unfold what_if_body. destruct (registry svc 1) as [fc|e] eqn:Hreg;
    [|eexists; split; [done|right; by left]].
  destruct (forecaster_predict svc fc [WhatIfRequest.date req] None)
    as [t1 [[|b rest]|e]] eqn:H1.
  - apply forecaster_predict_Ok in H1 as [-> _].
    eexists; split; [done|right; by right].
  - exfalso. apply forecaster_predict_Ok in H1
      as (_ & dp & b0 & X & Hdp & Hb & HX & Hp).
    rewrite Hcsv in Hb. injection Hb as <-.
    apply mapM_result_Ok, Forall2_length in Hdp.
    apply prepare_inputs_short in HX; [|simpl in Hdp; lia].
    unfold model_predict in Hp. by rewrite HX in Hp.
  - unfold forecaster_predict in H1. destruct (_ ≫= _); [done|].
    injection H1 as <- _. eexists; split; [done|right; by left].
Qed.
End endpoint_properties.




Lemma what_if_short_history_witness :
  ∃ trace,
    @post_whatif id_sqrt (mkService (λ _, Ok first_input_model) (Ok short_history))
        (WhatIfRequest.mk "2026-01-01" "brent_price" [70%Q])
      = (trace, Http.mk 500 None)
    ∧ (trace = [] ∨ trace = [LoadModel 1] ∨ trace = [LoadModel 1; ModelPredict]).
Proof.
  apply (@what_if_short_history id_sqrt
           (mkService (λ _, Ok first_input_model) (Ok short_history))
           (WhatIfRequest.mk "2026-01-01" "brent_price" [70%Q]) short_history).
  - reflexivity.
  - vm_compute. lia.
Defined.

(** * Properties of the cleaning helpers *)

Lemma standardise_label_map c :
  standardise_label c = string_map standardise_char (strip c).
Proof.
  unfold standardise_label. induction (strip c) as [|a s IH]; [done|].
  cbn [lower replace_char string_map]. by rewrite IH.
Qed.

Lemma all_ascii (P : ascii → Prop) :
  (∀ n, (n < 256)%nat → P (ascii_of_nat n)) → ∀ a, P a.
Proof.
  intros HP a. rewrite <- (ascii_nat_embedding a). apply HP, nat_ascii_bounded.
Qed.

Lemma forall_below (P : nat → bool) (k : nat) :
  forallb P (seq 0 k) = true → ∀ n, (n < k)%nat → P n = true.
Proof.
  rewrite forallb_forall. intros HP n Hn. apply HP, in_seq. lia.
Qed.

Lemma standardise_char_facts (a : ascii) :
  standardise_char (standardise_char a) = standardise_char a ∧
  (is_space (standardise_char a) = true → is_space a = true) ∧
  Ascii.eqb (standardise_char a) " " = false ∧
  Ascii.eqb (standardise_char a) "/" = false ∧
  is_upper (standardise_char a) = false.
Proof.
  revert a. apply all_ascii. intros n Hn.
  assert (Hall : forallb (λ n,
            let a := ascii_of_nat n in
            Ascii.eqb (standardise_char (standardise_char a)) (standardise_char a)
            && implb (is_space (standardise_char a)) (is_space a)
            && negb (Ascii.eqb (standardise_char a) " ")
            && negb (Ascii.eqb (standardise_char a) "/")
            && negb (is_upper (standardise_char a))) (seq 0 256) = true)
    by (vm_compute; reflexivity).
  pose proof (forall_below _ _ Hall n Hn) as Hc. cbv zeta in Hc.
  repeat (apply andb_true_iff in Hc as [Hc ?]).
  apply Ascii.eqb_eq in Hc.
  split_and!; [done| |by apply negb_true_iff..].
  intros Hs. rewrite Hs in *. done.
Qed.

Lemma lstrip_fixed_head (a : ascii) (s : string) :
  lstrip (String a s) = String a s → is_space a = false.
Proof.
  cbn [lstrip]. destruct (is_space a); [|done]. intros Heq. exfalso.
  assert (Hlen : ∀ t, (String.length (lstrip t) ≤ String.length t)%nat).
  { clear. induction t as [|b t IH]; [done|]. cbn [lstrip].
    destruct (is_space b); simpl; lia. }
  specialize (Hlen s). rewrite Heq in Hlen. simpl in Hlen. lia.
Qed.

Lemma lstrip_map (g : ascii → ascii) (s : string) :
  (∀ a, is_space (g a) = true → is_space a = true) →
  lstrip s = s → lstrip (string_map g s) = string_map g s.
Proof.
  intros Hg. destruct s as [|a s]; [done|]. intros Ha%lstrip_fixed_head.
  cbn [string_map lstrip]. destruct (is_space (g a)) eqn:Hga; [|done].
  apply Hg in Hga. congruence.
Qed.

Lemma string_map_nil_inv g s : string_map g s = "" → s = "".
Proof. by destruct s. Qed.

Lemma rstrip_map (g : ascii → ascii) (s : string) :
  (∀ a, is_space (g a) = true → is_space a = true) →
  rstrip s = s → rstrip (string_map g s) = string_map g s.
Proof.
  intros Hg. induction s as [|a s IH]; [done|].
  cbn [rstrip string_map]. destruct (rstrip s) as [|b t] eqn:Hr.
  - destruct (is_space a) eqn:Ha; [done|]. intros [= <-].
    cbn [string_map rstrip]. destruct (is_space (g a)) eqn:Hga; [|done].
    apply Hg in Hga. congruence.
  - intros [= <-]. rewrite IH by done. done.
Qed.

Lemma rstrip_idemp s : rstrip (rstrip s) = rstrip s.
Proof.
  induction s as [|a s IH]; [done|]. cbn [rstrip].
  destruct (rstrip s) as [|b t] eqn:Hr.
  - destruct (is_space a) eqn:Ha; [done|]. cbn [rstrip]. by rewrite Ha.
  - cbn [rstrip] in IH |- *. change (rstrip (String a (String b t))) with
      (match rstrip (String b t) with
       | "" => if is_space a then "" else String a ""
       | t' => String a t'
       end). rewrite IH. done.
Qed.

Lemma lstrip_idemp s : lstrip (lstrip s) = lstrip s.
Proof.
  induction s as [|a s IH]; [done|]. cbn [lstrip].
  destruct (is_space a) eqn:Ha; [done|]. cbn [lstrip]. by rewrite Ha.
Qed.

Lemma lstrip_rstrip s : lstrip s = s → lstrip (rstrip s) = rstrip s.
Proof.
  destruct s as [|a s]; [done|]. intros Ha%lstrip_fixed_head.
  cbn [rstrip]. destruct (rstrip s); rewrite ?Ha; cbn [lstrip]; by rewrite Ha.
Qed.

Lemma strip_fixed c : lstrip (strip c) = strip c ∧ rstrip (strip c) = strip c.
Proof.
  unfold strip. split; [apply lstrip_rstrip, lstrip_idemp|apply rstrip_idemp].
Qed.

Lemma string_map_compose g s :
  (∀ a, g (g a) = g a) → string_map g (string_map g s) = string_map g s.
Proof. intros Hg. induction s as [|a s IH]; [done|]. simpl. by rewrite Hg, IH. Qed.

(** X24. Normalising a label is idempotent, and leaves no space, no
    slash and no capital letter in it. *)
Theorem standardise_label_idempotent (c : string) :
  standardise_label (standardise_label c) = standardise_label c ∧
  string_forall (λ a, negb (Ascii.eqb a " ") && negb (Ascii.eqb a "/")
                      && negb (is_upper a)) (standardise_label c) = true.
Proof.
  rewrite !standardise_label_map. destruct (strip_fixed c) as [Hl Hr].
  set (s := strip c) in *. clearbody s. split.
  - assert (strip (string_map standardise_char s) = string_map standardise_char s)
      as ->.
    { unfold strip. rewrite lstrip_map, rstrip_map; [done| |done| |done];
        intros a; apply standardise_char_facts. }
    apply string_map_compose. intros a. apply standardise_char_facts.
  - clear. induction s as [|a s IH]; [done|]. cbn [string_map string_forall].
    destruct (standardise_char_facts a) as (_ & _ & -> & -> & ->). by rewrite IH.
Qed.

Lemma standardise_columns_row (cols : list string) (r : Row) c :
  NoDup (standardise_label <$> cols) → c ∈ cols →
  at_ (list_to_map ((λ c, (standardise_label c, at_ r c)) <$> cols))
      (standardise_label c) = at_ r c.
Proof.
  intros Hnd Hc. unfold at_ at 1.
  erewrite elem_of_list_to_map_1; [done| |].
  - by rewrite <- list_fmap_compose.
  - apply list_elem_of_fmap. by exists c.
Qed.

(** X25. [_standardise_columns] renames and does nothing else: as long
    as no two labels become the same, the table has as many rows and every
    column is found, with the cells it had, under its normalised label. *)
Theorem standardise_columns_keeps_data (df : DataFrame) :
  NoDup (standardise_label <$> columns df) →
  nrows (_standardise_columns df) = nrows df ∧
  columns (_standardise_columns df) = standardise_label <$> columns df ∧
  ∀ c, c ∈ columns df →
    getitem (_standardise_columns df) (standardise_label c) = getitem df c.
Proof.
  intros Hnd. split_and!.
  - unfold nrows, _standardise_columns. cbn [rows]. by rewrite length_fmap.
  - done.
  - intros c Hc. rewrite (getitem_in df) by done.
    rewrite getitem_in by (cbn [_standardise_columns columns]; by apply list_elem_of_fmap_2).
    f_equal. cbn [_standardise_columns rows]. rewrite <- list_fmap_compose.
    apply list_fmap_ext. intros _ r _. simpl. by apply standardise_columns_row.
Qed.

Lemma standardise_columns_keeps_data_witness :
  columns (_standardise_columns raw_saudi_example)
    = ["year"; "production_indicator"; "value"]
  ∧ getitem (_standardise_columns raw_saudi_example) (standardise_label " Value ")
    = getitem raw_saudi_example " Value ".
Proof.
  destruct (standardise_columns_keeps_data raw_saudi_example) as (_ & Hc & Hget).
  - vm_compute. repeat constructor; intros Hin;
      repeat (apply elem_of_cons in Hin as [Hin|Hin]; [discriminate|]);
      by apply elem_of_nil in Hin.
  - split; [exact Hc|]. apply Hget. do 2 right. left.
Defined.






(** * Properties of the evaluation: the folds of the backtest and the range of [smape] *)

From Stdlib Require Import Lqa.
Local Open Scope Z_scope.

Lemma py_range_forward (stop step : Z) :
  0 < step →
  ∃ starts, py_range 0 stop step = Ok starts ∧
    ∀ s, s ∈ starts ↔ ∃ k, 0 ≤ k ∧ s = k * step ∧ s < stop.
Proof.
  intros Hstep. unfold py_range.
  rewrite decide_False by lia. rewrite decide_True by done.
  eexists. split; [done|].
  intros s. rewrite list_elem_of_fmap. setoid_rewrite elem_of_seqZ.
  replace (stop - 0 + step - 1) with (stop + step - 1) by lia.
  split.
  - intros (k & -> & Hk0 & Hk). exists k. split_and!; [lia|lia|].
    destruct (decide (k * step < stop)) as [|Hge]; [lia|]. exfalso.
    assert ((stop + step - 1) `div` step < k + 1); [|lia].
    apply Z.div_lt_upper_bound; [done|nia].
  - intros (k & Hk0 & -> & Hlt). exists k. split_and!; [lia|lia|].
    assert (k + 1 ≤ (stop + step - 1) `div` step); [|lia].
    apply Z.div_le_lower_bound; [done|nia].
Qed.

Lemma iloc_slice_inside (df : DataFrame) (a b : Z) :
  0 ≤ a ≤ b → b ≤ Z.of_nat (nrows df) →
  rows (iloc_slice df a b) = take (Z.to_nat (b - a)) (drop (Z.to_nat a) (rows df))
  ∧ nrows (iloc_slice df a b) = Z.to_nat (b - a).
Proof.
  intros Hab Hb. unfold iloc_slice, slice_bound. cbv zeta.
  rewrite !decide_False by lia. rewrite !Z.min_l by lia.
  unfold nrows in *. cbn [rows]. split; [done|].
  rewrite length_take, length_drop. lia.
Qed.

(** X28. With a positive step and non-negative sizes, the folds of the
    backtest start at the multiples of [step] that leave room for a whole
    training window and a whole test window, and at no other row; in every
    fold the training slice has exactly [train_size] rows, the test slice
    exactly [horizon] rows, and the test rows are the rows that follow the
    training rows in the frame: no fold is cut short at the end of the
    frame, and no test row is a training row of its fold. *)
Theorem backtest_windows_full (df : DataFrame) (horizon train_size step : Z) :
  0 < step → 0 ≤ train_size → 0 ≤ horizon →
  ∃ starts,
    py_range 0 (Z.of_nat (nrows df) - train_size - horizon + 1) step = Ok starts ∧
    (∀ start, start ∈ starts
       ↔ ∃ k, 0 ≤ k ∧ start = k * step
              ∧ start + train_size + horizon ≤ Z.of_nat (nrows df)) ∧
    ∀ start, start ∈ starts →
      let '(train_df, test_df) := fold_windows df horizon train_size start in
      nrows train_df = Z.to_nat train_size ∧
      nrows test_df = Z.to_nat horizon ∧
      rows df = take (Z.to_nat start) (rows df) ++ rows train_df ++ rows test_df
                  ++ drop (Z.to_nat (start + train_size + horizon)) (rows df).
Proof.
  intros Hstep Hts Hh.
  destruct (py_range_forward (Z.of_nat (nrows df) - train_size - horizon + 1)
              step Hstep) as (starts & Hrange & Hstarts).
  exists starts. split; [done|]. split.
  - intros s. rewrite Hstarts.
    split; intros (k & ? & ? & ?); exists k; split_and!; lia.
  - intros s (k & Hk & Hs & Hlt)%Hstarts.
    assert (0 ≤ s) by nia. clear Hs Hk k.
    unfold fold_windows. cbv beta iota zeta.
    destruct (iloc_slice_inside df s (s + train_size)) as [Hr1 Hn1]; [lia|lia|].
    destruct (iloc_slice_inside df (s + train_size) (s + train_size + horizon))
      as [Hr2 Hn2]; [lia|lia|].
    rewrite Hn1, Hn2, Hr1, Hr2.
    replace (s + train_size - s) with train_size by lia.
    replace (s + train_size + horizon - (s + train_size)) with horizon by lia.
    split_and!; [done|done|].
    rewrite !Z2Nat.inj_add by lia.
    rewrite <- !drop_drop. by rewrite !take_drop.
Qed.

Lemma backtest_windows_full_witness :
  ∃ starts,
    py_range 0 (Z.of_nat (nrows backtest_example) - 3 - 1 + 1) 2 = Ok starts ∧
    (∀ start, start ∈ starts
       ↔ ∃ k, 0 ≤ k ∧ start = k * 2
              ∧ start + 3 + 1 ≤ Z.of_nat (nrows backtest_example)) ∧
    ∀ start, start ∈ starts →
      let '(train_df, test_df) := fold_windows backtest_example 1 3 start in
      nrows train_df = Z.to_nat 3 ∧
      nrows test_df = Z.to_nat 1 ∧
      rows backtest_example
        = take (Z.to_nat start) (rows backtest_example) ++ rows train_df
            ++ rows test_df
            ++ drop (Z.to_nat (start + 3 + 1)) (rows backtest_example).
Proof. apply (backtest_windows_full backtest_example 1 3 2); lia. Defined.

Section backtest_edges.
Context `{FloatSqrt}.

(** X29. A frame too short for one fold is not an error: with a positive
    step and fewer rows than [train_size + horizon], no model is fitted and
    the three aggregated scores are [nan].  A step of zero is the
    [ValueError] of [range]. *)
Theorem backtest_without_fold (df : DataFrame) (target_col : string)
    (feature_cols : list string) (horizon train_size step : Z)
    (model_factory : Estimator) :
  (step = 0 →
   rolling_origin_backtest df target_col feature_cols horizon train_size step
       model_factory
     = Raise (ValueError "range() arg 3 must not be zero"))
  ∧ (0 < step → Z.of_nat (nrows df) < train_size + horizon →
     rolling_origin_backtest df target_col feature_cols horizon train_size step
         model_factory
       = Ok {[ "rmse" := None; "mae" := None; "smape" := None ]}).
Proof.
  split.
  - intros ->. reflexivity.
  - intros Hstep Hshort. unfold rolling_origin_backtest.
    destruct (py_range_forward (Z.of_nat (nrows df) - train_size - horizon + 1)
                step Hstep) as (starts & -> & Hstarts).
    destruct starts as [|s starts]; [reflexivity|]. exfalso.
    destruct (Hstarts s) as [(k & Hk & Hs & Hlt) _]; [left|]. nia.
Qed.
End backtest_edges.

Lemma backtest_without_fold_witness :
  @rolling_origin_backtest id_sqrt backtest_example "y" ["x"] 1 3 0 last_value_model
    = Raise (ValueError "range() arg 3 must not be zero")
  ∧ @rolling_origin_backtest id_sqrt backtest_example "y" ["x"] 3 6 2 last_value_model
    = Ok {[ "rmse" := None; "mae" := None; "smape" := None ]}.
Proof.
  split.
  - by apply (@backtest_without_fold id_sqrt backtest_example "y" ["x"] 1 3 0).
  - apply (@backtest_without_fold id_sqrt backtest_example "y" ["x"] 3 6 2).
    + lia.
    + vm_compute. reflexivity.
Defined.












